(** * whynot.py: a two-stage interpreter (compiler + virtual machine)

    Shallow embedding of [src/whynot.py] and the properties of its jump
    stack, its single-pass compiler and its virtual machine.

    Conventions of the embedding:
    - a Python [int] is a [Z]; a Python [str] is the list of its code points;
    - a Python [list] is a [list], subscripted through [getitem]/[setitem],
      which implement Python's index rule (a negative index counts from the
      end, anything else out of range raises [IndexError]);
    - a method that mutates [self] returns the new object next to its result;
    - a computation that can raise lives in the monad [Res];
    - the [while] loop of [execute] is run with fuel. *)

From Stdlib Require Import ZArith NArith Ascii String Lia.
From stdpp Require Import base list.

Local Open Scope Z_scope.

(** ** Host values *)

(** A character is its Unicode code point. *)
Definition char := N.
Definition pystr := list char.

Definition code (a : ascii) : char := N_of_ascii a.

(** ASCII literal to Python string. *)
Definition str (s : string) : pystr := map code (list_ascii_of_string s).

(** The exceptions of the host that the program can run into. *)
Inductive PyExc :=
  IndexError | ValueError | OverflowError | EOFError | UnicodeEncodeError.

(** A computation that returns a value or raises. *)
Inductive Res (A : Type) :=
| Ok (a : A)
| Raise (e : PyExc).
Arguments Ok {A} a.
Arguments Raise {A} e.

Definition bind {A B} (r : Res A) (k : A -> Res B) : Res B :=
  match r with
  | Ok a => k a
  | Raise e => Raise e
  end.

Notation "'let*' x ':=' r 'in' k" := (bind r (fun x => k))
  (at level 10, x pattern, k at level 200).

(** Python's subscript rule on a sequence of length [len]: the position that
    index [i] denotes, if any. *)
Definition resolve_index (len i : Z) : option nat :=
  if (0 <=? i) && (i <? len) then Some (Z.to_nat i)
  else if (- len <=? i) && (i <? 0) then Some (Z.to_nat (len + i))
  else None.

(** [l[i]] *)
Definition getitem {A} (l : list A) (i : Z) : Res A :=
  match resolve_index (Z.of_nat (length l)) i with
  | Some n =>
      match l !! n with
      | Some x => Ok x
      | None => Raise IndexError
      end
  | None => Raise IndexError
  end.

(** [l[i] = x] *)
Definition setitem {A} (l : list A) (i : Z) (x : A) : Res (list A) :=
  match resolve_index (Z.of_nat (length l)) i with
  | Some n => Ok (<[n := x]> l)
  | None => Raise IndexError
  end.

(** [str.isspace] on one character: the code points that [str.strip] removes. *)
Definition is_space (c : char) : bool :=
  ((9 <=? c) && (c <=? 13) || (28 <=? c) && (c <=? 32) || (c =? 133) ||
   (c =? 160) || (c =? 5760) || (8192 <=? c) && (c <=? 8202) ||
   (c =? 8232) || (c =? 8233) || (c =? 8239) || (c =? 8287) ||
   (c =? 12288))%N.

Fixpoint lstrip (s : pystr) : pystr :=
  match s with
  | c :: s' => if is_space c then lstrip s' else s
  | [] => []
  end.

(** [s.strip()] *)
Definition strip (s : pystr) : pystr := rev (lstrip (rev (lstrip s))).

(** [chr(v)]: CPython converts the argument to a C [int] first
    ([OverflowError] beyond 32 bits), then checks [range(0x110000)]. *)
Definition chr (v : Z) : Res char :=
  if (v <? - 2147483648) || (2147483647 <? v) then Raise OverflowError
  else if (v <? 0) || (1114111 <? v) then Raise ValueError
  else Ok (Z.to_N v).

(** A surrogate code point: [chr] returns it, no text encoding takes it. *)
Definition is_surrogate (c : char) : bool :=
  (55296 <=? c)%N && (c <=? 57343)%N.

(** [print(s)] of a text, standard output encoding in UTF-8 with the strict
    error handler (Python's default): the line written, or the exception of
    the encoder for a text that holds a surrogate, with nothing written. *)
Definition print (s : pystr) : Res pystr :=
  if existsb is_surrogate s then Raise UnicodeEncodeError else Ok s.

(** ** Enumerations and constants (lines 8-33) *)

Inductive Op :=
| OpEnd | OpIncDp | OpDecDp | OpIncVal | OpDecVal | OpOut | OpIn
| OpJmpFwd | OpJmpBck | Unknown.

Inductive Statuses := Success | Failure.

Definition PROGRAM_SIZE : Z := 4096.
Definition STACK_SIZE : Z := 512.
Definition DATA_SIZE : Z := 65535.

Inductive StackErrors := OverFlow | UnderFlow.

Definition Op_eqb (a b : Op) : bool :=
  match a, b with
  | OpEnd, OpEnd | OpIncDp, OpIncDp | OpDecDp, OpDecDp
  | OpIncVal, OpIncVal | OpDecVal, OpDecVal | OpOut, OpOut | OpIn, OpIn
  | OpJmpFwd, OpJmpFwd | OpJmpBck, OpJmpBck | Unknown, Unknown => true
  | _, _ => false
  end.

(** ** class Stack (lines 36-71) *)

Module Stack.

Record t := mk { ptr : Z; arr : list Z }.

(** [__init__] *)
Definition init : t :=
  {| ptr := 0; arr := replicate (Z.to_nat STACK_SIZE) 0 |}.

(** [push]: the pair is the new state and the second component of the
    returned tuple (the first is always [None]). *)
Definition push (self : t) (a : Z) : Res (t * option StackErrors) :=
  if ptr self >=? STACK_SIZE then Ok (self, Some OverFlow)
  else
    let* arr' := setitem (arr self) (ptr self) a in
    Ok ({| ptr := ptr self + 1; arr := arr' |}, None).

(** [pop]: new state and returned tuple. *)
Definition pop (self : t) : Res (t * (option Z * option StackErrors)) :=
  if ptr self =? 0 then Ok (self, (None, Some UnderFlow))
  else
    let self' := {| ptr := ptr self - 1; arr := arr self |} in
    let* v := getitem (arr self') (ptr self') in
    Ok (self', (Some v, None)).

Definition is_empty (self : t) : bool :=
  match ptr self with
  | 0 => true
  | _ => false
  end.

Definition is_full (self : t) : bool :=
  match ptr self with
  | 512 => true
  | _ => false
  end.

(** The elements the stack holds, oldest first. *)
Definition elems (self : t) : list Z := take (Z.to_nat (ptr self)) (arr self).

(** What [__init__], [push] and [pop] maintain. *)
Definition wf (self : t) : Prop :=
  0 <= ptr self <= STACK_SIZE /\ Z.of_nat (length (arr self)) = STACK_SIZE.

End Stack.

(** ** class Instruction (lines 74-77) *)

Record Instruction := mkInstruction { operator : Op; operand : Z }.

Definition set_operator (i : Instruction) (o : Op) : Instruction :=
  {| operator := o; operand := operand i |}.

Definition set_operand (i : Instruction) (n : Z) : Instruction :=
  {| operator := operator i; operand := n |}.

(** [l[i].operator = o]: the list holds one object per position, so the
    update of a field is an update of that position. *)
Definition assign_operator (l : list Instruction) (i : Z) (o : Op)
  : Res (list Instruction) :=
  let* x := getitem l i in
  setitem l i (set_operator x o).

(** [l[i].operand = n] *)
Definition assign_operand (l : list Instruction) (i : Z) (n : Z)
  : Res (list Instruction) :=
  let* x := getitem l i in
  setitem l i (set_operand x n).

(** ** class Program (lines 80-178) *)

Module Program.

Record t := mk {
  instructions : list Instruction;
  stack : Stack.t;
  print_buffer : pystr
}.

(** [__init__] *)
Definition init : t :=
  {| instructions := replicate (Z.to_nat PROGRAM_SIZE) (mkInstruction Unknown 0);
     stack := Stack.init;
     print_buffer := [] |}.

Definition with_instructions (self : t) (l : list Instruction) : t :=
  {| instructions := l; stack := stack self; print_buffer := print_buffer self |}.

Definition with_stack (self : t) (s : Stack.t) : t :=
  {| instructions := instructions self; stack := s; print_buffer := print_buffer self |}.

Definition with_print_buffer (self : t) (b : pystr) : t :=
  {| instructions := instructions self; stack := stack self; print_buffer := b |}.

(** *** compile (lines 86-140) *)

(** The [return] statement that ended [compile]. *)
Inductive Exit :=
| StackFull        (* line 109 *)
| UnmatchedClose   (* line 115 *)
| PopFailed        (* line 122 *)
| ScanEnd          (* line 134 *)
| Compiled.        (* line 140 *)

(** The value that [return] statement gives. *)
Definition status (e : Exit) : Statuses :=
  match e with
  | Compiled => Success
  | _ => Failure
  end.

(** How one iteration of the [for] loop ends. *)
Inductive Scan :=
| Scanned (pc : Z) (self : t)        (* falls through to the next character *)
| Exited (e : Exit) (self : t).      (* returns from [compile] *)

(** A [case] that only writes an operator, then [pc += 1]. *)
Definition emit (self : t) (pc : Z) (o : Op) : Res Scan :=
  let* l := assign_operator (instructions self) pc o in
  Ok (Scanned (pc + 1) (with_instructions self l)).

(** [case "["] (lines 105-111), then [pc += 1]. *)
Definition case_open (self : t) (pc : Z) : Res Scan :=
  let* l := assign_operator (instructions self) pc OpJmpFwd in
  let self := with_instructions self l in
  if Stack.is_full (stack self) then Ok (Exited StackFull self)
  else
    let* (s, _) := Stack.push (stack self) pc in
    Ok (Scanned (pc + 1) (with_stack self s)).

(** [case "]"] (lines 113-126), then [pc += 1]. *)
Definition case_close (self : t) (pc : Z) : Res Scan :=
  if Stack.is_empty (stack self) then Ok (Exited UnmatchedClose self)
  else
    let* (s, result) := Stack.pop (stack self) in
    let self := with_stack self s in
    match fst result with
    | Some jmp_pc =>
        let* l := assign_operator (instructions self) pc OpJmpBck in
        let* l := assign_operand l pc jmp_pc in
        let* l := assign_operand l jmp_pc pc in
        Ok (Scanned (pc + 1) (with_instructions self l))
    | None => Ok (Exited PopFailed self)
    end.

(** The [match c] statement and the [pc += 1] after it (lines 92-131). *)
Definition compile_char (c : char) (pc : Z) (self : t) : Res Scan :=
  if (c =? code ">")%N then emit self pc OpIncDp
  else if (c =? code "<")%N then emit self pc OpDecDp
  else if (c =? code "+")%N then emit self pc OpIncVal
  else if (c =? code "-")%N then emit self pc OpDecVal
  else if (c =? code ".")%N then emit self pc OpOut
  else if (c =? code ",")%N then emit self pc OpIn
  else if (c =? code "[")%N then case_open self pc
  else if (c =? code "]")%N then case_close self pc
  else Ok (Scanned (pc - 1 + 1) self).

(** The [for] loop (lines 88-131), from cursor [pc]. *)
Fixpoint compile_loop (cs : pystr) (pc : Z) (self : t) : Res Scan :=
  match cs with
  | [] => Ok (Scanned pc self)
  | c :: cs' =>
      if negb (pc <? PROGRAM_SIZE) then Ok (Scanned pc self)   (* break *)
      else
        let* r := compile_char c pc self in
        match r with
        | Scanned pc' self' => compile_loop cs' pc' self'
        | Exited e self' => Ok (Exited e self')
        end
  end.

(** What [compile] leaves behind: the return site, the object, and the
    lines printed. *)
Record Compilation := mkCompilation {
  exit : Exit;
  program : t;
  compile_stdout : list pystr
}.

Definition compile (self : t) (fp : pystr) : Res Compilation :=
  let* r := compile_loop (strip fp) 0 self in
  match r with
  | Exited e self' => Ok (mkCompilation e self' [])
  | Scanned pc self' =>
      if negb (Stack.is_empty (stack self')) || (pc =? PROGRAM_SIZE)
      then Ok (mkCompilation ScanEnd self' [])
      else
        let* l := assign_operator (instructions self') pc OpEnd in
        Ok (mkCompilation Compiled (with_instructions self' l)
              [str "Compilation successful!"])
  end.

(** *** execute (lines 142-178) *)

(** The locals of [execute], the object it runs on, and the lines the
    environment still has to offer on standard input. *)
Record VM := mkVM {
  prog : t;
  data : list Z;
  pc : Z;
  ptr : Z;
  stdin : list pystr
}.

Definition with_ptr (vm : VM) (n : Z) : VM :=
  {| prog := prog vm; data := data vm; pc := pc vm; ptr := n; stdin := stdin vm |}.

Definition with_pc (vm : VM) (n : Z) : VM :=
  {| prog := prog vm; data := data vm; pc := n; ptr := ptr vm; stdin := stdin vm |}.

Definition with_data (vm : VM) (d : list Z) : VM :=
  {| prog := prog vm; data := d; pc := pc vm; ptr := ptr vm; stdin := stdin vm |}.

Definition with_stdin (vm : VM) (i : list pystr) : VM :=
  {| prog := prog vm; data := data vm; pc := pc vm; ptr := ptr vm; stdin := i |}.

Definition with_prog (vm : VM) (p : t) : VM :=
  {| prog := p; data := data vm; pc := pc vm; ptr := ptr vm; stdin := stdin vm |}.

(** The state on entry of the loop (lines 143-145). *)
Definition start (self : t) (input : list pystr) : VM :=
  {| prog := self; data := replicate (Z.to_nat DATA_SIZE) 0;
     pc := 0; ptr := 0; stdin := input |}.

(** How the [match] of one iteration ends. *)
Inductive Step :=
| Next (vm : VM)
| Return (s : Statuses).

(** How the [while] loop ends. *)
Inductive Break :=
| LoopExit              (* the condition is false *)
| LoopReturn (s : Statuses)
| LoopRaise (e : PyExc)
| LoopFuel.

(** How [execute] ends. *)
Inductive Outcome :=
| Returned (s : Statuses)
| Raised (e : PyExc)
| OutOfFuel.

(** [input()]: the next line, without its newline. *)
Definition input (vm : VM) : Res (pystr * VM) :=
  match stdin vm with
  | [] => Raise EOFError
  | line :: rest => Ok (line, with_stdin vm rest)
  end.

Section Execute.

(** [int(s)] of the host: the integer a line denotes, or the exception
    ([ValueError]) for a line that is no integer literal. *)
Variable host_int : pystr -> Res Z.

(** The condition of the [while] (line 147). *)
Definition guard (vm : VM) : Res bool :=
  let* i := getitem (instructions (prog vm)) (pc vm) in
  Ok (negb (Op_eqb (operator i) OpEnd) && (ptr vm <? DATA_SIZE)).

(** The [match] statement (lines 149-169).  The source reads
    [self.instructions[pc]] again in the jump cases; nothing has written to it
    in between, so the instruction is fetched once here. *)
Definition exec_op (vm : VM) : Res Step :=
  let* i := getitem (instructions (prog vm)) (pc vm) in
  match operator i with
  | OpIncDp => Ok (Next (with_ptr vm (ptr vm + 1)))
  | OpDecDp => Ok (Next (with_ptr vm (ptr vm - 1)))
  | OpIncVal =>
      let* v := getitem (data vm) (ptr vm) in
      let* d := setitem (data vm) (ptr vm) (v + 1) in
      Ok (Next (with_data vm d))
  | OpDecVal =>
      let* v := getitem (data vm) (ptr vm) in
      let* d := setitem (data vm) (ptr vm) (v - 1) in
      Ok (Next (with_data vm d))
  | OpOut =>
      let* v := getitem (data vm) (ptr vm) in
      let* c := chr v in
      Ok (Next (with_prog vm
                  (with_print_buffer (prog vm) (print_buffer (prog vm) ++ [c]))))
  | OpIn =>
      let* (line, vm) := input vm in
      let* v := host_int line in
      let* d := setitem (data vm) (ptr vm) v in
      Ok (Next (with_data vm d))
  | OpJmpFwd =>
      let* v := getitem (data vm) (ptr vm) in
      if v =? 0 then Ok (Next (with_pc vm (operand i))) else Ok (Next vm)
  | OpJmpBck =>
      let* v := getitem (data vm) (ptr vm) in
      if negb (v =? 0) then Ok (Next (with_pc vm (operand i))) else Ok (Next vm)
  | _ => Ok (Return Failure)
  end.

(** One iteration: the [match], then [pc += 1] (line 171). *)
Definition iteration (vm : VM) : Res Step :=
  let* s := exec_op vm in
  match s with
  | Next vm' => Ok (Next (with_pc vm' (pc vm' + 1)))
  | Return st => Ok (Return st)
  end.

(** The [while] loop (lines 147-171), at most [fuel] iterations.  The state
    given back is the one at the start of the iteration that left the loop. *)
Fixpoint loop (fuel : nat) (vm : VM) : Break * VM :=
  match fuel with
  | O => (LoopFuel, vm)
  | S fuel' =>
      match guard vm with
      | Raise e => (LoopRaise e, vm)
      | Ok false => (LoopExit, vm)
      | Ok true =>
          match iteration vm with
          | Raise e => (LoopRaise e, vm)
          | Ok (Return st) => (LoopReturn st, vm)
          | Ok (Next vm') => loop fuel' vm'
          end
      end
  end.

(** What [execute] leaves behind: how it ended, the last state of its
    locals and of the object, and the lines printed. *)
Record Execution := mkExecution {
  outcome : Outcome;
  final : VM;
  execute_stdout : list pystr
}.

(** After the loop (lines 173-178).  [execute_stdout] lists the lines
    written; when [print] raises (line 175), [execute] ends by its exception
    and neither status is returned. *)
Definition conclude (r : Break * VM) : Execution :=
  match r with
  | (LoopExit, vm) =>
      if negb (ptr vm =? DATA_SIZE)
      then match print (print_buffer (prog vm)) with
           | Ok line => mkExecution (Returned Success) vm [line]
           | Raise e => mkExecution (Raised e) vm []
           end
      else mkExecution (Returned Failure) vm []
  | (LoopReturn st, vm) => mkExecution (Returned st) vm []
  | (LoopRaise e, vm) => mkExecution (Raised e) vm []
  | (LoopFuel, vm) => mkExecution OutOfFuel vm []
  end.

Definition execute (fuel : nat) (self : t) (input : list pystr) : Execution :=
  conclude (loop fuel (start self input)).

(** The state after [n] iterations of the loop, when it gets that far. *)
Fixpoint after (n : nat) (vm : VM) : option VM :=
  match n with
  | O => Some vm
  | S n' =>
      match guard vm, iteration vm with
      | Ok true, Ok (Next vm') => after n' vm'
      | _, _ => None
      end
  end.

End Execute.

End Program.

(** ** Contracts of the jump stack *)

(** [push] on a stack in state [s]: what the contract promises. *)
Definition push_contract (s : Stack.t) (v : Z) : Prop :=
  exists s' r,
    Stack.push s v = Ok (s', r) /\
    (r = Some OverFlow <-> length (Stack.elems s) = 512%nat) /\
    (r = Some OverFlow -> s' = s) /\
    (r <> Some OverFlow ->
       r = None /\ Stack.elems s' = Stack.elems s ++ [v] /\
       length (Stack.elems s') = S (length (Stack.elems s)) /\ Stack.wf s').

(** [pop] on a stack in state [s]: what the contract promises. *)
Definition pop_contract (s : Stack.t) : Prop :=
  exists s' r e,
    Stack.pop s = Ok (s', (r, e)) /\
    (e = Some UnderFlow <-> length (Stack.elems s) = 0%nat) /\
    (e = Some UnderFlow -> s' = s /\ r = None) /\
    (e <> Some UnderFlow ->
       e = None /\ exists x, r = Some x /\ Stack.elems s = Stack.elems s' ++ [x] /\
       Stack.wf s').

(** ** Vocabulary of the compiler's specification *)

(** The operator a recognised command character stands for. *)
Definition op_of_char (c : char) : option Op :=
  if (c =? code ">")%N then Some OpIncDp
  else if (c =? code "<")%N then Some OpDecDp
  else if (c =? code "+")%N then Some OpIncVal
  else if (c =? code "-")%N then Some OpDecVal
  else if (c =? code ".")%N then Some OpOut
  else if (c =? code ",")%N then Some OpIn
  else if (c =? code "[")%N then Some OpJmpFwd
  else if (c =? code "]")%N then Some OpJmpBck
  else None.

(** The recognised command characters of a text, in order. *)
Definition commands (src : pystr) : list Op := omap op_of_char src.

(** The instructions that hold a real operator. *)
Definition written (l : list Instruction) : list Instruction :=
  List.filter (fun i => negb (Op_eqb (operator i) Unknown)) l.

(** Bracket matching by counting: the position of the first jump-if-nonzero
    met at nesting depth 0, scanning [l] whose head is at position [pos]. *)
Fixpoint find_close (l : list Op) (depth pos : nat) : option nat :=
  match l with
  | [] => None
  | OpJmpBck :: l' =>
      match depth with
      | O => Some pos
      | S d => find_close l' d (S pos)
      end
  | OpJmpFwd :: l' => find_close l' (S depth) (S pos)
  | _ :: l' => find_close l' depth (S pos)
  end.

(** The position of the jump-if-nonzero that matches the jump-if-zero at
    position [i]. *)
Definition matching_close (ops : list Op) (i : nat) : option nat :=
  find_close (drop (S i) ops) 0 (S i).

(** Nesting depth at the end of a text: opening minus closing brackets. *)
Fixpoint depth_after (cs : pystr) : Z :=
  match cs with
  | [] => 0
  | c :: cs' =>
      (if (c =? code "[")%N then 1 else if (c =? code "]")%N then -1 else 0)
      + depth_after cs'
  end.

(** Every prefix of the text has its nesting depth between [lo] and [hi]. *)
Definition nesting_within (lo hi : Z) (cs : pystr) : Prop :=
  forall k : nat, lo <= depth_after (take k cs) <= hi.

(** Executable form of [nesting_within], from depth [d]. *)
Fixpoint nesting_check (lo hi d : Z) (cs : pystr) : bool :=
  (lo <=? d) && (d <=? hi) &&
  match cs with
  | [] => true
  | c :: cs' =>
      nesting_check lo hi
        (d + if (c =? code "[")%N then 1 else if (c =? code "]")%N then -1 else 0)
        cs'
  end.

(** Operator sequences in which every bracket is matched. *)
Inductive balanced : list Op -> Prop :=
| balanced_nil : balanced []
| balanced_snoc l o :
    balanced l -> o <> OpJmpFwd -> o <> OpJmpBck -> balanced (l ++ [o])
| balanced_loop l b :
    balanced l -> balanced b -> balanced (l ++ OpJmpFwd :: b ++ [OpJmpBck]).

(** [open_chain ops st]: [st] lists, outermost first, the positions of the
    jump-if-zero operators of [ops] that are still open; what lies between
    them is balanced. *)
Inductive open_chain : list Op -> list Z -> Prop :=
| chain_closed b : balanced b -> open_chain b []
| chain_open ops st b :
    open_chain ops st -> balanced b ->
    open_chain (ops ++ OpJmpFwd :: b) (st ++ [Z.of_nat (length ops)]).

(** Positions [i] and [j] of [l] hold a linked pair of jumps: a jump-if-zero
    whose operand is [j], the position of its matching jump-if-nonzero in the
    operator sequence [ops], and that jump-if-nonzero with operand [i]. *)
Definition linked (ops : list Op) (l : list Instruction) (i j : nat) : Prop :=
  l !! i = Some (mkInstruction OpJmpFwd (Z.of_nat j)) /\
  l !! j = Some (mkInstruction OpJmpBck (Z.of_nat i)) /\
  matching_close ops i = Some j.

(** The instruction array after the operators [ops] were emitted: they sit
    at the first positions, the rest is as [__init__] left it. *)
Record layout (ops : list Op) (l : list Instruction) : Prop := {
  lay_capacity : Z.of_nat (length ops) <= PROGRAM_SIZE;
  lay_size : Z.of_nat (length l) = PROGRAM_SIZE;
  lay_ops : forall k o, ops !! k = Some o ->
    exists n, l !! k = Some (mkInstruction o n);
  lay_rest : forall k : nat, Z.of_nat (length ops) <= Z.of_nat k < PROGRAM_SIZE ->
    l !! k = Some (mkInstruction Unknown 0);
  lay_cmd : Forall (fun o => o <> Unknown) ops
}.

(** What the scan of [compile] maintains on an object that started fresh:
    [ops] are the operators emitted so far. *)
Record compiled_prefix (ops : list Op) (p : Program.t) : Prop := {
  cp_layout : layout ops (Program.instructions p);
  cp_wf : Stack.wf (Program.stack p);
  cp_chain : open_chain ops (Stack.elems (Program.stack p));
  cp_fwd : forall i, ops !! i = Some OpJmpFwd ->
    (Z.of_nat i ∈ Stack.elems (Program.stack p)) \/
    exists j, linked ops (Program.instructions p) i j;
  cp_bck : forall j, ops !! j = Some OpJmpBck ->
    exists i, (Z.of_nat i ∉ Stack.elems (Program.stack p)) /\
              linked ops (Program.instructions p) i j
}.

(** An instruction array as a successful [compile] leaves it: the terminator
    sits at position [n] and every jump stays before it. *)
Record terminated (n : nat) (l : list Instruction) : Prop := {
  term_end : l !! n = Some (mkInstruction OpEnd 0);
  term_jumps : forall k ins,
    l !! k = Some ins ->
    operator ins = OpJmpFwd \/ operator ins = OpJmpBck ->
    0 <= operand ins < Z.of_nat n
}.

(** The scan of [compile] reduced to its cursor [n] and the height [d] of
    the jump stack. *)
Inductive Verdict :=
| Through (n d : Z)     (* the loop is left at cursor [n], stack height [d] *)
| Overflow              (* it returns at line 109 *)
| Underflow.            (* it returns at line 115 *)

Fixpoint abstract_scan (cs : pystr) (n d : Z) : Verdict :=
  match cs with
  | [] => Through n d
  | c :: cs' =>
      if negb (n <? PROGRAM_SIZE) then Through n d
      else
        match op_of_char c with
        | None => abstract_scan cs' n d
        | Some OpJmpFwd =>
            if d =? STACK_SIZE then Overflow else abstract_scan cs' (n + 1) (d + 1)
        | Some OpJmpBck =>
            if d =? 0 then Underflow else abstract_scan cs' (n + 1) (d - 1)
        | Some _ => abstract_scan cs' (n + 1) d
        end
  end.

(** ** Running the two stages on a source text *)

(** A stand-in for the host's [int] in concrete runs: unsigned decimal
    literals only. *)
Fixpoint decimal_value (acc : Z) (s : pystr) : Res Z :=
  match s with
  | [] => Ok acc
  | c :: s' =>
      if ((48 <=? c) && (c <=? 57))%N
      then decimal_value (10 * acc + (Z.of_N c - 48)) s'
      else Raise ValueError
  end.

Definition decimal_int (s : pystr) : Res Z :=
  match s with
  | [] => Raise ValueError
  | _ => decimal_value 0 s
  end.

(** The object after [compile] ran on a fresh one. *)
Definition compiled (src : pystr) : Program.t :=
  match Program.compile Program.init src with
  | Ok c => Program.program c
  | Raise _ => Program.init
  end.

(** The locals of [execute] after [n] iterations on [compiled src]. *)
Definition state_after (n : nat) (src : pystr) (input : list pystr) : Program.VM :=
  let vm := Program.start (compiled src) input in
  match Program.after decimal_int n vm with
  | Some vm' => vm'
  | None => vm
  end.

(** Sample source texts. *)
Definition source_at : pystr := str "++++++++[>++++++++<-]>.".
Definition source_two_loops : pystr := str " [-] go [>] ".
Definition source_pairs : pystr := concat (replicate 2048 (str "[]")).
Definition source_increments : pystr := replicate 4096 (code "+").
Definition source_deep : pystr :=
  replicate 513 (code "[") ++ replicate 513 (code "]").
Definition source_sweep : pystr := str "+[>+]".
Definition source_nest : pystr := replicate 512 (code "[").

Definition source_back : pystr := str "+[<+]".

(** One line read, and the character of that code point written. *)
Definition source_echo : pystr := str ",.".

(** A loop that steps to the left and reads a line into the cell there, and
    65536 lines [1] for it. *)
Definition source_read : pystr := str "+[<,]".
Definition read_input : list pystr := replicate (Z.to_nat (DATA_SIZE + 1)) (str "1").

(** The iterations of [source_read] up to its 65536th input instruction. *)
Definition read_steps : nat := 2 + (3 * Z.to_nat DATA_SIZE + 1).

(** The tape while [source_back] runs: cell 0 and the last [k] cells hold 1. *)
Definition back_tape (k : nat) : list Z :=
  [1] ++ replicate (Z.to_nat (DATA_SIZE - 1) - k) 0 ++ replicate k 1.

(** The locals each time [source_back], compiled to [p], is back at its
    [<], with the data pointer at [-k]. *)
Definition back_state (p : Program.t) (input : list pystr) (k : nat) : Program.VM :=
  Program.mkVM p (back_tape k) 2 (- Z.of_nat k) input.

(** [n] increments, then an output. *)
Definition source_count (n : nat) : pystr := replicate n (code "+") ++ [code "."].

(** The locals while [source_count] runs, after [k] of its increments. *)
Definition count_state (p : Program.t) (input : list pystr) (k : nat) : Program.VM :=
  Program.mkVM p (<[0%nat := Z.of_nat k]> (replicate (Z.to_nat DATA_SIZE) 0))
               (Z.of_nat k) 0 input.
Definition source_prose : pystr := str " any text that has no command ".

(** The tape while [source_sweep] runs: ones up to cell [k], zeros beyond. *)
Definition ones_tape (k : nat) : list Z :=
  replicate (S k) 1 ++ replicate (Z.to_nat (DATA_SIZE - 1) - k) 0.

(** The locals each time [source_sweep], compiled to [p], is back at its
    [>], at cell [k]. *)
Definition sweep_state (p : Program.t) (input : list pystr) (k : nat) : Program.VM :=
  Program.mkVM p (ones_tape k) 2 (Z.of_nat k) input.

(** ** Sequences of calls on the jump stack *)

(** A call of one of the two methods that change the stack, and what the
    call returns. *)
Inductive StackCall :=
| CallPush (a : Z)
| CallPop.

Inductive StackReply :=
| PushReply (e : option StackErrors)
| PopReply (v : option Z) (e : option StackErrors).

Definition stack_call (s : Stack.t) (c : StackCall) : Res (Stack.t * StackReply) :=
  match c with
  | CallPush a =>
      let* (s', e) := Stack.push s a in
      Ok (s', PushReply e)
  | CallPop =>
      let* (s', r) := Stack.pop s in
      Ok (s', PopReply (fst r) (snd r))
  end.

Fixpoint stack_calls (s : Stack.t) (cs : list StackCall)
  : Res (Stack.t * list StackReply) :=
  match cs with
  | [] => Ok (s, [])
  | c :: cs' =>
      let* (s', r) := stack_call s c in
      let* (s'', rs) := stack_calls s' cs' in
      Ok (s'', r :: rs)
  end.

(** The reference the array is compared with: a list, newest element last,
    that takes at most 512 elements. *)
Definition list_call (l : list Z) (c : StackCall) : list Z * StackReply :=
  match c with
  | CallPush a =>
      if (length l <? 512)%nat then (l ++ [a], PushReply None)
      else (l, PushReply (Some OverFlow))
  | CallPop =>
      match rev l with
      | [] => (l, PopReply None (Some UnderFlow))
      | x :: r => (rev r, PopReply (Some x) None)
      end
  end.

Fixpoint list_calls (l : list Z) (cs : list StackCall) : list Z * list StackReply :=
  match cs with
  | [] => (l, [])
  | c :: cs' =>
      let (l', r) := list_call l c in
      let (l'', rs) := list_calls l' cs' in
      (l'', r :: rs)
  end.

(** ** More vocabulary for the compiler *)

(** The text with everything but its command characters removed. *)
Definition command_text (src : pystr) : pystr :=
  List.filter (fun c => match op_of_char c with Some _ => true | None => false end)
              src.

(** ** The script around the two stages (lines 181-219) *)

Module Main.

(** [class Error] (lines 181-183).  Both names are bound to the same value,
    the function [auto] itself (it is not called), so the enumeration has one
    member, named by the first, and the second name is an alias of it. *)
Inductive Error := FailedToExecute.

Definition FailedToCompile : Error := FailedToExecute.

(** [str(err)] *)
Definition Error_str (e : Error) : pystr :=
  match e with
  | FailedToExecute => str "Error.FailedToExecute"
  end.

(** What the script finds around it: its arguments ([sys.argv], texts of a
    command line in the encoding of standard output, so that the usage line
    can be written), the text of each file it can open (a path exists
    exactly when it can be opened and read as text), and the lines on
    standard input. *)
Record Env := mkEnv {
  argv : list pystr;
  files : pystr -> option pystr;
  lines : list pystr
}.

(** An exception of the stages, or the one of [open] on a missing file. *)
Inductive Exc :=
| Core (e : PyExc)
| FileNotFoundError.

(** How [main] ends, and the lines written so far. *)
Inductive End :=
| Return (err : option Error)     (* the second component of the tuple *)
| Uncaught (e : Exc)
| Fuel.

Record Run := mkRun {
  ending : End;
  stdout : list pystr
}.

(** The line of line 190. *)
Definition usage (a0 : pystr) : pystr :=
  str "Usage: " ++ a0 ++ str " filename" ++ [10%N].

(** The test of line 189. *)
Definition bad_arguments (env : Env) : Res bool :=
  if negb (Z.of_nat (length (argv env)) =? 2) then Ok true
  else
    let* a1 := getitem (argv env) 1 in
    match files env a1 with
    | Some _ => Ok false
    | None => Ok true
    end.

(** Lines 194-208, on the text read. *)
Definition stages (host_int : pystr -> Res Z) (fuel : nat)
           (buffer : pystr) (input : list pystr) (out : list pystr) : Run :=
  match Program.compile Program.init buffer with
  | Raise e => mkRun (Uncaught (Core e)) out
  | Ok c =>
      let out := out ++ Program.compile_stdout c in
      match Program.status (Program.exit c) with
      | Failure => mkRun (Return (Some FailedToCompile)) out
      | Success =>
          let e := Program.execute host_int fuel (Program.program c) input in
          let out := out ++ Program.execute_stdout e in
          match Program.outcome e with
          | Program.Returned Success => mkRun (Return None) out
          | Program.Returned Failure => mkRun (Return (Some FailedToExecute)) out
          | Program.Raised x => mkRun (Uncaught (Core x)) out
          | Program.OutOfFuel => mkRun Fuel out
          end
      end
  end.

(** [main] (lines 186-208). *)
Definition main (host_int : pystr -> Res Z) (fuel : nat) (env : Env) : Run :=
  match bad_arguments env with
  | Raise e => mkRun (Uncaught (Core e)) []
  | Ok bad =>
      match (if bad
             then let* a0 := getitem (argv env) 0 in Ok [usage a0]
             else Ok []) with
      | Raise e => mkRun (Uncaught (Core e)) []
      | Ok out =>
          match getitem (argv env) 1 with
          | Raise e => mkRun (Uncaught (Core e)) out
          | Ok path =>
              match files env path with
              | None => mkRun (Uncaught FileNotFoundError) out
              | Some buffer => stages host_int fuel buffer (lines env) out
              end
          end
      end
  end.

(** How the process ends. *)
Inductive Exit :=
| ExitCode (n : Z)
| Traceback (e : Exc)
| NoEnd.

Record Process := mkProcess {
  exit : Exit;
  printed : list pystr
}.

(** Lines 211-219. *)
Definition script (host_int : pystr -> Res Z) (fuel : nat) (env : Env) : Process :=
  let r := main host_int fuel env in
  match ending r with
  | Return (Some err) =>
      mkProcess (ExitCode 1)
                (stdout r ++ [str "Error: " ++ Error_str err ++ str "!"])
  | Return None =>
      mkProcess (ExitCode 0) (stdout r ++ [str "Program executed successfully!"])
  | Uncaught e => mkProcess (Traceback e) (stdout r)
  | Fuel => mkProcess NoEnd (stdout r)
  end.

End Main.

(** A file system with one file. *)
Definition one_file (path text : pystr) (q : pystr) : option pystr :=
  if decide (q = path) then Some text else None.

(** The script called as [whynot.py prog.bf], where [prog.bf] holds [text]. *)
Definition called_on (text : pystr) (input : list pystr) : Main.Env :=
  Main.mkEnv [str "whynot.py"; str "prog.bf"] (one_file (str "prog.bf") text) input.

(** Iterations of [+[>+]] up to the end of the tape. *)
Definition sweep_fuel : nat := 2 + (3 * Z.to_nat (DATA_SIZE - 1) + 1) + 1.

Arguments Program.init : simpl never.
Arguments Stack.init : simpl never.

(** * Properties *)

(** ** Subscripts *)

Section Subscript.
Context {A : Type}.
Implicit Types (l : list A) (i : Z) (x : A).

Lemma resolve_index_nonneg len i :
  0 <= i < len -> resolve_index len i = Some (Z.to_nat i).
Proof.
  intros H. unfold resolve_index.
  destruct (Z.leb_spec 0 i), (Z.ltb_spec i len); simpl; try lia. reflexivity.
Qed.

Lemma resolve_index_neg len i :
  - len <= i < 0 -> resolve_index len i = Some (Z.to_nat (len + i)).
Proof.
  intros H. unfold resolve_index.
  destruct (Z.leb_spec 0 i); [lia|]. simpl.
  destruct (Z.leb_spec (- len) i), (Z.ltb_spec i 0); simpl; try lia. reflexivity.
Qed.

Lemma resolve_index_lt len i n :
  resolve_index len i = Some n -> (Z.of_nat n < len).
Proof.
  unfold resolve_index.
  destruct (Z.leb_spec 0 i), (Z.ltb_spec i len); simpl;
    try (intros [= <-]; lia);
    destruct (Z.leb_spec (- len) i), (Z.ltb_spec i 0); simpl;
    try discriminate; intros [= <-]; lia.
Qed.

Lemma getitem_nonneg l i x :
  0 <= i -> l !! Z.to_nat i = Some x -> getitem l i = Ok x.
Proof.
  intros Hi Hx. unfold getitem.
  apply lookup_lt_Some in Hx as Hlt.
  rewrite resolve_index_nonneg by lia. now rewrite Hx.
Qed.

Lemma getitem_neg l i x :
  - Z.of_nat (length l) <= i < 0 ->
  l !! Z.to_nat (Z.of_nat (length l) + i) = Some x -> getitem l i = Ok x.
Proof.
  intros Hi Hx. unfold getitem.
  rewrite resolve_index_neg by lia. now rewrite Hx.
Qed.

Lemma getitem_Ok l i x :
  getitem l i = Ok x ->
  exists n, resolve_index (Z.of_nat (length l)) i = Some n /\ l !! n = Some x.
Proof.
  unfold getitem. destruct (resolve_index _ i) as [n|]; [|discriminate].
  destruct (l !! n) eqn:E; [|discriminate]. intros [= <-]. eauto.
Qed.

Lemma setitem_nonneg l i x :
  0 <= i < Z.of_nat (length l) -> setitem l i x = Ok (<[Z.to_nat i := x]> l).
Proof. intros H. unfold setitem. now rewrite resolve_index_nonneg. Qed.

Lemma setitem_neg l i x :
  - Z.of_nat (length l) <= i < 0 ->
  setitem l i x = Ok (<[Z.to_nat (Z.of_nat (length l) + i) := x]> l).
Proof. intros H. unfold setitem. now rewrite resolve_index_neg. Qed.

Lemma setitem_length l i x l' :
  setitem l i x = Ok l' -> length l' = length l.
Proof.
  unfold setitem. destruct (resolve_index _ i); [|discriminate].
  intros [= <-]. apply length_insert.
Qed.

End Subscript.

Lemma snoc_cases {A} (l : list A) : l = [] \/ exists ys y, l = ys ++ [y].
Proof. induction l using rev_ind; eauto. Qed.

(** ** The jump stack *)

Lemma Stack_init_wf : Stack.wf Stack.init.
Proof. split; [unfold STACK_SIZE; simpl; lia | reflexivity]. Qed.

Lemma Stack_elems_length (s : Stack.t) :
  Stack.wf s -> Z.of_nat (length (Stack.elems s)) = Stack.ptr s.
Proof.
  intros [Hp Hl]. unfold Stack.elems. rewrite length_take. lia.
Qed.

Lemma Stack_push_ok (s : Stack.t) (a : Z) :
  Stack.wf s -> Stack.ptr s < STACK_SIZE ->
  Stack.push s a =
    Ok (Stack.mk (Stack.ptr s + 1) (<[Z.to_nat (Stack.ptr s) := a]> (Stack.arr s)), None).
Proof.
  intros [Hp Hl] Hlt. unfold Stack.push.
  destruct (Z.geb_spec (Stack.ptr s) STACK_SIZE); [lia|].
  rewrite setitem_nonneg by lia. reflexivity.
Qed.

Lemma Stack_push_elems (s : Stack.t) (a : Z) :
  Stack.wf s -> Stack.ptr s < STACK_SIZE ->
  Stack.elems (Stack.mk (Stack.ptr s + 1) (<[Z.to_nat (Stack.ptr s) := a]> (Stack.arr s)))
  = Stack.elems s ++ [a].
Proof.
  intros [Hp Hl] Hlt. unfold Stack.elems. simpl.
  replace (Z.to_nat (Stack.ptr s + 1)) with (S (Z.to_nat (Stack.ptr s))) by lia.
  rewrite (take_S_r _ _ a).
  - rewrite take_insert_ge by lia. reflexivity.
  - apply list_lookup_insert_eq. lia.
Qed.

Lemma Stack_push_wf (s : Stack.t) (a : Z) :
  Stack.wf s -> Stack.ptr s < STACK_SIZE ->
  Stack.wf (Stack.mk (Stack.ptr s + 1) (<[Z.to_nat (Stack.ptr s) := a]> (Stack.arr s))).
Proof.
  intros [Hp Hl] Hlt. split; simpl; [lia|]. now rewrite length_insert.
Qed.

Lemma Stack_pop_ok (s : Stack.t) (x : Z) (rest : list Z) :
  Stack.wf s -> Stack.elems s = rest ++ [x] ->
  Stack.pop s = Ok (Stack.mk (Stack.ptr s - 1) (Stack.arr s), (Some x, None))
  /\ Stack.elems (Stack.mk (Stack.ptr s - 1) (Stack.arr s)) = rest
  /\ Stack.wf (Stack.mk (Stack.ptr s - 1) (Stack.arr s)).
Proof.
  intros Hwf He. pose proof (Stack_elems_length s Hwf) as Hlen.
  destruct Hwf as [Hp Hl].
  rewrite He, length_app in Hlen. simpl in Hlen.
  assert (Hx : Stack.arr s !! Z.to_nat (Stack.ptr s - 1) = Some x).
  { rewrite <- (lookup_take_lt _ (Z.to_nat (Stack.ptr s))) by lia.
    unfold Stack.elems in He. rewrite He.
    replace (Z.to_nat (Stack.ptr s - 1)) with (length rest + 0)%nat by lia.
    rewrite lookup_app_r by lia.
    now replace (length rest + 0 - length rest)%nat with 0%nat by lia. }
  split; [|split].
  - unfold Stack.pop. destruct (Z.eqb_spec (Stack.ptr s) 0); [lia|]. simpl.
    rewrite (getitem_nonneg _ _ x) by (lia || assumption). reflexivity.
  - unfold Stack.elems in *. simpl.
    replace (Z.to_nat (Stack.ptr s - 1)) with (length rest) by lia.
    assert (H : take (length rest) (take (Z.to_nat (Stack.ptr s)) (Stack.arr s))
                = take (length rest) (rest ++ [x])) by now rewrite He.
    rewrite take_take, take_app_length in H.
    now replace (length rest `min` Z.to_nat (Stack.ptr s))%nat with (length rest) in H by lia.
  - split; simpl; lia.
Qed.


(** C4. On every state that [__init__], [push] and [pop] produce, [push]
    reports [OverFlow] exactly when the stack holds 512 elements and
    otherwise appends the value, growing the stack by one; [pop] reports
    [UnderFlow] exactly when the stack holds no element and otherwise
    removes and returns the last element pushed; so a [pop] right after a
    successful [push v] returns [v] and restores the elements. *)
Theorem C4_stack_contract (s : Stack.t) (v : Z) :
  Stack.wf s ->
  push_contract s v /\ pop_contract s /\
  (forall s', Stack.push s v = Ok (s', None) ->
     exists s'', Stack.pop s' = Ok (s'', (Some v, None)) /\
                 Stack.elems s'' = Stack.elems s).
Proof.
  intros Hwf. pose proof (Stack_elems_length s Hwf) as Hlen.
  assert (Hwf' := Hwf). destruct Hwf' as [Hp Hl].
  split; [|split].
  - unfold push_contract.
    destruct (Z.eq_dec (Stack.ptr s) STACK_SIZE) as [Hfull|Hnot].
    + exists s, (Some OverFlow). unfold Stack.push.
      destruct (Z.geb_spec (Stack.ptr s) STACK_SIZE); [|lia].
      unfold STACK_SIZE in *. repeat split; try congruence; lia.
    + eexists _, None. rewrite Stack_push_ok by (assumption || lia).
      split; [reflexivity|]. unfold STACK_SIZE in *.
      split; [split; [discriminate | lia]|]. split; [discriminate|].
      intros _. pose proof (Stack_push_elems s v Hwf) as He.
      rewrite He by (unfold STACK_SIZE; lia).
      repeat split; try (apply Stack_push_wf; unfold STACK_SIZE; assumption || lia).
      rewrite length_app. simpl. lia.
  - unfold pop_contract.
    destruct (Z.eq_dec (Stack.ptr s) 0) as [Hz|Hnz].
    + exists s, None, (Some UnderFlow). unfold Stack.pop. rewrite Hz. simpl.
      repeat split; try congruence; lia.
    + destruct (snoc_cases (Stack.elems s)) as [He|(ys & y & He)].
      { rewrite He in Hlen. simpl in Hlen. lia. }
      destruct (Stack_pop_ok s y ys Hwf He) as (Hpop & Hel & Hw).
      eexists _, (Some y), None. rewrite Hpop. split; [reflexivity|].
      split; [split; [discriminate | rewrite He, length_app; simpl; lia]|].
      split; [discriminate|]. intros _. split; [reflexivity|].
      exists y. rewrite Hel. auto.
  - intros s' Hpush. unfold Stack.push in Hpush.
    destruct (Z.geb_spec (Stack.ptr s) STACK_SIZE); [discriminate|].
    rewrite setitem_nonneg in Hpush by lia. simpl in Hpush.
    injection Hpush as <-.
    pose proof (Stack_push_elems s v Hwf ltac:(lia)) as He.
    pose proof (Stack_push_wf s v Hwf ltac:(lia)) as Hw.
    destruct (Stack_pop_ok _ v (Stack.elems s) Hw He) as (Hpop & Hel & _).
    eexists. split; [exact Hpop | exact Hel].
Qed.

(** C4 at the empty stack. *)
Lemma C4_stack_contract_witness :
  Stack.wf Stack.init /\
  push_contract Stack.init 7 /\ pop_contract Stack.init /\
  (forall s', Stack.push Stack.init 7 = Ok (s', None) ->
     exists s'', Stack.pop s' = Ok (s'', (Some 7, None)) /\
                 Stack.elems s'' = Stack.elems Stack.init).
Proof.
  split; [split; [unfold STACK_SIZE; simpl; lia | reflexivity]|].
  apply (C4_stack_contract Stack.init 7).
  split; [unfold STACK_SIZE; simpl; lia | reflexivity].
Defined.

(** ** Bracket matching *)

Lemma find_close_app (l l' : list Op) (d pos j : nat) :
  find_close l d pos = Some j -> find_close (l ++ l') d pos = Some j.
Proof.
  revert d pos. induction l as [|o l IH]; intros d pos; simpl; [discriminate|].
  destruct o; try apply IH. destruct d; [trivial | apply IH].
Qed.

Lemma find_close_balanced (b : list Op) :
  balanced b ->
  forall rest d pos,
    find_close (b ++ rest) d pos = find_close rest d (pos + length b).
Proof.
  induction 1 as [|l o Hl IHl Hf Hb|l b Hl IHl Hb IHb]; intros rest d pos.
  - simpl. f_equal. lia.
  - rewrite <- app_assoc, IHl, length_app. simpl.
    destruct o; try congruence; f_equal; lia.
  - rewrite <- app_assoc, IHl. simpl. rewrite <- app_assoc, IHb. simpl.
    rewrite !length_app. simpl. rewrite length_app. simpl. f_equal. lia.
Qed.

Lemma find_close_bounds (l : list Op) (d pos j : nat) :
  find_close l d pos = Some j -> (pos <= j < pos + length l)%nat.
Proof.
  revert d pos. induction l as [|o l IH]; intros d pos; simpl; [discriminate|].
  destruct o; try (intros H; apply IH in H; lia).
  destruct d; [intros [= <-]; lia | intros H; apply IH in H; lia].
Qed.

Lemma matching_close_app (ops ops' : list Op) (i j : nat) :
  matching_close ops i = Some j -> matching_close (ops ++ ops') i = Some j.
Proof.
  unfold matching_close. intros H. rewrite drop_app.
  now apply find_close_app.
Qed.

Lemma matching_close_bounds (ops : list Op) (i j : nat) :
  matching_close ops i = Some j -> (i < j < length ops)%nat.
Proof.
  unfold matching_close. intros H. apply find_close_bounds in H.
  rewrite length_drop in H. lia.
Qed.

Lemma matching_close_loop (ops0 b rest : list Op) :
  balanced b ->
  matching_close (ops0 ++ OpJmpFwd :: b ++ OpJmpBck :: rest) (length ops0)
  = Some (length ops0 + S (length b))%nat.
Proof.
  intros Hb. unfold matching_close.
  replace (drop (S (length ops0)) (ops0 ++ OpJmpFwd :: b ++ OpJmpBck :: rest))
    with (b ++ OpJmpBck :: rest).
  - rewrite find_close_balanced by assumption. simpl. f_equal. lia.
  - change (OpJmpFwd :: b ++ OpJmpBck :: rest)
      with ([OpJmpFwd] ++ (b ++ OpJmpBck :: rest)).
    rewrite app_assoc. symmetry. apply drop_app_length'.
    rewrite length_app. simpl. lia.
Qed.

Lemma chain_snoc (ops : list Op) (st : list Z) (o : Op) :
  open_chain ops st -> o <> OpJmpFwd -> o <> OpJmpBck ->
  open_chain (ops ++ [o]) st.
Proof.
  intros H Hf Hb. destruct H as [b Hbal|ops st b Hc Hbal].
  - apply chain_closed. now apply balanced_snoc.
  - rewrite <- app_assoc. simpl.
    change (OpJmpFwd :: b ++ [o]) with (OpJmpFwd :: (b ++ [o])).
    apply chain_open; [assumption|]. now apply balanced_snoc.
Qed.

Lemma chain_loop (ops : list Op) (st : list Z) (b : list Op) :
  open_chain ops st -> balanced b ->
  open_chain (ops ++ OpJmpFwd :: b ++ [OpJmpBck]) st.
Proof.
  intros H Hb. destruct H as [b0 Hbal|ops st b0 Hc Hbal].
  - apply chain_closed. now apply balanced_loop.
  - rewrite <- app_assoc. simpl.
    change (OpJmpFwd :: b0 ++ OpJmpFwd :: b ++ [OpJmpBck])
      with (OpJmpFwd :: (b0 ++ OpJmpFwd :: b ++ [OpJmpBck])).
    apply chain_open; [assumption|]. now apply balanced_loop.
Qed.

Lemma chain_top (ops : list Op) (st : list Z) (x : Z) :
  open_chain ops (st ++ [x]) ->
  exists ops0 b,
    ops = ops0 ++ OpJmpFwd :: b /\ x = Z.of_nat (length ops0) /\
    open_chain ops0 st /\ balanced b.
Proof.
  intros H. remember (st ++ [x]) as st' eqn:E.
  destruct H as [b Hb|ops0 st0 b Hc Hb].
  - destruct st; discriminate.
  - apply app_inj_tail in E as [-> <-]. eauto 10.
Qed.

Lemma chain_bound (ops : list Op) (st : list Z) :
  open_chain ops st -> forall x, x ∈ st -> 0 <= x < Z.of_nat (length ops).
Proof.
  induction 1 as [b Hb|ops st b Hc IH Hb]; intros x Hx.
  - inversion Hx.
  - rewrite length_app. simpl. apply elem_of_app in Hx as [Hx|Hx].
    + apply IH in Hx. lia.
    + apply list_elem_of_singleton in Hx. lia.
Qed.

Lemma linked_mono (ops ops' : list Op) (l l' : list Instruction) (i j : nat) :
  linked ops l i j -> l' !! i = l !! i -> l' !! j = l !! j ->
  linked (ops ++ ops') l' i j.
Proof.
  intros (Hi & Hj & Hm) Ei Ej. repeat split.
  - now rewrite Ei.
  - now rewrite Ej.
  - now apply matching_close_app.
Qed.

(** ** One step of the compiler *)

Lemma assign_operator_ok (l : list Instruction) (n : nat) (x : Instruction) (o : Op) :
  l !! n = Some x ->
  assign_operator l (Z.of_nat n) o = Ok (<[n := set_operator x o]> l).
Proof.
  intros Hx. unfold assign_operator.
  rewrite (getitem_nonneg l _ x) by (lia || now rewrite Nat2Z.id). simpl.
  apply lookup_lt_Some in Hx.
  rewrite setitem_nonneg by lia. now rewrite Nat2Z.id.
Qed.

Lemma assign_operand_ok (l : list Instruction) (n : nat) (x : Instruction) (v : Z) :
  l !! n = Some x ->
  assign_operand l (Z.of_nat n) v = Ok (<[n := set_operand x v]> l).
Proof.
  intros Hx. unfold assign_operand.
  rewrite (getitem_nonneg l _ x) by (lia || now rewrite Nat2Z.id). simpl.
  apply lookup_lt_Some in Hx.
  rewrite setitem_nonneg by lia. now rewrite Nat2Z.id.
Qed.

Lemma is_full_spec (s : Stack.t) : Stack.is_full s = (Stack.ptr s =? STACK_SIZE).
Proof.
  unfold Stack.is_full, STACK_SIZE.
  destruct (Z.eqb_spec (Stack.ptr s) 512) as [->|Hne]; [reflexivity|].
  destruct (Stack.ptr s) as [|q|q]; try reflexivity.
  do 10 (destruct q as [q|q|]; try reflexivity). congruence.
Qed.

Lemma is_empty_spec (s : Stack.t) : Stack.is_empty s = (Stack.ptr s =? 0).
Proof. unfold Stack.is_empty. now destruct (Stack.ptr s). Qed.

Lemma op_of_char_cases (c : char) (pc : Z) (p : Program.t) :
  Program.compile_char c pc p =
  match op_of_char c with
  | None => Ok (Program.Scanned (pc - 1 + 1) p)
  | Some OpJmpFwd => Program.case_open p pc
  | Some OpJmpBck => Program.case_close p pc
  | Some o => Program.emit p pc o
  end.
Proof.
  unfold Program.compile_char, op_of_char.
  repeat match goal with
         | |- context [(c =? ?k)%N] => destruct (c =? k)%N; [reflexivity|]
         end.
  reflexivity.
Qed.

Lemma op_of_char_emits (c : char) (o : Op) :
  op_of_char c = Some o -> o <> Unknown /\ o <> OpEnd.
Proof.
  unfold op_of_char.
  repeat match goal with
         | |- context [(c =? ?k)%N] =>
             destruct (c =? k)%N; [intros [= <-]; split; discriminate|]
         end.
  discriminate.
Qed.

Lemma lookup_snoc_inv {A} (l : list A) (x y : A) (i : nat) :
  (l ++ [x]) !! i = Some y ->
  l !! i = Some y \/ (i = length l /\ y = x).
Proof.
  intros H. apply lookup_app_Some in H as [H|[Hge H]]; [now left|right].
  destruct (i - length l)%nat eqn:E; simpl in H; [|now destruct n].
  split; [lia | congruence].
Qed.

Lemma layout_write (ops : list Op) (l : list Instruction) (o : Op) (v : Z) :
  layout ops l -> Z.of_nat (length ops) < PROGRAM_SIZE -> o <> Unknown ->
  layout (ops ++ [o]) (<[length ops := mkInstruction o v]> l).
Proof.
  intros [Hcap Hsize Hops Hrest Hcmd] Hroom Hu. constructor.
  - rewrite length_app. simpl. lia.
  - now rewrite length_insert.
  - intros k o' Hk. apply lookup_snoc_inv in Hk as [Hk|[-> ->]].
    + apply lookup_lt_Some in Hk as Hlt.
      rewrite list_lookup_insert_ne by lia. now apply Hops.
    + rewrite list_lookup_insert_eq by lia. eauto.
  - intros k Hk. rewrite length_app in Hk. simpl in Hk.
    rewrite list_lookup_insert_ne by lia. apply Hrest. lia.
  - apply Forall_app. split; [assumption|]. now constructor.
Qed.

Lemma layout_operand (ops : list Op) (l : list Instruction)
      (i : nat) (x : Instruction) (v : Z) :
  layout ops l -> (i < length ops)%nat -> l !! i = Some x ->
  layout ops (<[i := set_operand x v]> l).
Proof.
  intros [Hcap Hsize Hops Hrest Hcmd] Hi Hx. constructor; try assumption.
  - now rewrite length_insert.
  - intros k o Hk. destruct (Nat.eq_dec k i) as [->|Hne].
    + apply lookup_lt_Some in Hx as Hlt.
      rewrite list_lookup_insert_eq by assumption.
      destruct (Hops _ _ Hk) as [m Hm]. rewrite Hm in Hx. injection Hx as <-.
      unfold set_operand. simpl. eauto.
    + rewrite list_lookup_insert_ne by congruence. now apply Hops.
  - intros k Hk. rewrite list_lookup_insert_ne by lia. now apply Hrest.
Qed.

Section Step.
Variables (ops : list Op) (p : Program.t).
Hypothesis Hinv : compiled_prefix ops p.
Hypothesis Hroom : Z.of_nat (length ops) < PROGRAM_SIZE.

Lemma step_fresh_slot :
  Program.instructions p !! length ops = Some (mkInstruction Unknown 0).
Proof. apply (lay_rest _ _ (cp_layout _ _ Hinv)). lia. Qed.

(** Links that exist stay when an operator is appended at the cursor. *)
Lemma step_linked_kept (o : Op) (x : Instruction) (i j : nat) :
  linked ops (Program.instructions p) i j ->
  linked (ops ++ [o]) (<[length ops := x]> (Program.instructions p)) i j.
Proof.
  intros Hl. pose proof (matching_close_bounds _ _ _ (proj2 (proj2 Hl))).
  apply (linked_mono _ _ _ _ _ _ Hl); apply list_lookup_insert_ne; lia.
Qed.

(** A case that only writes its operator. *)
Lemma emit_step (o : Op) :
  o <> Unknown -> o <> OpJmpFwd -> o <> OpJmpBck ->
  exists p',
    Program.emit p (Z.of_nat (length ops)) o
      = Ok (Program.Scanned (Z.of_nat (length ops) + 1) p') /\
    compiled_prefix (ops ++ [o]) p' /\
    Program.stack p' = Program.stack p /\
    Program.print_buffer p' = Program.print_buffer p.
Proof.
  intros Hu Hf Hb. pose proof step_fresh_slot as Hslot.
  eexists. unfold Program.emit.
  rewrite (assign_operator_ok _ _ _ o Hslot). simpl.
  split; [reflexivity|]. split; [|split; reflexivity].
  destruct Hinv as [Hlay Hwf Hchain Hfwd Hbck].
  constructor; simpl.
  - now apply layout_write.
  - assumption.
  - now apply chain_snoc.
  - intros i Hi. apply lookup_snoc_inv in Hi as [Hi|[_ Hi]]; [|congruence].
    destruct (Hfwd i Hi) as [Hin|[j Hl]]; [now left|right].
    exists j. now apply step_linked_kept.
  - intros j Hj. apply lookup_snoc_inv in Hj as [Hj|[_ Hj]]; [|congruence].
    destruct (Hbck j Hj) as (i & Hin & Hl). exists i. split; [assumption|].
    now apply step_linked_kept.
Qed.

(** [case "["]: the stack is full and [compile] returns, or the position is
    pushed. *)
Lemma open_step :
  (Stack.ptr (Program.stack p) = STACK_SIZE /\
   exists p', Program.case_open p (Z.of_nat (length ops))
              = Ok (Program.Exited Program.StackFull p')) \/
  (Stack.ptr (Program.stack p) < STACK_SIZE /\
   exists p',
     Program.case_open p (Z.of_nat (length ops))
       = Ok (Program.Scanned (Z.of_nat (length ops) + 1) p') /\
     compiled_prefix (ops ++ [OpJmpFwd]) p' /\
     Stack.ptr (Program.stack p') = Stack.ptr (Program.stack p) + 1 /\
     Program.print_buffer p' = Program.print_buffer p).
Proof.
  pose proof step_fresh_slot as Hslot.
  destruct Hinv as [Hlay Hwf Hchain Hfwd Hbck].
  unfold Program.case_open.
  rewrite (assign_operator_ok _ _ _ OpJmpFwd Hslot). simpl.
  rewrite is_full_spec.
  destruct (Z.eqb_spec (Stack.ptr (Program.stack p)) STACK_SIZE) as [Hfull|Hnot].
  { left. eauto. }
  right. assert (Hlt : Stack.ptr (Program.stack p) < STACK_SIZE).
  { destruct Hwf as [Hp _]. lia. }
  split; [assumption|].
  rewrite Stack_push_ok by assumption. simpl.
  eexists. split; [reflexivity|]. split; [|split; reflexivity].
  constructor; simpl.
  - now apply layout_write.
  - now apply Stack_push_wf.
  - rewrite Stack_push_elems by assumption.
    apply (chain_open _ _ [] Hchain balanced_nil).
  - rewrite Stack_push_elems by assumption.
    intros i Hi. apply lookup_snoc_inv in Hi as [Hi|[-> _]].
    + destruct (Hfwd i Hi) as [Hin|[j Hl]].
      * left. apply elem_of_app. now left.
      * right. exists j. now apply step_linked_kept.
    + left. apply elem_of_app. right. now apply list_elem_of_singleton.
  - rewrite Stack_push_elems by assumption.
    intros j Hj. apply lookup_snoc_inv in Hj as [Hj|[_ Hj]]; [|congruence].
    destruct (Hbck j Hj) as (i & Hin & Hl). exists i. split.
    + pose proof (matching_close_bounds _ _ _ (proj2 (proj2 Hl))).
      intros Hi. apply elem_of_app in Hi as [Hi|Hi]; [contradiction|].
      apply list_elem_of_singleton in Hi. lia.
    + now apply step_linked_kept.
Qed.

(** [case "]"]: the stack is empty and [compile] returns, or the pair is
    linked. *)
Lemma close_step :
  (Stack.ptr (Program.stack p) = 0 /\
   Program.case_close p (Z.of_nat (length ops))
   = Ok (Program.Exited Program.UnmatchedClose p)) \/
  (0 < Stack.ptr (Program.stack p) /\
   exists p',
     Program.case_close p (Z.of_nat (length ops))
       = Ok (Program.Scanned (Z.of_nat (length ops) + 1) p') /\
     compiled_prefix (ops ++ [OpJmpBck]) p' /\
     Stack.ptr (Program.stack p') = Stack.ptr (Program.stack p) - 1 /\
     Program.print_buffer p' = Program.print_buffer p).
Proof.
  pose proof step_fresh_slot as Hslot.
  destruct Hinv as [Hlay Hwf Hchain Hfwd Hbck].
  unfold Program.case_close. rewrite is_empty_spec.
  destruct (Z.eqb_spec (Stack.ptr (Program.stack p)) 0) as [Hz|Hnz].
  { left. auto. }
  right. pose proof (Stack_elems_length _ Hwf) as Hlen.
  assert (Hpos : 0 < Stack.ptr (Program.stack p)) by (destruct Hwf; lia).
  split; [assumption|].
  destruct (snoc_cases (Stack.elems (Program.stack p))) as [He|(st0 & x & He)].
  { rewrite He in Hlen. simpl in Hlen. lia. }
  destruct (Stack_pop_ok _ x st0 Hwf He) as (Hpop & Hel & Hw).
  rewrite Hpop. simpl.
  rewrite He in Hchain, Hfwd, Hbck.
  destruct (chain_top _ _ _ Hchain) as (ops0 & b & Hops & Hx & Hc0 & Hb).
  assert (Hn : length ops = (length ops0 + S (length b))%nat).
  { rewrite Hops, length_app. reflexivity. }
  assert (Hop0 : ops !! length ops0 = Some OpJmpFwd).
  { rewrite Hops. now apply list_lookup_middle. }
  destruct (lay_ops _ _ Hlay _ _ Hop0) as [m Hm].
  apply lookup_lt_Some in Hslot as Hlt.
  set (l := Program.instructions p) in *.
  set (l2 := <[length ops := mkInstruction OpJmpBck x]> l).
  set (l3 := <[length ops0 := mkInstruction OpJmpFwd (Z.of_nat (length ops))]> l2).
  assert (Hl2 : l2 !! length ops0 = Some (mkInstruction OpJmpFwd m)).
  { unfold l2. rewrite list_lookup_insert_ne by lia. exact Hm. }
  rewrite (assign_operator_ok _ _ _ OpJmpBck Hslot). simpl.
  rewrite (assign_operand_ok _ (length ops)
             (set_operator (mkInstruction Unknown 0) OpJmpBck) x)
    by (apply list_lookup_insert_eq; assumption).
  simpl. rewrite list_insert_insert_eq.
  unfold set_operator, set_operand. simpl. fold l2.
  rewrite Hx, (assign_operand_ok _ (length ops0) (mkInstruction OpJmpFwd m)) by exact Hl2.
  simpl. unfold set_operand. simpl. fold l3.
  eexists. split; [reflexivity|]. split; [|split; reflexivity].
  assert (L3_open : l3 !! length ops0
                    = Some (mkInstruction OpJmpFwd (Z.of_nat (length ops)))).
  { unfold l3. apply list_lookup_insert_eq. unfold l2. rewrite length_insert. lia. }
  assert (L3_close : l3 !! length ops = Some (mkInstruction OpJmpBck x)).
  { unfold l3. rewrite list_lookup_insert_ne by lia.
    unfold l2. now apply list_lookup_insert_eq. }
  assert (L3_other : forall k, k <> length ops0 -> k <> length ops -> l3 !! k = l !! k).
  { intros k H1 H2. unfold l3, l2. now rewrite !list_lookup_insert_ne by congruence. }
  assert (Hnew : linked (ops ++ [OpJmpBck]) l3 (length ops0) (length ops)).
  { split; [exact L3_open|]. split; [now rewrite <- Hx|].
    rewrite Hn, Hops, <- app_assoc. simpl. now apply matching_close_loop. }
  assert (Hkept : forall i j, linked ops l i j -> i <> length ops0 ->
                              linked (ops ++ [OpJmpBck]) l3 i j).
  { intros i j Hl Hi.
    pose proof (matching_close_bounds _ _ _ (proj2 (proj2 Hl))).
    apply (linked_mono _ _ _ _ _ _ Hl); apply L3_other; try lia.
    intros ->. destruct Hl as (_ & Hj & _). fold l in Hm. congruence. }
  constructor; simpl.
  - replace l3 with (<[length ops0 := set_operand (mkInstruction OpJmpFwd m)
                                         (Z.of_nat (length ops))]> l2) by reflexivity.
    apply layout_operand; [|rewrite length_app; lia|exact Hl2].
    now apply layout_write.
  - assumption.
  - rewrite Hel, Hops, <- app_assoc. simpl. now apply chain_loop.
  - rewrite Hel. intros i Hi. apply lookup_snoc_inv in Hi as [Hi|[_ Hi]]; [|congruence].
    destruct (Nat.eq_dec i (length ops0)) as [->|Hne]; [right; eauto|].
    destruct (Hfwd i Hi) as [Hin|[j Hl]].
    + left. apply elem_of_app in Hin as [Hin|Hin]; [assumption|].
      apply list_elem_of_singleton in Hin. lia.
    + right. exists j. now apply Hkept.
  - rewrite Hel. intros j Hj. apply lookup_snoc_inv in Hj as [Hj|[-> _]].
    + destruct (Hbck j Hj) as (i & Hin & Hl). exists i.
      assert (Hi0 : i <> length ops0).
      { intros ->. apply Hin, elem_of_app. right.
        apply list_elem_of_singleton. now rewrite Hx. }
      split; [|now apply Hkept].
      intros Hi. apply Hin, elem_of_app. now left.
    + exists (length ops0). split; [|exact Hnew].
      intros Hi. apply (chain_bound _ _ Hc0) in Hi. lia.
Qed.

End Step.

(** ** The scan as a whole *)

Lemma init_compiled_prefix : compiled_prefix [] Program.init.
Proof.
  constructor.
  - constructor.
    + unfold PROGRAM_SIZE. simpl. lia.
    + unfold Program.init, Program.instructions. rewrite length_replicate.
      unfold PROGRAM_SIZE. lia.
    + intros k o Hk. now rewrite lookup_nil in Hk.
    + intros k Hk. unfold Program.init, Program.instructions.
      apply lookup_replicate_2. unfold PROGRAM_SIZE in *. lia.
    + constructor.
  - exact Stack_init_wf.
  - apply chain_closed, balanced_nil.
  - intros i Hi. now rewrite lookup_nil in Hi.
  - intros j Hj. now rewrite lookup_nil in Hj.
Qed.

Lemma commands_cons (c : char) (cs : pystr) :
  commands (c :: cs) =
  match op_of_char c with
  | Some o => o :: commands cs
  | None => commands cs
  end.
Proof. reflexivity. Qed.

(** The scan of [compile] follows [abstract_scan], keeps
    [compiled_prefix], and raises nothing. *)
Lemma compile_loop_scan (cs : pystr) :
  forall ops p,
    compiled_prefix ops p ->
    match abstract_scan cs (Z.of_nat (length ops)) (Stack.ptr (Program.stack p)) with
    | Through n d =>
        exists ops' p',
          Program.compile_loop cs (Z.of_nat (length ops)) p
            = Ok (Program.Scanned n p') /\
          compiled_prefix ops' p' /\
          n = Z.of_nat (length ops') /\
          d = Stack.ptr (Program.stack p') /\
          Program.print_buffer p' = Program.print_buffer p /\
          ops' = take (Z.to_nat PROGRAM_SIZE) (ops ++ commands cs)
    | Overflow =>
        exists p',
          Program.compile_loop cs (Z.of_nat (length ops)) p
            = Ok (Program.Exited Program.StackFull p')
    | Underflow =>
        exists p',
          Program.compile_loop cs (Z.of_nat (length ops)) p
            = Ok (Program.Exited Program.UnmatchedClose p')
    end.
Proof.
  induction cs as [|c cs IH]; intros ops p Hinv.
  - simpl. exists ops, p. do 5 (split; [reflexivity || exact Hinv|]).
    rewrite app_nil_r, take_ge; [reflexivity|].
    pose proof (lay_capacity _ _ (cp_layout _ _ Hinv)). lia.
  - cbn [abstract_scan Program.compile_loop].
    pose proof (lay_capacity _ _ (cp_layout _ _ Hinv)) as Hcap.
    destruct (Z.ltb_spec (Z.of_nat (length ops)) PROGRAM_SIZE) as [Hroom|Hfull];
      cbn [negb].
    2:{ exists ops, p. do 5 (split; [reflexivity || exact Hinv|]).
        rewrite take_app_length'; [reflexivity|lia]. }
    rewrite op_of_char_cases, commands_cons.
    destruct (op_of_char c) as [o|] eqn:Ec.
    2:{ replace (Z.of_nat (length ops) - 1 + 1) with (Z.of_nat (length ops)) by lia.
        simpl. apply IH, Hinv. }
    assert (Hlen : forall o', Z.of_nat (length (ops ++ [o'])) = Z.of_nat (length ops) + 1).
    { intros o'. rewrite length_app. simpl. lia. }
    assert (Happ : forall o', (ops ++ [o']) ++ commands cs = ops ++ o' :: commands cs).
    { intros o'. now rewrite <- app_assoc. }
    destruct (op_of_char_emits _ _ Ec) as [Hu He].
    destruct o; try congruence;
      try (destruct (emit_step ops p Hinv Hroom _ Hu ltac:(discriminate) ltac:(discriminate))
             as (p' & -> & Hinv' & Hst & Hpb);
           simpl; specialize (IH _ _ Hinv');
           rewrite Hlen, Hst, Happ, Hpb in IH; exact IH).
    + destruct (open_step ops p Hinv Hroom)
        as [[Hfull (p' & ->)]|[Hlt (p' & -> & Hinv' & Hst & Hpb)]].
      * rewrite (proj2 (Z.eqb_eq _ _) Hfull). simpl. eauto.
      * destruct (Z.eqb_spec (Stack.ptr (Program.stack p)) STACK_SIZE); [lia|].
        simpl. specialize (IH _ _ Hinv').
        rewrite Hlen, Hst, Happ, Hpb in IH. exact IH.
    + destruct (close_step ops p Hinv Hroom)
        as [[Hz ->]|[Hlt (p' & -> & Hinv' & Hst & Hpb)]].
      * rewrite (proj2 (Z.eqb_eq _ _) Hz). simpl. eauto.
      * destruct (Z.eqb_spec (Stack.ptr (Program.stack p)) 0); [lia|].
        simpl. specialize (IH _ _ Hinv').
        rewrite Hlen, Hst, Happ, Hpb in IH. exact IH.
Qed.

(** ** Comment characters and [strip] *)

Lemma op_of_char_space (c : char) : is_space c = true -> op_of_char c = None.
Proof.
  unfold op_of_char.
  repeat match goal with
         | |- context [(c =? ?k)%N] =>
             destruct (N.eqb_spec c k) as [->|?]; [discriminate|]
         end.
  reflexivity.
Qed.

Lemma compile_loop_full (cs : pystr) (pc : Z) (p : Program.t) :
  PROGRAM_SIZE <= pc -> Program.compile_loop cs pc p = Ok (Program.Scanned pc p).
Proof.
  intros H. destruct cs; simpl; [reflexivity|].
  destruct (Z.ltb_spec pc PROGRAM_SIZE); [lia | reflexivity].
Qed.

Lemma compile_loop_skip (ws : pystr) (pc : Z) (p : Program.t) :
  Forall (fun c => op_of_char c = None) ws ->
  Program.compile_loop ws pc p = Ok (Program.Scanned pc p).
Proof.
  induction 1 as [|c ws Hc _ IH]; simpl; [reflexivity|].
  destruct (Z.ltb_spec pc PROGRAM_SIZE); simpl; [|reflexivity].
  rewrite op_of_char_cases, Hc. simpl.
  now replace (pc - 1 + 1) with pc by lia.
Qed.

Lemma compile_loop_app (a b : pystr) (pc : Z) (p : Program.t) :
  Program.compile_loop (a ++ b) pc p =
  let* r := Program.compile_loop a pc p in
  match r with
  | Program.Scanned pc' p' => Program.compile_loop b pc' p'
  | Program.Exited e p' => Ok (Program.Exited e p')
  end.
Proof.
  revert pc p. induction a as [|c a IH]; intros pc p; [reflexivity|].
  simpl. destruct (Z.ltb_spec pc PROGRAM_SIZE); simpl.
  - destruct (Program.compile_char c pc p) as [[pc' p'|e p']|e]; simpl;
      [apply IH | reflexivity | reflexivity].
  - destruct b; simpl; [reflexivity|].
    destruct (Z.ltb_spec pc PROGRAM_SIZE); [lia | reflexivity].
Qed.

Lemma lstrip_split (s : pystr) :
  exists ws, Forall (fun c => is_space c = true) ws /\ s = ws ++ lstrip s.
Proof.
  induction s as [|c s (ws & Hws & Hs)]; simpl.
  - exists []. split; [constructor | reflexivity].
  - destruct (is_space c) eqn:Ec.
    + exists (c :: ws). split; [now constructor|]. simpl. now f_equal.
    + exists []. split; [constructor | reflexivity].
Qed.

(** [strip] removes a run of whitespace at each end. *)
Lemma strip_split (s : pystr) :
  exists ws1 ws2,
    Forall (fun c => is_space c = true) ws1 /\
    Forall (fun c => is_space c = true) ws2 /\
    s = ws1 ++ strip s ++ ws2.
Proof.
  destruct (lstrip_split s) as (ws1 & H1 & E1).
  destruct (lstrip_split (rev (lstrip s))) as (ws2 & H2 & E2).
  exists ws1, (rev ws2). split; [assumption|]. split.
  - apply Forall_forall. intros c Hc. apply list_elem_of_In, in_rev in Hc.
    rewrite Forall_forall in H2. now apply H2, list_elem_of_In.
  - unfold strip. rewrite <- rev_app_distr, <- E2, rev_involutive. exact E1.
Qed.

(** The characters that [strip] removes are comments: scanning the raw text
    gives the same. *)
Lemma compile_loop_strip (s : pystr) (pc : Z) (p : Program.t) :
  Program.compile_loop (strip s) pc p = Program.compile_loop s pc p.
Proof.
  destruct (strip_split s) as (ws1 & ws2 & H1 & H2 & E).
  assert (Hskip : forall ws, Forall (fun c => is_space c = true) ws ->
                             Forall (fun c => op_of_char c = None) ws).
  { intros ws Hws. eapply Forall_impl; [exact Hws | exact op_of_char_space]. }
  rewrite E at 2. rewrite compile_loop_app, (compile_loop_skip ws1) by auto.
  simpl. rewrite compile_loop_app.
  destruct (Program.compile_loop (strip s) pc p) as [[pc' p'|e p']|e]; simpl;
    try reflexivity.
  now rewrite (compile_loop_skip ws2) by auto.
Qed.

(** ** The abstract scan *)

Lemma depth_after_cons (c : char) (cs : pystr) :
  depth_after (c :: cs) =
  match op_of_char c with
  | Some OpJmpFwd => 1
  | Some OpJmpBck => -1
  | _ => 0
  end + depth_after cs.
Proof.
  cbn [depth_after]. unfold op_of_char.
  repeat match goal with
         | |- context [(c =? ?k)%N] =>
             destruct (N.eqb_spec c k) as [->|?]; [reflexivity|]
         end.
  reflexivity.
Qed.

Lemma depth_after_no_commands (cs : pystr) :
  commands cs = [] -> depth_after cs = 0.
Proof.
  induction cs as [|c cs IH]; [reflexivity|].
  rewrite commands_cons, depth_after_cons.
  destruct (op_of_char c); [discriminate|]. intros H. rewrite IH by assumption. lia.
Qed.

(** At least 4096 commands: the scan ends in an error or with the cursor at
    the capacity. *)
Lemma abstract_scan_capacity (cs : pystr) :
  forall n d,
    n <= PROGRAM_SIZE ->
    PROGRAM_SIZE <= n + Z.of_nat (length (commands cs)) ->
    match abstract_scan cs n d with
    | Through n' _ => n' = PROGRAM_SIZE
    | _ => True
    end.
Proof.
  induction cs as [|c cs IH]; intros n d Hn Hlen.
  - simpl in *. lia.
  - cbn [abstract_scan]. rewrite commands_cons in Hlen.
    destruct (Z.ltb_spec n PROGRAM_SIZE); cbn [negb]; [|lia].
    destruct (op_of_char c) as [o|]; [|now apply IH].
    simpl in Hlen.
    destruct o; try (apply IH; lia).
    + destruct (d =? STACK_SIZE); [trivial | apply IH; lia].
    + destruct (d =? 0); [trivial | apply IH; lia].
Qed.

(** No prefix nests deeper than the stack or closes more than it opens, and
    the commands fit: the scan reads the whole text. *)
Lemma abstract_scan_nesting (cs : pystr) :
  forall n d,
    (forall k : nat, 0 <= d + depth_after (take k cs) <= STACK_SIZE) ->
    n + Z.of_nat (length (commands cs)) <= PROGRAM_SIZE ->
    abstract_scan cs n d
    = Through (n + Z.of_nat (length (commands cs))) (d + depth_after cs).
Proof.
  induction cs as [|c cs IH]; intros n d Hnest Hlen.
  - simpl. f_equal; lia.
  - cbn [abstract_scan].
    destruct (Z.ltb_spec n PROGRAM_SIZE); cbn [negb].
    2:{ assert (Hc : commands (c :: cs) = []).
        { destruct (commands (c :: cs)); [reflexivity | simpl in Hlen; lia]. }
        rewrite Hc, (depth_after_no_commands _ Hc). simpl. f_equal; lia. }
    pose proof (Hnest 1%nat) as H1. cbn [take] in H1.
    rewrite take_0, depth_after_cons in H1. cbn [depth_after] in H1.
    assert (Hk : forall k : nat,
               0 <= d + depth_after [c] + depth_after (take k cs) <= STACK_SIZE).
    { intros k. specialize (Hnest (S k)). cbn [take] in Hnest.
      rewrite depth_after_cons in Hnest. rewrite depth_after_cons.
      cbn [depth_after]. lia. }
    rewrite depth_after_cons in Hk. cbn [depth_after] in Hk.
    rewrite commands_cons in *. rewrite depth_after_cons.
    destruct (op_of_char c) as [o|].
    2:{ rewrite IH; [f_equal; lia | intros k; specialize (Hk k); lia | lia]. }
    simpl in Hlen.
    destruct o;
      try (rewrite IH;
           [f_equal; simpl; lia | intros k; specialize (Hk k); lia | lia]).
    + destruct (Z.eqb_spec d STACK_SIZE); [lia|].
      rewrite IH; [f_equal; simpl; lia | intros k; specialize (Hk k); lia | lia].
    + destruct (Z.eqb_spec d 0); [lia|].
      rewrite IH; [f_equal; simpl; lia | intros k; specialize (Hk k); lia | lia].
Qed.

Lemma nesting_check_sound (lo hi : Z) (cs : pystr) :
  forall d, nesting_check lo hi d cs = true ->
            forall k : nat, lo <= d + depth_after (take k cs) <= hi.
Proof.
  induction cs as [|c cs IH]; intros d H k; cbn [nesting_check] in H;
    apply andb_prop in H as [Hd H]; apply andb_prop in Hd as [H1 H2];
    apply Z.leb_le in H1, H2.
  - rewrite take_nil. simpl. lia.
  - destruct k as [|k]; [simpl; lia|]. cbn [take depth_after].
    specialize (IH _ H k). lia.
Qed.

Lemma nesting_check_within (lo hi : Z) (cs : pystr) :
  nesting_check lo hi 0 cs = true -> nesting_within lo hi cs.
Proof. intros H k. apply (nesting_check_sound _ _ _ _ H k). Qed.

(** ** [compile] on a fresh object *)

Lemma init_stack_ptr : Stack.ptr (Program.stack Program.init) = 0.
Proof. reflexivity. Qed.

(** [compile] follows the abstract scan of the raw text. *)
Lemma compile_follows_scan (src : pystr) :
  match abstract_scan src 0 0 with
  | Through n d =>
      exists ops p,
        Program.compile_loop src 0 Program.init = Ok (Program.Scanned n p) /\
        compiled_prefix ops p /\
        n = Z.of_nat (length ops) /\
        d = Stack.ptr (Program.stack p) /\
        Program.print_buffer p = [] /\
        ops = take (Z.to_nat PROGRAM_SIZE) (commands src) /\
        Program.compile Program.init src =
          if negb (d =? 0) || (n =? PROGRAM_SIZE)
          then Ok (Program.mkCompilation Program.ScanEnd p [])
          else Ok (Program.mkCompilation Program.Compiled
                     (Program.with_instructions p
                        (<[length ops := mkInstruction OpEnd 0]>
                           (Program.instructions p)))
                     [str "Compilation successful!"])
  | Overflow =>
      exists p,
        Program.compile Program.init src
        = Ok (Program.mkCompilation Program.StackFull p [])
  | Underflow =>
      exists p,
        Program.compile Program.init src
        = Ok (Program.mkCompilation Program.UnmatchedClose p [])
  end.
Proof.
  pose proof (compile_loop_scan src [] Program.init init_compiled_prefix) as H.
  rewrite init_stack_ptr in H. change (Z.of_nat (length [])) with 0 in H.
  unfold Program.compile. rewrite compile_loop_strip.
  destruct (abstract_scan src 0 0) as [n d| |].
  - destruct H as (ops & p & Hloop & Hinv & Hn & Hd & Hpb & Hops).
    exists ops, p. rewrite Hloop. cbn [bind].
    do 6 (split; [assumption || reflexivity|]).
    rewrite is_empty_spec, <- Hd.
    destruct (negb (d =? 0) || (n =? PROGRAM_SIZE)) eqn:E; [reflexivity|].
    apply orb_false_elim in E as [_ E]. apply Z.eqb_neq in E.
    pose proof (lay_capacity _ _ (cp_layout _ _ Hinv)) as Hcap.
    assert (Hroom : Z.of_nat (length ops) < PROGRAM_SIZE) by lia.
    rewrite Hn, (assign_operator_ok _ _ _ OpEnd (step_fresh_slot _ _ Hinv Hroom)).
    reflexivity.
  - destruct H as (p & ->). eauto.
  - destruct H as (p & ->). eauto.
Qed.

(** With 4096 commands or more, [compile] returns [Failure]. *)
Lemma compile_capacity (src : pystr) :
  PROGRAM_SIZE <= Z.of_nat (length (commands src)) ->
  exists c, Program.compile Program.init src = Ok c /\
            Program.status (Program.exit c) = Failure.
Proof.
  intros Hlen. pose proof (compile_follows_scan src) as H.
  pose proof (abstract_scan_capacity src 0 0 ltac:(unfold PROGRAM_SIZE; lia) ltac:(lia)) as Hc.
  destruct (abstract_scan src 0 0) as [n d| |].
  - destruct H as (ops & p & _ & _ & _ & _ & _ & _ & ->).
    subst n. rewrite Z.eqb_refl, orb_true_r. eauto.
  - destruct H as (p & ->). eauto.
  - destruct H as (p & ->). eauto.
Qed.

(** A text that nests within the stack and fits is scanned to its end. *)
Lemma compile_loop_nesting (src : pystr) :
  nesting_within 0 STACK_SIZE src ->
  Z.of_nat (length (commands src)) <= PROGRAM_SIZE ->
  exists p,
    Program.compile_loop src 0 Program.init
      = Ok (Program.Scanned (Z.of_nat (length (commands src))) p) /\
    compiled_prefix (commands src) p /\
    Stack.ptr (Program.stack p) = depth_after src /\
    Program.compile Program.init src =
      if negb (depth_after src =? 0)
         || (Z.of_nat (length (commands src)) =? PROGRAM_SIZE)
      then Ok (Program.mkCompilation Program.ScanEnd p [])
      else Ok (Program.mkCompilation Program.Compiled
                 (Program.with_instructions p
                    (<[length (commands src) := mkInstruction OpEnd 0]>
                       (Program.instructions p)))
                 [str "Compilation successful!"]).
Proof.
  intros Hnest Hlen. pose proof (compile_follows_scan src) as H.
  rewrite (abstract_scan_nesting src 0 0) in H by (assumption || lia).
  destruct H as (ops & p & Hloop & Hinv & Hn & Hd & _ & Hops & Hc).
  rewrite take_ge in Hops by lia. subst ops.
  exists p. rewrite Z.add_0_l in *. rewrite Hloop, Hc. auto.
Qed.

(** ** Counting the instructions written *)

Lemma written_all (l : list Instruction) :
  Forall (fun i => operator i <> Unknown) l -> written l = l.
Proof.
  induction 1 as [|x l Hx _ IH]; [reflexivity|].
  unfold written in *. simpl. rewrite IH.
  destruct (operator x); simpl; congruence.
Qed.

Lemma written_none (l : list Instruction) :
  Forall (fun i => operator i = Unknown) l -> written l = [].
Proof.
  induction 1 as [|x l Hx _ IH]; [reflexivity|].
  unfold written in *. simpl. now rewrite IH, Hx.
Qed.

Lemma written_app (l1 l2 : list Instruction) :
  written (l1 ++ l2) = written l1 ++ written l2.
Proof. apply List.filter_app. Qed.

Lemma written_terminated (ops : list Op) (l : list Instruction) :
  layout ops l -> Z.of_nat (length ops) < PROGRAM_SIZE ->
  length (written (<[length ops := mkInstruction OpEnd 0]> l)) = S (length ops).
Proof.
  intros [Hcap Hsize Hops Hrest Hcmd] Hroom.
  set (n := length ops). set (l' := <[n := mkInstruction OpEnd 0]> l).
  assert (Hn : l' !! n = Some (mkInstruction OpEnd 0)).
  { apply list_lookup_insert_eq. lia. }
  rewrite <- (take_drop_middle _ _ _ Hn), written_app.
  change (mkInstruction OpEnd 0 :: drop (S n) l')
    with ([mkInstruction OpEnd 0] ++ drop (S n) l').
  rewrite written_app, !length_app.
  rewrite (written_all (take n l')), (written_none (drop (S n) l')).
  - rewrite length_take_le; [simpl; lia|]. unfold l'. rewrite length_insert. lia.
  - apply Forall_lookup. intros k x Hk. rewrite lookup_drop in Hk.
    apply lookup_lt_Some in Hk as Hlt. unfold l' in Hk, Hlt.
    rewrite length_insert in Hlt.
    rewrite list_lookup_insert_ne in Hk by lia.
    rewrite Hrest in Hk by (fold n; lia). now injection Hk as <-.
  - apply Forall_lookup. intros k x Hk.
    apply lookup_lt_Some in Hk as Hlt. rewrite length_take in Hlt.
    rewrite lookup_take_lt in Hk by lia. unfold l' in Hk.
    rewrite list_lookup_insert_ne in Hk by lia.
    destruct (lookup_lt_is_Some_2 ops k ltac:(fold n; lia)) as [o Ho].
    destruct (Hops _ _ Ho) as [m Hm]. rewrite Hm in Hk. injection Hk as <-.
    simpl. rewrite Forall_lookup in Hcmd. eapply Hcmd, Ho.
Qed.

(** ** The compiler: C3, C5, C6 *)

(** C6. A source text whose commands plus the terminator need more than the
    4096 instructions of the array is not compiled: [compile] returns
    [Failure] (it does not raise, and it does not succeed on a truncated
    program). *)
Theorem C6_over_capacity_fails (src : pystr) :
  PROGRAM_SIZE < Z.of_nat (length (commands src)) + 1 ->
  exists c, Program.compile Program.init src = Ok c /\
            Program.status (Program.exit c) = Failure.
Proof. intros H. apply compile_capacity. lia. Qed.

(** C6 at a text of 4096 increments. *)
Lemma C6_over_capacity_fails_witness :
  PROGRAM_SIZE < Z.of_nat (length (commands source_increments)) + 1 /\
  exists c, Program.compile Program.init source_increments = Ok c /\
            Program.status (Program.exit c) = Failure.
Proof.
  split; [vm_compute; reflexivity|].
  apply (C6_over_capacity_fails source_increments).
  vm_compute. reflexivity.
Defined.

(** C3 as stated fails: 2048 pairs of brackets are balanced and not nested,
    and [compile] returns [Failure]. *)
Lemma C3_counterexample :
  nesting_within 0 1 source_pairs /\ depth_after source_pairs = 0 /\
  exists c, Program.compile Program.init source_pairs = Ok c /\
            Program.status (Program.exit c) = Failure.
Proof.
  split; [|split].
  - apply nesting_check_within. vm_compute. reflexivity.
  - vm_compute. reflexivity.
  - apply compile_capacity. vm_compute. discriminate.
Qed.

(** C3, amended. A source text whose brackets are balanced and not nested,
    and that has at most 4095 recognised command characters, compiles:
    [compile] returns [Success], and the instructions holding an operator
    other than [Unknown] are as many as the command characters, plus one for
    the terminator. *)
Theorem C3_flat_brackets_compile (src : pystr) :
  nesting_within 0 1 src -> depth_after src = 0 ->
  Z.of_nat (length (commands src)) < PROGRAM_SIZE ->
  exists c,
    Program.compile Program.init src = Ok c /\
    Program.exit c = Program.Compiled /\
    Program.status (Program.exit c) = Success /\
    length (written (Program.instructions (Program.program c)))
    = S (length (commands src)).
Proof.
  intros Hnest Hd Hlen.
  destruct (compile_loop_nesting src) as (p & _ & Hinv & _ & Hc).
  { intros k. specialize (Hnest k). unfold STACK_SIZE. lia. }
  { lia. }
  rewrite Hd in Hc. simpl in Hc.
  destruct (Z.eqb_spec (Z.of_nat (length (commands src))) PROGRAM_SIZE); [lia|].
  eexists. split; [exact Hc|]. simpl. do 2 (split; [reflexivity|]).
  apply written_terminated; [apply Hinv | assumption].
Qed.

(** C3 at a text with two loops and comments. *)
Lemma C3_flat_brackets_compile_witness :
  nesting_within 0 1 source_two_loops /\ depth_after source_two_loops = 0 /\
  Z.of_nat (length (commands source_two_loops)) < PROGRAM_SIZE /\
  exists c,
    Program.compile Program.init source_two_loops = Ok c /\
    Program.exit c = Program.Compiled /\
    Program.status (Program.exit c) = Success /\
    length (written (Program.instructions (Program.program c)))
    = S (length (commands source_two_loops)).
Proof.
  set (src := source_two_loops).
  assert (H1 : nesting_within 0 1 src).
  { apply nesting_check_within. vm_compute. reflexivity. }
  assert (H2 : depth_after src = 0) by (vm_compute; reflexivity).
  assert (H3 : Z.of_nat (length (commands src)) < PROGRAM_SIZE)
    by (vm_compute; reflexivity).
  split; [exact H1|]. split; [exact H2|]. split; [exact H3|].
  exact (C3_flat_brackets_compile src H1 H2 H3).
Defined.

(** C5 as stated fails: in 513 opening brackets followed by 514 closing
    ones the last closing bracket is unmatched, and [compile] returns at
    line 109, on the 513th opening bracket, for the full stack. *)
Lemma C5_counterexample :
  nesting_within 0 513 source_deep /\ depth_after source_deep = 0 /\
  Program.StackFull <> Program.UnmatchedClose /\
  exists p,
    Program.compile Program.init (source_deep ++ [code "]"])
    = Ok (Program.mkCompilation Program.StackFull p []).
Proof.
  split; [|split; [|split]].
  - apply nesting_check_within. vm_compute. reflexivity.
  - vm_compute. reflexivity.
  - discriminate.
  - pose proof (compile_follows_scan (source_deep ++ [code "]"])) as H.
    replace (abstract_scan (source_deep ++ [code "]"]) 0 0) with Overflow in H
      by (vm_compute; reflexivity).
    exact H.
Qed.

(** C5, amended. When nothing fails earlier (the text before it nests
    within the 512 places of the stack and has fewer than 4096 commands), an
    unmatched closing bracket makes [compile] return [Failure] at line 115,
    as that bracket is scanned: the object is left as the scan of the text
    before the bracket made it, whatever follows.  When nothing fails during
    the scan (the text nests within the stack and has at most 4096
    commands), a text that leaves a bracket open is scanned to its end and
    [compile] returns [Failure] at line 134. *)
Theorem C5_unmatched_brackets_fail :
  (forall pre post : pystr,
     nesting_within 0 STACK_SIZE pre -> depth_after pre = 0 ->
     Z.of_nat (length (commands pre)) < PROGRAM_SIZE ->
     exists p,
       Program.compile_loop pre 0 Program.init
         = Ok (Program.Scanned (Z.of_nat (length (commands pre))) p) /\
       Program.compile Program.init (pre ++ code "]" :: post)
         = Ok (Program.mkCompilation Program.UnmatchedClose p []) /\
       Program.status Program.UnmatchedClose = Failure) /\
  (forall src : pystr,
     nesting_within 0 STACK_SIZE src -> 0 < depth_after src ->
     Z.of_nat (length (commands src)) <= PROGRAM_SIZE ->
     exists p,
       Program.compile_loop src 0 Program.init
         = Ok (Program.Scanned (Z.of_nat (length (commands src))) p) /\
       Program.compile Program.init src
         = Ok (Program.mkCompilation Program.ScanEnd p []) /\
       Program.status Program.ScanEnd = Failure).
Proof.
  split.
  - intros pre post Hnest Hd Hlen.
    destruct (compile_loop_nesting pre Hnest ltac:(lia))
      as (p & Hloop & Hinv & Hptr & _).
    exists p. split; [exact Hloop|]. split; [|reflexivity].
    unfold Program.compile.
    rewrite compile_loop_strip, compile_loop_app, Hloop. cbn [bind].
    cbn [Program.compile_loop].
    destruct (Z.ltb_spec (Z.of_nat (length (commands pre))) PROGRAM_SIZE); [|lia].
    cbn [negb]. rewrite op_of_char_cases.
    change (op_of_char (code "]")) with (Some OpJmpBck). cbn iota.
    destruct (close_step _ _ Hinv Hlen) as [[_ ->]|[Hpos _]]; [reflexivity|].
    rewrite Hptr, Hd in Hpos. lia.
  - intros src Hnest Hd Hlen.
    destruct (compile_loop_nesting src Hnest Hlen) as (p & Hloop & _ & _ & Hc).
    exists p. split; [exact Hloop|]. split; [|reflexivity].
    rewrite Hc. destruct (Z.eqb_spec (depth_after src) 0); [lia | reflexivity].
Qed.

(** C5 at [+]] and at [[+]. *)
Lemma C5_unmatched_brackets_fail_witness :
  (nesting_within 0 STACK_SIZE (str "+") /\ depth_after (str "+") = 0 /\
   Z.of_nat (length (commands (str "+"))) < PROGRAM_SIZE /\
   exists p,
     Program.compile_loop (str "+") 0 Program.init
       = Ok (Program.Scanned (Z.of_nat (length (commands (str "+")))) p) /\
     Program.compile Program.init (str "+" ++ code "]" :: str "+")
       = Ok (Program.mkCompilation Program.UnmatchedClose p []) /\
     Program.status Program.UnmatchedClose = Failure) /\
  (nesting_within 0 STACK_SIZE (str "[+") /\ 0 < depth_after (str "[+") /\
   Z.of_nat (length (commands (str "[+"))) <= PROGRAM_SIZE /\
   exists p,
     Program.compile_loop (str "[+") 0 Program.init
       = Ok (Program.Scanned (Z.of_nat (length (commands (str "[+")))) p) /\
     Program.compile Program.init (str "[+")
       = Ok (Program.mkCompilation Program.ScanEnd p []) /\
     Program.status Program.ScanEnd = Failure).
Proof.
  assert (A1 : nesting_within 0 STACK_SIZE (str "+"))
    by (apply nesting_check_within; vm_compute; reflexivity).
  assert (A2 : depth_after (str "+") = 0) by (vm_compute; reflexivity).
  assert (A3 : Z.of_nat (length (commands (str "+"))) < PROGRAM_SIZE)
    by (vm_compute; reflexivity).
  assert (B1 : nesting_within 0 STACK_SIZE (str "[+"))
    by (apply nesting_check_within; vm_compute; reflexivity).
  assert (B2 : 0 < depth_after (str "[+")) by (vm_compute; reflexivity).
  assert (B3 : Z.of_nat (length (commands (str "[+"))) <= PROGRAM_SIZE)
    by (vm_compute; discriminate).
  split.
  - do 3 (split; [assumption|]).
    exact (proj1 C5_unmatched_brackets_fail (str "+") (str "+") A1 A2 A3).
  - do 3 (split; [assumption|]).
    exact (proj2 C5_unmatched_brackets_fail (str "[+") B1 B2 B3).
Defined.

(** ** The virtual machine leaves the instructions alone *)

Section Frozen.
Variable host_int : pystr -> Res Z.

Lemma exec_op_instructions (vm vm' : Program.VM) :
  Program.exec_op host_int vm = Ok (Program.Next vm') ->
  Program.instructions (Program.prog vm') = Program.instructions (Program.prog vm).
Proof.
  unfold Program.exec_op, Program.input, bind. intros H.
  repeat case_match; simplify_eq; reflexivity.
Qed.

Lemma iteration_instructions (vm vm' : Program.VM) :
  Program.iteration host_int vm = Ok (Program.Next vm') ->
  Program.instructions (Program.prog vm') = Program.instructions (Program.prog vm).
Proof.
  unfold Program.iteration, bind. intros H.
  destruct (Program.exec_op host_int vm) as [[vm1|st]|e] eqn:E; simplify_eq.
  simpl. now apply exec_op_instructions.
Qed.

Lemma loop_instructions (fuel : nat) :
  forall vm,
    Program.instructions (Program.prog (Program.loop host_int fuel vm).2)
    = Program.instructions (Program.prog vm).
Proof.
  induction fuel as [|fuel IH]; intros vm; simpl; [reflexivity|].
  destruct (Program.guard vm) as [[|]|e]; try reflexivity.
  destruct (Program.iteration host_int vm) as [[vm1|st]|e] eqn:E; try reflexivity.
  rewrite IH. now apply iteration_instructions.
Qed.

(** What [print] writes is its argument. *)
Lemma print_Ok (s line : pystr) : print s = Ok line -> line = s.
Proof. unfold print. destruct (existsb is_surrogate s); congruence. Qed.


(** [execute] gives back the state in which the loop ended. *)
Lemma conclude_final (b : Program.Break) (vm : Program.VM) :
  Program.final (Program.conclude (b, vm)) = vm.
Proof.
  unfold Program.conclude. destruct b; try reflexivity.
  destruct (negb (Program.ptr vm =? DATA_SIZE)); [|reflexivity].
  now destruct (print (Program.print_buffer (Program.prog vm))).
Qed.

Lemma execute_instructions (fuel : nat) (p : Program.t) (input : list pystr) :
  Program.instructions
    (Program.prog (Program.final (Program.execute host_int fuel p input)))
  = Program.instructions p.
Proof.
  pose proof (loop_instructions fuel (Program.start p input)) as H.
  unfold Program.execute.
  destruct (Program.loop host_int fuel (Program.start p input)) as [b vm].
  rewrite conclude_final. exact H.
Qed.

End Frozen.

(** ** Jump linkage: C2 *)

Lemma operators_prefix (ops : list Op) (l : list Instruction) :
  (forall k o, ops !! k = Some o -> exists m, l !! k = Some (mkInstruction o m)) ->
  operator <$> l = ops ++ drop (length ops) (operator <$> l).
Proof.
  intros H. rewrite <- (take_drop (length ops) (operator <$> l)) at 1.
  f_equal. apply list_eq. intros k.
  destruct (ops !! k) as [o|] eqn:E.
  - apply lookup_lt_Some in E as Hlt. rewrite lookup_take_lt by lia.
    destruct (H _ _ E) as [m Hm]. now rewrite list_lookup_fmap, Hm.
  - apply lookup_ge_None in E. apply lookup_take_ge. lia.
Qed.

(** The links of a compiled prefix survive the terminator. *)
Lemma terminated_links (ops : list Op) (p : Program.t) :
  compiled_prefix ops p ->
  Z.of_nat (length ops) < PROGRAM_SIZE ->
  Stack.ptr (Program.stack p) = 0 ->
  let l := <[length ops := mkInstruction OpEnd 0]> (Program.instructions p) in
  (forall i ins, l !! i = Some ins -> operator ins = OpJmpFwd ->
                 exists j, (j < length ops)%nat /\ linked (operator <$> l) l i j) /\
  (forall j ins, l !! j = Some ins -> operator ins = OpJmpBck ->
                 exists i, (i < length ops)%nat /\ linked (operator <$> l) l i j).
Proof.
  intros Hinv Hroom Hptr l.
  destruct Hinv as [Hlay Hwf Hchain Hfwd Hbck].
  assert (Hempty : Stack.elems (Program.stack p) = []).
  { pose proof (Stack_elems_length _ Hwf) as Hlen. rewrite Hptr in Hlen.
    destruct (Stack.elems (Program.stack p)); [reflexivity | simpl in Hlen; lia]. }
  rewrite Hempty in Hfwd.
  destruct Hlay as [Hcap Hsize Hops Hrest Hcmd].
  assert (Hsame : forall k, (k < length ops)%nat ->
                            l !! k = Program.instructions p !! k).
  { intros k Hk. unfold l. apply list_lookup_insert_ne. lia. }
  assert (Hpre : operator <$> l = ops ++ drop (length ops) (operator <$> l)).
  { apply operators_prefix. intros k o Hk. apply lookup_lt_Some in Hk as Hlt.
    rewrite Hsame by assumption. now apply Hops. }
  assert (Hin : forall k ins, l !! k = Some ins ->
                  operator ins = OpJmpFwd \/ operator ins = OpJmpBck ->
                  ops !! k = Some (operator ins)).
  { intros k ins Hk Hop. apply lookup_lt_Some in Hk as Hlt.
    unfold l in Hlt. rewrite length_insert in Hlt.
    destruct (Nat.lt_trichotomy k (length ops)) as [Hlt'|[->|Hgt]].
    - destruct (lookup_lt_is_Some_2 ops k Hlt') as [o Ho].
      destruct (Hops _ _ Ho) as [m Hm]. rewrite Hsame, Hm in Hk by assumption.
      now injection Hk as <-.
    - unfold l in Hk. rewrite list_lookup_insert_eq in Hk by lia.
      injection Hk as <-. simpl in Hop. destruct Hop; discriminate.
    - unfold l in Hk. rewrite list_lookup_insert_ne, Hrest in Hk by lia.
      injection Hk as <-. simpl in Hop. destruct Hop; discriminate. }
  assert (Hlift : forall i j, linked ops (Program.instructions p) i j ->
                              linked (operator <$> l) l i j).
  { intros i j Hl. pose proof (matching_close_bounds _ _ _ (proj2 (proj2 Hl))).
    rewrite Hpre. apply (linked_mono _ _ _ _ _ _ Hl); apply Hsame; lia. }
  split.
  - intros i ins Hi Hop. pose proof (Hin _ _ Hi (or_introl Hop)) as Ho.
    rewrite Hop in Ho. destruct (Hfwd _ Ho) as [Hel|[j Hl]].
    + inversion Hel.
    + exists j. pose proof (matching_close_bounds _ _ _ (proj2 (proj2 Hl))).
      split; [lia | now apply Hlift].
  - intros j ins Hj Hop. pose proof (Hin _ _ Hj (or_intror Hop)) as Ho.
    rewrite Hop in Ho. destruct (Hbck _ Ho) as (i & _ & Hl).
    exists i. pose proof (matching_close_bounds _ _ _ (proj2 (proj2 Hl))).
    split; [lia | now apply Hlift].
Qed.

(** What a successful [compile] has done. *)
Lemma compile_success (src : pystr) (c : Program.Compilation) :
  Program.compile Program.init src = Ok c ->
  Program.exit c = Program.Compiled ->
  exists p,
    compiled_prefix (commands src) p /\
    Z.of_nat (length (commands src)) < PROGRAM_SIZE /\
    Stack.ptr (Program.stack p) = 0 /\
    Program.print_buffer p = [] /\
    c = Program.mkCompilation Program.Compiled
          (Program.with_instructions p
             (<[length (commands src) := mkInstruction OpEnd 0]>
                (Program.instructions p)))
          [str "Compilation successful!"].
Proof.
  intros Hc Hexit. pose proof (compile_follows_scan src) as H.
  destruct (abstract_scan src 0 0) as [n d| |];
    [|destruct H as (p & H); rewrite H in Hc; injection Hc as <-; discriminate..].
  destruct H as (ops & p & _ & Hinv & Hn & Hd & Hpb & Hops & H). rewrite H in Hc.
  destruct (negb (d =? 0) || (n =? PROGRAM_SIZE)) eqn:E;
    [injection Hc as <-; discriminate|].
  apply orb_false_elim in E as [E1 E2].
  apply negb_false_iff, Z.eqb_eq in E1. apply Z.eqb_neq in E2.
  pose proof (lay_capacity _ _ (cp_layout _ _ Hinv)) as Hcap.
  assert (Hlen : (length ops < Z.to_nat PROGRAM_SIZE)%nat) by lia.
  assert (Hall : ops = commands src).
  { rewrite Hops. apply take_ge.
    destruct (Nat.le_gt_cases (length (commands src)) (Z.to_nat PROGRAM_SIZE))
      as [Hle|Hgt]; [assumption|].
    rewrite Hops, length_take in Hlen. lia. }
  clear Hops. subst ops. exists p. injection Hc as <-.
  split; [assumption|]. repeat split; (assumption || lia).
Qed.

Lemma compile_terminated (src : pystr) (c : Program.Compilation) :
  Program.compile Program.init src = Ok c ->
  Program.exit c = Program.Compiled ->
  terminated (length (commands src)) (Program.instructions (Program.program c)).
Proof.
  intros Hc Hexit.
  destruct (compile_success _ _ Hc Hexit) as (p & Hinv & Hroom & Hptr & _ & ->).
  destruct (terminated_links _ p Hinv Hroom Hptr) as [Hf Hb]. simpl.
  constructor.
  - apply list_lookup_insert_eq.
    pose proof (lay_size _ _ (cp_layout _ _ Hinv)). lia.
  - intros k ins Hk [Hop|Hop].
    + destruct (Hf _ _ Hk Hop) as (j & Hj & Hk' & _).
      rewrite Hk' in Hk. injection Hk as <-. simpl. lia.
    + destruct (Hb _ _ Hk Hop) as (i & Hi & _ & Hk' & _).
      rewrite Hk' in Hk. injection Hk as <-. simpl. lia.
Qed.

(** C2. After a successful [compile] of any source text on a fresh object,
    every jump-if-zero instruction has as operand the position of its
    matching jump-if-nonzero instruction, whose operand is the position of
    that jump-if-zero; every jump-if-nonzero instruction is one of such a
    pair; and [execute] leaves the instruction array as [compile] made it. *)
Theorem C2_jump_linkage (src : pystr) (c : Program.Compilation) :
  Program.compile Program.init src = Ok c ->
  Program.exit c = Program.Compiled ->
  (forall i ins,
     Program.instructions (Program.program c) !! i = Some ins ->
     operator ins = OpJmpFwd ->
     exists j,
       matching_close (operator <$> Program.instructions (Program.program c)) i
       = Some j /\
       operand ins = Z.of_nat j /\
       Program.instructions (Program.program c) !! j
       = Some (mkInstruction OpJmpBck (Z.of_nat i))) /\
  (forall j ins,
     Program.instructions (Program.program c) !! j = Some ins ->
     operator ins = OpJmpBck ->
     exists i,
       linked (operator <$> Program.instructions (Program.program c))
              (Program.instructions (Program.program c)) i j) /\
  (forall host_int fuel input,
     Program.instructions
       (Program.prog
          (Program.final (Program.execute host_int fuel (Program.program c) input)))
     = Program.instructions (Program.program c)).
Proof.
  intros Hc Hexit.
  destruct (compile_success _ _ Hc Hexit) as (p & Hinv & Hroom & Hptr & _ & ->).
  destruct (terminated_links _ p Hinv Hroom Hptr) as [Hf Hb]. simpl.
  split; [|split].
  - intros i ins Hi Hop. destruct (Hf i ins Hi Hop) as (j & _ & Hi' & Hj & Hm).
    exists j. split; [exact Hm|]. split; [|exact Hj].
    rewrite Hi' in Hi. now injection Hi as <-.
  - intros j ins Hj Hop. destruct (Hb j ins Hj Hop) as (i & _ & Hl). eauto.
  - intros. apply execute_instructions.
Qed.

(** C2 at the sample program. *)
Lemma C2_jump_linkage_witness :
  exists c,
    Program.compile Program.init source_at = Ok c /\
    Program.exit c = Program.Compiled /\
    (forall i ins,
       Program.instructions (Program.program c) !! i = Some ins ->
       operator ins = OpJmpFwd ->
       exists j,
         matching_close (operator <$> Program.instructions (Program.program c)) i
         = Some j /\
         operand ins = Z.of_nat j /\
         Program.instructions (Program.program c) !! j
         = Some (mkInstruction OpJmpBck (Z.of_nat i))) /\
    (forall j ins,
       Program.instructions (Program.program c) !! j = Some ins ->
       operator ins = OpJmpBck ->
       exists i,
         linked (operator <$> Program.instructions (Program.program c))
                (Program.instructions (Program.program c)) i j) /\
    (forall host_int fuel input,
       Program.instructions
         (Program.prog
            (Program.final
               (Program.execute host_int fuel (Program.program c) input)))
       = Program.instructions (Program.program c)).
Proof.
  destruct (compile_loop_nesting source_at) as (p & _ & _ & _ & Hc).
  { apply nesting_check_within. vm_compute. reflexivity. }
  { vm_compute. discriminate. }
  replace (negb (depth_after source_at =? 0)
           || (Z.of_nat (length (commands source_at)) =? PROGRAM_SIZE))
    with false in Hc by (vm_compute; reflexivity).
  eexists. split; [exact Hc|]. split; [reflexivity|].
  exact (C2_jump_linkage source_at _ Hc eq_refl).
Defined.

(** ** The loop of the virtual machine *)

Section Loop.
Variable host_int : pystr -> Res Z.

(** The first [n] iterations can be run separately. *)
Lemma loop_after (n : nat) :
  forall vm vm' m,
    Program.after host_int n vm = Some vm' ->
    Program.loop host_int (n + m) vm = Program.loop host_int m vm'.
Proof.
  induction n as [|n IH]; intros vm vm' m H; simpl in *.
  - now injection H as <-.
  - destruct (Program.guard vm) as [[|]|e]; try discriminate.
    destruct (Program.iteration host_int vm) as [[vm1|st]|e]; try discriminate.
    now apply IH.
Qed.

Lemma after_add (n m : nat) :
  forall vm vm' vm'',
    Program.after host_int n vm = Some vm' ->
    Program.after host_int m vm' = Some vm'' ->
    Program.after host_int (n + m) vm = Some vm''.
Proof.
  induction n as [|n IH]; intros vm vm' vm'' H1 H2; simpl in *.
  - now injection H1 as <-.
  - destruct (Program.guard vm) as [[|]|e]; try discriminate.
    destruct (Program.iteration host_int vm) as [[vm1|st]|e]; try discriminate.
    eapply IH; eassumption.
Qed.

(** More fuel does not change a run that ended. *)
Lemma loop_fuel_mono (n k : nat) :
  forall vm,
    (Program.loop host_int n vm).1 <> Program.LoopFuel ->
    Program.loop host_int (n + k) vm = Program.loop host_int n vm.
Proof.
  induction n as [|n IH]; intros vm H; simpl in *; [congruence|].
  destruct (Program.guard vm) as [[|]|e]; try reflexivity.
  destruct (Program.iteration host_int vm) as [[vm1|st]|e]; try reflexivity.
  now apply IH.
Qed.

Lemma execute_fuel_mono (n k : nat) (p : Program.t) (input : list pystr) :
  Program.outcome (Program.execute host_int n p input) <> Program.OutOfFuel ->
  Program.execute host_int (n + k) p input = Program.execute host_int n p input.
Proof.
  intros H. unfold Program.execute in *.
  rewrite loop_fuel_mono; [reflexivity|].
  destruct (Program.loop host_int n (Program.start p input)) as [[] vm];
    simpl in *; congruence.
Qed.

Lemma execute_after (n m : nat) (p : Program.t) (input : list pystr)
      (vm : Program.VM) :
  Program.after host_int n (Program.start p input) = Some vm ->
  Program.execute host_int (n + m) p input
  = Program.conclude (Program.loop host_int m vm).
Proof. intros H. unfold Program.execute. now rewrite (loop_after _ _ _ _ H). Qed.

(** What one iteration that continues does to the locals. *)
Lemma iteration_next (vm vm' : Program.VM) :
  Program.iteration host_int vm = Ok (Program.Next vm') ->
  exists i,
    getitem (Program.instructions (Program.prog vm)) (Program.pc vm) = Ok i /\
    length (Program.data vm') = length (Program.data vm) /\
    (Program.ptr vm' = Program.ptr vm \/
     Program.ptr vm' = Program.ptr vm + 1 \/
     Program.ptr vm' = Program.ptr vm - 1) /\
    (Program.pc vm' = Program.pc vm + 1 \/
     (operator i = OpJmpFwd \/ operator i = OpJmpBck) /\
     Program.pc vm' = operand i + 1).
Proof.
  unfold Program.iteration, Program.exec_op, Program.input, bind. intros H.
  destruct (getitem (Program.instructions (Program.prog vm)) (Program.pc vm))
    as [i|e] eqn:Ei; [|discriminate].
  exists i. split; [reflexivity|].
  destruct (operator i) eqn:Eo; repeat case_match; simplify_eq; simpl;
    repeat split; eauto using setitem_length.
Qed.

(** An invariant of the iterations holds after any number of them. *)
Lemma after_invariant (P : Program.VM -> Prop) :
  (forall vm vm',
     P vm -> Program.guard vm = Ok true ->
     Program.iteration host_int vm = Ok (Program.Next vm') -> P vm') ->
  forall n vm vm',
    P vm -> Program.after host_int n vm = Some vm' -> P vm'.
Proof.
  intros Hstep. induction n as [|n IH]; intros vm vm' HP H; simpl in H.
  - now injection H as <-.
  - destruct (Program.guard vm) as [[|]|e] eqn:Eg; try discriminate.
    destruct (Program.iteration host_int vm) as [[vm1|st]|e] eqn:Ei;
      try discriminate.
    eapply IH; [|exact H]. eapply Hstep; eassumption.
Qed.

Lemma guard_true (vm : Program.VM) :
  Program.guard vm = Ok true ->
  Program.ptr vm < DATA_SIZE /\
  exists i,
    getitem (Program.instructions (Program.prog vm)) (Program.pc vm) = Ok i /\
    operator i <> OpEnd.
Proof.
  unfold Program.guard, bind. intros H.
  destruct (getitem _ _) as [i|e]; [|discriminate].
  injection H as H. apply andb_prop in H as [H1 H2].
  apply Z.ltb_lt in H2. split; [assumption|]. exists i. split; [reflexivity|].
  intros E. rewrite E in H1. discriminate.
Qed.

(** The tape keeps its size, and the data pointer never passes its end. *)
Lemma after_tape (n : nat) (p : Program.t) (input : list pystr) (vm : Program.VM) :
  Program.after host_int n (Program.start p input) = Some vm ->
  Z.of_nat (length (Program.data vm)) = DATA_SIZE /\
  Program.ptr vm <= DATA_SIZE /\
  Program.instructions (Program.prog vm) = Program.instructions p.
Proof.
  apply (after_invariant
           (fun vm => Z.of_nat (length (Program.data vm)) = DATA_SIZE /\
                      Program.ptr vm <= DATA_SIZE /\
                      Program.instructions (Program.prog vm)
                      = Program.instructions p)).
  - intros v v' (Hd & Hp & Hi) Hg Hit. apply guard_true in Hg as [Hlt _].
    pose proof (iteration_instructions _ _ _ Hit) as Hins.
    apply iteration_next in Hit as (i & _ & Hlen & Hptr & _).
    split; [lia|]. split; [lia | congruence].
  - unfold Program.start. cbn [Program.data Program.ptr Program.prog].
    rewrite length_replicate. unfold DATA_SIZE. repeat split; lia.
Qed.

End Loop.

(** ** Running a compiled program *)

Section Compiled.
Variable host_int : pystr -> Res Z.
Variables (src : pystr) (c : Program.Compilation).
Hypothesis Hcompile : Program.compile Program.init src = Ok c.
Hypothesis Hexit : Program.exit c = Program.Compiled.

(** The program counter stays between the first instruction and the
    terminator. *)
Lemma after_pc (n : nat) (input : list pystr) (vm : Program.VM) :
  Program.after host_int n (Program.start (Program.program c) input) = Some vm ->
  0 <= Program.pc vm <= Z.of_nat (length (commands src)) /\
  Program.instructions (Program.prog vm)
  = Program.instructions (Program.program c).
Proof.
  pose proof (compile_terminated _ _ Hcompile Hexit) as [Hend Hjumps].
  apply (after_invariant host_int
           (fun vm => 0 <= Program.pc vm <= Z.of_nat (length (commands src)) /\
                      Program.instructions (Program.prog vm)
                      = Program.instructions (Program.program c))).
  - intros v v' [Hpc Hins] Hg Hit.
    pose proof (iteration_instructions _ _ _ Hit) as Hins'.
    apply guard_true in Hg as (_ & i & Hi & Hop).
    apply iteration_next in Hit as (i' & Hi' & _ & _ & Hnext).
    rewrite Hi in Hi'. injection Hi' as <-. rewrite Hins in Hi.
    split; [|congruence].
    assert (Hlt : Program.pc v < Z.of_nat (length (commands src))).
    { destruct (Z.eq_dec (Program.pc v) (Z.of_nat (length (commands src))))
        as [E|E]; [|lia].
      assert (Hg : getitem (Program.instructions (Program.program c))
                           (Z.of_nat (length (commands src)))
                   = Ok (mkInstruction OpEnd 0)).
      { apply getitem_nonneg; [lia | now rewrite Nat2Z.id]. }
      rewrite E, Hg in Hi. injection Hi as <-. now contradiction Hop. }
    destruct Hnext as [->|[Hj ->]]; [lia|].
    apply getitem_Ok in Hi as (k & _ & Hk).
    pose proof (Hjumps _ _ Hk Hj). lia.
  - unfold Program.start. cbn [Program.pc Program.prog]. split; [lia | reflexivity].
Qed.

(** C1, amended. In every execution of a successfully compiled program the
    data pointer never passes the end of the tape, and when it reaches it
    (position 65535, the first one beyond the last cell) [execute] returns
    [Failure]. *)
Theorem C1_tape_end_fails (n : nat) (input : list pystr) (vm : Program.VM) :
  Program.after host_int n (Program.start (Program.program c) input) = Some vm ->
  Program.ptr vm <= DATA_SIZE /\
  (Program.ptr vm = DATA_SIZE ->
   forall k,
     Program.outcome
       (Program.execute host_int (n + S k) (Program.program c) input)
     = Program.Returned Failure).
Proof.
  intros Hafter.
  destruct (after_tape _ _ _ _ _ Hafter) as (_ & Hle & _).
  split; [assumption|]. intros Hptr k.
  destruct (after_pc _ _ _ Hafter) as [Hpc Hins].
  pose proof (compile_terminated _ _ Hcompile Hexit) as [Hend _].
  apply lookup_lt_Some in Hend.
  destruct (lookup_lt_is_Some_2 (Program.instructions (Program.program c))
              (Z.to_nat (Program.pc vm)) ltac:(lia)) as [i Hi].
  rewrite (execute_after _ _ _ _ _ _ Hafter).
  cbn [Program.loop]. unfold Program.guard.
  rewrite Hins, (getitem_nonneg _ _ _ (proj1 Hpc) Hi). cbn [bind].
  destruct (Z.ltb_spec (Program.ptr vm) DATA_SIZE); [lia|].
  rewrite andb_false_r. cbn [Program.conclude].
  rewrite Hptr, Z.eqb_refl. reflexivity.
Qed.

End Compiled.

(** C1 as stated fails: compiled from [<], the machine moves the data pointer
    to -1, below the tape, and [execute] returns [Success]. *)
Lemma C1_counterexample :
  exists c,
    Program.compile Program.init (str "<") = Ok c /\
    Program.exit c = Program.Compiled /\
    Program.ptr <$> Program.after decimal_int 1 (Program.start (Program.program c) [])
    = Some (-1) /\
    Program.outcome (Program.execute decimal_int 2 (Program.program c) [])
    = Program.Returned Success.
Proof.
  eexists. split; [vm_compute; reflexivity|].
  split; [reflexivity|]. split; vm_compute; reflexivity.
Qed.

(** ** The sample program: C7 *)

(** C7. The text [++++++++[>++++++++<-]>.] compiles, and executing the
    result returns [Success] with the print buffer holding the one character
    of code point 64, which is what is printed. *)
Theorem C7_prints_at :
  exists c,
    Program.compile Program.init source_at = Ok c /\
    Program.status (Program.exit c) = Success /\
    forall host_int input k,
      Program.outcome
        (Program.execute host_int (150 + k) (Program.program c) input)
      = Program.Returned Success /\
      Program.print_buffer
        (Program.prog
           (Program.final
              (Program.execute host_int (150 + k) (Program.program c) input)))
      = [64%N] /\
      Program.execute_stdout
        (Program.execute host_int (150 + k) (Program.program c) input)
      = [str "@"].
Proof.
  eexists. split; [vm_compute; reflexivity|]. split; [reflexivity|].
  intros host_int input k.
  rewrite execute_fuel_mono by (vm_compute; discriminate).
  split; [|split]; vm_compute; reflexivity.
Qed.

(** [state_after] is the state reached, when the run gets that far. *)
Lemma state_after_reached (n : nat) (src : pystr) (input : list pystr) :
  match Program.after decimal_int n (Program.start (compiled src) input) with
  | Some _ => true
  | None => false
  end = true ->
  Program.after decimal_int n (Program.start (compiled src) input)
  = Some (state_after n src input).
Proof.
  unfold state_after.
  destruct (Program.after decimal_int n (Program.start (compiled src) input));
    [reflexivity | discriminate].
Qed.

(** ** Host exceptions: C9, C10 *)

Lemma chr_negative (v : Z) :
  v < 0 -> chr v = Raise (if v <? -2147483648 then OverflowError else ValueError).
Proof.
  intros H. unfold chr.
  destruct (Z.ltb_spec v (-2147483648)); [reflexivity|].
  destruct (Z.ltb_spec 2147483647 v); [lia|]. simpl.
  destruct (Z.ltb_spec v 0); [reflexivity | lia].
Qed.

(** C9. [execute] is not total into its two statuses.  Compiled from [-.],
    the machine decrements cell 0 to -1 and the output instruction raises
    [ValueError] out of [execute].  In general, whenever an execution gets
    to an output instruction with a negative value in the current cell,
    [execute] ends by the exception that [chr] raises. *)
Theorem C9_output_of_negative_raises :
  (exists c,
     Program.compile Program.init (str "-.") = Ok c /\
     Program.exit c = Program.Compiled /\
     forall host_int input k,
       Program.outcome
         (Program.execute host_int (2 + k) (Program.program c) input)
       = Program.Raised ValueError) /\
  (forall host_int p input n vm i v,
     Program.after host_int n (Program.start p input) = Some vm ->
     getitem (Program.instructions (Program.prog vm)) (Program.pc vm) = Ok i ->
     operator i = OpOut ->
     Program.ptr vm < DATA_SIZE ->
     getitem (Program.data vm) (Program.ptr vm) = Ok v ->
     v < 0 ->
     forall k,
       Program.outcome (Program.execute host_int (n + S k) p input)
       = Program.Raised (if v <? -2147483648 then OverflowError else ValueError)).
Proof.
  split.
  - eexists. split; [vm_compute; reflexivity|]. split; [reflexivity|].
    intros host_int input k.
    rewrite execute_fuel_mono by (vm_compute; discriminate).
    vm_compute. reflexivity.
  - intros host_int p input n vm i v Hafter Hi Hop Hptr Hv Hneg k.
    rewrite (execute_after _ _ _ _ _ _ Hafter).
    cbn [Program.loop]. unfold Program.guard, Program.iteration, Program.exec_op.
    rewrite Hi. cbn [bind]. rewrite Hop. cbn [Op_eqb negb andb].
    destruct (Z.ltb_spec (Program.ptr vm) DATA_SIZE); [|lia].
    rewrite Hv. cbn [bind]. rewrite chr_negative by assumption. reflexivity.
Qed.

(** C9 at the state of [-.] after its first instruction. *)
Lemma C9_output_of_negative_raises_witness :
  Program.after decimal_int 1 (Program.start (compiled (str "-.")) [])
  = Some (state_after 1 (str "-.") []) /\
  getitem (Program.instructions (Program.prog (state_after 1 (str "-.") [])))
          (Program.pc (state_after 1 (str "-.") []))
  = Ok (mkInstruction OpOut 0) /\
  operator (mkInstruction OpOut 0) = OpOut /\
  Program.ptr (state_after 1 (str "-.") []) < DATA_SIZE /\
  getitem (Program.data (state_after 1 (str "-.") []))
          (Program.ptr (state_after 1 (str "-.") []))
  = Ok (-1) /\
  -1 < 0 /\
  forall k,
    Program.outcome
      (Program.execute decimal_int (1 + S k) (compiled (str "-.")) [])
    = Program.Raised (if -1 <? -2147483648 then OverflowError else ValueError).
Proof.
  assert (H1 : Program.after decimal_int 1 (Program.start (compiled (str "-.")) [])
               = Some (state_after 1 (str "-.") []))
    by (apply state_after_reached; vm_compute; reflexivity).
  assert (H2 : getitem
                 (Program.instructions (Program.prog (state_after 1 (str "-.") [])))
                 (Program.pc (state_after 1 (str "-.") []))
               = Ok (mkInstruction OpOut 0))
    by (vm_compute; reflexivity).
  assert (H3 : Program.ptr (state_after 1 (str "-.") []) < DATA_SIZE)
    by (vm_compute; reflexivity).
  assert (H4 : getitem (Program.data (state_after 1 (str "-.") []))
                       (Program.ptr (state_after 1 (str "-.") []))
               = Ok (-1))
    by (vm_compute; reflexivity).
  assert (H5 : -1 < 0) by lia.
  do 2 (split; [assumption|]). split; [reflexivity|].
  do 3 (split; [assumption|]).
  exact (proj2 C9_output_of_negative_raises decimal_int _ [] 1%nat _ _ (-1)
           H1 H2 eq_refl H3 H4 H5).
Defined.

(** C10. When an execution gets to an input instruction, [execute] ends by
    [EOFError] if the environment has no line left, and by the exception of
    [int] if the line is not an integer literal: in neither case does it
    return [Failure].  Otherwise, when the data pointer addresses a cell (it
    is not below -65535), the integer is stored in the cell at the data
    pointer and the loop goes on with the next instruction. *)
Theorem C10_input_raises_or_stores
        (host_int : pystr -> Res Z) (p : Program.t) (input : list pystr)
        (n : nat) (vm : Program.VM) (i : Instruction) :
  Program.after host_int n (Program.start p input) = Some vm ->
  getitem (Program.instructions (Program.prog vm)) (Program.pc vm) = Ok i ->
  operator i = OpIn ->
  Program.ptr vm < DATA_SIZE ->
  (Program.stdin vm = [] ->
   forall k,
     Program.outcome (Program.execute host_int (n + S k) p input)
     = Program.Raised EOFError) /\
  (forall line rest e,
     Program.stdin vm = line :: rest -> host_int line = Raise e ->
     forall k,
       Program.outcome (Program.execute host_int (n + S k) p input)
       = Program.Raised e) /\
  (forall line rest v,
     Program.stdin vm = line :: rest -> host_int line = Ok v ->
     - DATA_SIZE <= Program.ptr vm ->
     exists d,
       setitem (Program.data vm) (Program.ptr vm) v = Ok d /\
       getitem d (Program.ptr vm) = Ok v /\
       Program.after host_int (S n) (Program.start p input)
       = Some (Program.mkVM (Program.prog vm) d (Program.pc vm + 1)
                            (Program.ptr vm) rest)).
Proof.
  intros Hafter Hi Hop Hptr.
  assert (Hguard : Program.guard vm = Ok true).
  { unfold Program.guard. rewrite Hi. cbn [bind]. rewrite Hop.
    destruct (Z.ltb_spec (Program.ptr vm) DATA_SIZE); [reflexivity | lia]. }
  split; [|split].
  - intros Hin k. rewrite (execute_after _ _ _ _ _ _ Hafter).
    cbn [Program.loop]. rewrite Hguard.
    unfold Program.iteration, Program.exec_op, Program.input.
    rewrite Hi. cbn [bind]. rewrite Hop, Hin. reflexivity.
  - intros line rest e Hin Hline k. rewrite (execute_after _ _ _ _ _ _ Hafter).
    cbn [Program.loop]. rewrite Hguard.
    unfold Program.iteration, Program.exec_op, Program.input.
    rewrite Hi. cbn [bind]. rewrite Hop, Hin. cbn [bind]. rewrite Hline.
    reflexivity.
  - intros line rest v Hin Hline Hlow.
    destruct (after_tape _ _ _ _ _ Hafter) as (Hlen & _ & _).
    assert (Hset : exists d, setitem (Program.data vm) (Program.ptr vm) v = Ok d /\
                             getitem d (Program.ptr vm) = Ok v).
    { destruct (Z.lt_ge_cases (Program.ptr vm) 0).
      - rewrite setitem_neg by lia. eexists. split; [reflexivity|].
        apply getitem_neg; rewrite length_insert; [lia|].
        apply list_lookup_insert_eq. lia.
      - rewrite setitem_nonneg by lia. eexists. split; [reflexivity|].
        apply getitem_nonneg; [lia|]. apply list_lookup_insert_eq. lia. }
    destruct Hset as (d & Hd & Hget). exists d. do 2 (split; [assumption|]).
    replace (S n) with (n + 1)%nat by lia.
    apply (after_add _ _ _ _ _ _ Hafter). cbn [Program.after].
    rewrite Hguard. unfold Program.iteration, Program.exec_op, Program.input.
    rewrite Hi. cbn [bind]. rewrite Hop, Hin. cbn [bind]. rewrite Hline.
    cbn [bind]. cbn [Program.with_stdin Program.data Program.ptr].
    rewrite Hd. reflexivity.
Qed.

(** C10 at [,]: no line, a line that is no literal, and the line [42]. *)
Lemma C10_input_raises_or_stores_witness :
  (Program.outcome (Program.execute decimal_int (0 + 1) (compiled (str ",")) [])
   = Program.Raised EOFError) /\
  (Program.outcome
     (Program.execute decimal_int (0 + 1) (compiled (str ",")) [str "x"])
   = Program.Raised ValueError) /\
  (exists d,
     setitem (Program.data (Program.start (compiled (str ",")) [str "42"])) 0 42
     = Ok d /\
     getitem d 0 = Ok 42 /\
     Program.after decimal_int 1 (Program.start (compiled (str ",")) [str "42"])
     = Some (Program.mkVM (compiled (str ",")) d (0 + 1) 0 [])).
Proof.
  assert (Hi : forall input,
             getitem (Program.instructions
                        (Program.prog (Program.start (compiled (str ",")) input)))
                     (Program.pc (Program.start (compiled (str ",")) input))
             = Ok (mkInstruction OpIn 0))
    by (intros input; vm_compute; reflexivity).
  assert (Hp : forall input,
             Program.ptr (Program.start (compiled (str ",")) input) < DATA_SIZE)
    by (intros input; vm_compute; reflexivity).
  split; [|split].
  - exact (proj1 (C10_input_raises_or_stores decimal_int (compiled (str ",")) []
                    0%nat _ _ eq_refl (Hi []) eq_refl (Hp []))
             eq_refl 0%nat).
  - exact (proj1 (proj2 (C10_input_raises_or_stores decimal_int
                           (compiled (str ",")) [str "x"]
                           0%nat _ _ eq_refl (Hi [str "x"]) eq_refl (Hp [str "x"])))
             (str "x") [] ValueError eq_refl eq_refl 0%nat).
  - exact (proj2 (proj2 (C10_input_raises_or_stores decimal_int
                           (compiled (str ",")) [str "42"]
                           0%nat _ _ eq_refl (Hi [str "42"]) eq_refl (Hp [str "42"])))
             (str "42") [] 42 eq_refl eq_refl ltac:(vm_compute; discriminate)).
Defined.

(** ** A negative data pointer: C8 *)

(** C8. With the data pointer at [-k], for [k] from 1 to 65535, the
    condition of the loop holds at any instruction but the terminator, and
    the iteration works on cell [65535 - k] of the tape: increment and
    decrement change that cell, output appends the character of its value,
    input stores the integer read into it; the loop then goes on at the next
    instruction. *)
Theorem C8_negative_pointer_aliases
        (host_int : pystr -> Res Z) (vm : Program.VM) (k : Z) (i : Instruction) :
  1 <= k <= DATA_SIZE ->
  Z.of_nat (length (Program.data vm)) = DATA_SIZE ->
  Program.ptr vm = - k ->
  getitem (Program.instructions (Program.prog vm)) (Program.pc vm) = Ok i ->
  operator i <> OpEnd ->
  Program.guard vm = Ok true /\
  exists v,
    Program.data vm !! Z.to_nat (DATA_SIZE - k) = Some v /\
    (operator i = OpIncVal ->
     Program.iteration host_int vm
     = Ok (Program.Next
             (Program.with_pc
                (Program.with_data vm
                   (<[Z.to_nat (DATA_SIZE - k) := v + 1]> (Program.data vm)))
                (Program.pc vm + 1)))) /\
    (operator i = OpDecVal ->
     Program.iteration host_int vm
     = Ok (Program.Next
             (Program.with_pc
                (Program.with_data vm
                   (<[Z.to_nat (DATA_SIZE - k) := v - 1]> (Program.data vm)))
                (Program.pc vm + 1)))) /\
    (operator i = OpOut ->
     forall ch, chr v = Ok ch ->
     Program.iteration host_int vm
     = Ok (Program.Next
             (Program.with_pc
                (Program.with_prog vm
                   (Program.with_print_buffer (Program.prog vm)
                      (Program.print_buffer (Program.prog vm) ++ [ch])))
                (Program.pc vm + 1)))) /\
    (operator i = OpIn ->
     forall line rest z,
       Program.stdin vm = line :: rest -> host_int line = Ok z ->
       Program.iteration host_int vm
       = Ok (Program.Next
               (Program.with_pc
                  (Program.with_data (Program.with_stdin vm rest)
                     (<[Z.to_nat (DATA_SIZE - k) := z]> (Program.data vm)))
                  (Program.pc vm + 1)))).
Proof.
  intros Hk Hlen Hptr Hi Hop.
  assert (Hidx : (Z.to_nat (DATA_SIZE - k) < length (Program.data vm))%nat) by lia.
  destruct (lookup_lt_is_Some_2 _ _ Hidx) as [v Hv].
  assert (Hget : getitem (Program.data vm) (Program.ptr vm) = Ok v).
  { apply getitem_neg; [lia|]. now rewrite Hlen, Hptr. }
  assert (Hset : forall x,
             setitem (Program.data vm) (Program.ptr vm) x
             = Ok (<[Z.to_nat (DATA_SIZE - k) := x]> (Program.data vm))).
  { intros x. rewrite setitem_neg by lia. now rewrite Hlen, Hptr. }
  split.
  - unfold Program.guard. rewrite Hi. cbn [bind].
    destruct (Z.ltb_spec (Program.ptr vm) DATA_SIZE); [|lia].
    destruct (operator i); try reflexivity. now contradiction Hop.
  - exists v. split; [exact Hv|].
    unfold Program.iteration, Program.exec_op, Program.input. rewrite Hi. cbn [bind].
    repeat split.
    + intros ->. rewrite Hget. cbn [bind]. rewrite Hset. reflexivity.
    + intros ->. rewrite Hget. cbn [bind]. rewrite Hset. reflexivity.
    + intros -> ch Hch. rewrite Hget. cbn [bind]. rewrite Hch. reflexivity.
    + intros -> line rest z Hin Hz. rewrite Hin. cbn [bind]. rewrite Hz.
      cbn [bind]. cbn [Program.with_stdin Program.data Program.ptr].
      rewrite Hset. reflexivity.
Qed.

(** C8 at the state of [<+.] after its first instruction: the increment
    goes to cell 65534. *)
Lemma C8_negative_pointer_aliases_witness :
  Program.guard (state_after 1 (str "<+.") []) = Ok true /\
  exists v,
    Program.data (state_after 1 (str "<+.") []) !! Z.to_nat (DATA_SIZE - 1)
    = Some v /\
    Program.iteration decimal_int (state_after 1 (str "<+.") [])
    = Ok (Program.Next
            (Program.with_pc
               (Program.with_data (state_after 1 (str "<+.") [])
                  (<[Z.to_nat (DATA_SIZE - 1) := v + 1]>
                     (Program.data (state_after 1 (str "<+.") []))))
               (Program.pc (state_after 1 (str "<+.") []) + 1))).
Proof.
  destruct (C8_negative_pointer_aliases decimal_int
              (state_after 1 (str "<+.") []) 1 (mkInstruction OpIncVal 0))
    as (Hg & v & Hv & Hinc & _).
  - unfold DATA_SIZE. lia.
  - vm_compute. reflexivity.
  - vm_compute. reflexivity.
  - vm_compute. reflexivity.
  - discriminate.
  - split; [exact Hg|]. exists v. split; [exact Hv|]. exact (Hinc eq_refl).
Defined.

(** The same program run to its end: it succeeds and prints the character
    of code point 1, read from cell 65534. *)
Example negative_pointer_run :
  Program.outcome (Program.execute decimal_int 4 (compiled (str "<+.")) [])
  = Program.Returned Success /\
  Program.execute_stdout (Program.execute decimal_int 4 (compiled (str "<+.")) [])
  = [[1%N]] /\
  Program.data (Program.final
                  (Program.execute decimal_int 4 (compiled (str "<+.")) []))
    !! Z.to_nat 65534 = Some 1.
Proof. split; [|split]; vm_compute; reflexivity. Qed.

(** ** Reaching the end of the tape *)

Section Iterations.
Variable host_int : pystr -> Res Z.
Variables (vm : Program.VM) (i : Instruction).
Hypothesis Hfetch :
  getitem (Program.instructions (Program.prog vm)) (Program.pc vm) = Ok i.
Hypothesis Hptr : Program.ptr vm < DATA_SIZE.

Lemma guard_holds : operator i <> OpEnd -> Program.guard vm = Ok true.
Proof.
  intros Hop. unfold Program.guard. rewrite Hfetch. cbn [bind].
  destruct (Z.ltb_spec (Program.ptr vm) DATA_SIZE); [|lia].
  destruct (operator i); try reflexivity. now contradiction Hop.
Qed.

(** An iteration on [>]. *)
Lemma after_inc_dp :
  operator i = OpIncDp ->
  Program.after host_int 1 vm
  = Some (Program.mkVM (Program.prog vm) (Program.data vm) (Program.pc vm + 1)
                       (Program.ptr vm + 1) (Program.stdin vm)).
Proof.
  intros Hop. cbn [Program.after].
  rewrite guard_holds by (rewrite Hop; discriminate).
  unfold Program.iteration, Program.exec_op. rewrite Hfetch. cbn [bind].
  rewrite Hop. reflexivity.
Qed.

(** An iteration on [+]. *)
Lemma after_inc_val (v : Z) (d : list Z) :
  operator i = OpIncVal ->
  getitem (Program.data vm) (Program.ptr vm) = Ok v ->
  setitem (Program.data vm) (Program.ptr vm) (v + 1) = Ok d ->
  Program.after host_int 1 vm
  = Some (Program.mkVM (Program.prog vm) d (Program.pc vm + 1)
                       (Program.ptr vm) (Program.stdin vm)).
Proof.
  intros Hop Hv Hd. cbn [Program.after].
  rewrite guard_holds by (rewrite Hop; discriminate).
  unfold Program.iteration, Program.exec_op. rewrite Hfetch. cbn [bind].
  rewrite Hop, Hv. cbn [bind]. rewrite Hd. reflexivity.
Qed.

(** An iteration on [[] that does not jump, on []] that jumps. *)
Lemma after_jmp_fwd_skip (v : Z) :
  operator i = OpJmpFwd ->
  getitem (Program.data vm) (Program.ptr vm) = Ok v -> v <> 0 ->
  Program.after host_int 1 vm
  = Some (Program.mkVM (Program.prog vm) (Program.data vm) (Program.pc vm + 1)
                       (Program.ptr vm) (Program.stdin vm)).
Proof.
  intros Hop Hv Hnz. cbn [Program.after].
  rewrite guard_holds by (rewrite Hop; discriminate).
  unfold Program.iteration, Program.exec_op. rewrite Hfetch. cbn [bind].
  rewrite Hop, Hv. cbn [bind].
  destruct (Z.eqb_spec v 0); [contradiction|]. now destruct vm.
Qed.

Lemma after_jmp_bck_taken (v : Z) :
  operator i = OpJmpBck ->
  getitem (Program.data vm) (Program.ptr vm) = Ok v -> v <> 0 ->
  Program.after host_int 1 vm
  = Some (Program.mkVM (Program.prog vm) (Program.data vm) (operand i + 1)
                       (Program.ptr vm) (Program.stdin vm)).
Proof.
  intros Hop Hv Hnz. cbn [Program.after].
  rewrite guard_holds by (rewrite Hop; discriminate).
  unfold Program.iteration, Program.exec_op. rewrite Hfetch. cbn [bind].
  rewrite Hop, Hv. cbn [bind].
  destruct (Z.eqb_spec v 0); [contradiction|]. reflexivity.
Qed.

End Iterations.

Section Sweep.
Variable host_int : pystr -> Res Z.
Variable input : list pystr.
Variable p : Program.t.
Hypothesis F0 : getitem (Program.instructions p) 0 = Ok (mkInstruction OpIncVal 0).
Hypothesis F1 : getitem (Program.instructions p) 1 = Ok (mkInstruction OpJmpFwd 4).
Hypothesis F2 : getitem (Program.instructions p) 2 = Ok (mkInstruction OpIncDp 0).
Hypothesis F3 : getitem (Program.instructions p) 3 = Ok (mkInstruction OpIncVal 0).
Hypothesis F4 : getitem (Program.instructions p) 4 = Ok (mkInstruction OpJmpBck 1).

Lemma ones_tape_length (k : nat) :
  (k <= Z.to_nat (DATA_SIZE - 1))%nat ->
  Z.of_nat (length (ones_tape k)) = DATA_SIZE.
Proof.
  intros H. unfold ones_tape. rewrite length_app, !length_replicate.
  unfold DATA_SIZE in *. lia.
Qed.

Lemma ones_tape_here (k : nat) : ones_tape k !! k = Some 1.
Proof.
  unfold ones_tape. rewrite lookup_app_l by (rewrite length_replicate; lia).
  apply lookup_replicate_2. lia.
Qed.

Lemma ones_tape_next (k : nat) :
  (k < Z.to_nat (DATA_SIZE - 1))%nat -> ones_tape k !! S k = Some 0.
Proof.
  intros H. unfold ones_tape.
  rewrite lookup_app_r by (rewrite length_replicate; lia).
  apply lookup_replicate_2. rewrite length_replicate. lia.
Qed.

Lemma ones_tape_set (k : nat) :
  (k < Z.to_nat (DATA_SIZE - 1))%nat ->
  <[S k := 0 + 1]> (ones_tape k) = ones_tape (S k).
Proof.
  intros H. unfold ones_tape.
  rewrite insert_app_r_alt by (rewrite length_replicate; lia).
  rewrite length_replicate, Nat.sub_diag.
  replace (Z.to_nat (DATA_SIZE - 1) - k)%nat
    with (S (Z.to_nat (DATA_SIZE - 1) - S k)) by lia.
  rewrite (replicate_S_end (S k)), <- app_assoc. reflexivity.
Qed.

(** One turn of the loop of [source_sweep]: from cell [k] to cell [k + 1]. *)
Lemma sweep_turn (k : nat) :
  (k < Z.to_nat (DATA_SIZE - 1))%nat ->
  Program.after host_int 3 (sweep_state p input k) = Some (sweep_state p input (S k)).
Proof.
  intros H.
  pose proof (ones_tape_length k ltac:(lia)) as Hlen.
  pose proof (ones_tape_length (S k) ltac:(lia)) as Hlen'.
  assert (Hk : Z.of_nat k + 1 = Z.of_nat (S k)) by lia.
  apply (after_add host_int 1 2 _
           (Program.mkVM (p) (ones_tape k) 3
                         (Z.of_nat (S k)) input)).
  { rewrite <- Hk.
    apply (after_inc_dp host_int (sweep_state p input k) _ F2); [|reflexivity].
    unfold sweep_state. cbn [Program.ptr]. unfold DATA_SIZE in *. lia. }
  apply (after_add host_int 1 1 _
           (Program.mkVM (p) (ones_tape (S k)) 4
                         (Z.of_nat (S k)) input)).
  { apply (after_inc_val host_int
             (Program.mkVM (p) (ones_tape k) 3
                           (Z.of_nat (S k)) input)
             _ F3 ltac:(cbn [Program.ptr]; unfold DATA_SIZE in *; lia) 0);
      [reflexivity| |]; cbn [Program.data Program.ptr].
    - apply getitem_nonneg; [lia|]. rewrite Nat2Z.id. now apply ones_tape_next.
    - rewrite setitem_nonneg by lia. rewrite Nat2Z.id. now rewrite ones_tape_set. }
  apply (after_jmp_bck_taken host_int
           (Program.mkVM (p) (ones_tape (S k)) 4
                         (Z.of_nat (S k)) input)
           _ F4 ltac:(cbn [Program.ptr]; unfold DATA_SIZE in *; lia) 1);
    [reflexivity| |lia]; cbn [Program.data Program.ptr].
  apply getitem_nonneg; [lia|]. rewrite Nat2Z.id. apply ones_tape_here.
Qed.

Lemma sweep_turns (k : nat) :
  (k <= Z.to_nat (DATA_SIZE - 1))%nat ->
  Program.after host_int (3 * k) (sweep_state p input 0) = Some (sweep_state p input k).
Proof.
  induction k as [|k IH]; intros H; [reflexivity|].
  replace (3 * S k)%nat with (3 * k + 3)%nat by lia.
  apply (after_add host_int _ _ _ _ _ (IH ltac:(lia))). apply sweep_turn. lia.
Qed.

(** [source_sweep] walks the data pointer to the end of the tape. *)
Lemma sweep_reaches_end :
  Program.after host_int (2 + (3 * Z.to_nat (DATA_SIZE - 1) + 1))
                (Program.start (p) input)
  = Some (Program.mkVM (p)
                       (ones_tape (Z.to_nat (DATA_SIZE - 1))) 3 DATA_SIZE input).
Proof.
  assert (Hone : ones_tape 0 = <[0%nat := 0 + 1]> (replicate (Z.to_nat DATA_SIZE) 0)).
  { unfold ones_tape.
    replace (Z.to_nat DATA_SIZE) with (S (Z.to_nat (DATA_SIZE - 1)))
      by (unfold DATA_SIZE; lia).
    rewrite Nat.sub_0_r. reflexivity. }
  apply (after_add host_int 2 _ _ (sweep_state p input 0)).
  { apply (after_add host_int 1 1 _
             (Program.mkVM (p) (ones_tape 0) 1 0 input)).
    - apply (after_inc_val host_int
               (Program.start (p) input)
               _ F0 ltac:(reflexivity) 0); [reflexivity| |];
        unfold Program.start; cbn [Program.data Program.ptr].
      + apply getitem_nonneg; [lia|]. apply lookup_replicate_2.
        unfold DATA_SIZE. lia.
      + rewrite setitem_nonneg, Hone; [reflexivity|].
        rewrite length_replicate. unfold DATA_SIZE. lia.
    - apply (after_jmp_fwd_skip host_int
               (Program.mkVM (p) (ones_tape 0) 1 0 input)
               _ F1 ltac:(reflexivity) 1);
        [reflexivity| |lia]; cbn [Program.data Program.ptr].
      apply getitem_nonneg; [lia|]. apply (ones_tape_here 0). }
  apply (after_add host_int _ 1 _ _ _ (sweep_turns _ (Nat.le_refl _))).
  replace DATA_SIZE with (Z.of_nat (Z.to_nat (DATA_SIZE - 1)) + 1) at 3
    by (unfold DATA_SIZE; lia).
  apply (after_inc_dp host_int
           (sweep_state p input (Z.to_nat (DATA_SIZE - 1))) _ F2); [|reflexivity].
  unfold sweep_state. cbn [Program.ptr]. unfold DATA_SIZE. lia.
Qed.

End Sweep.

Lemma sweep_fetch :
  getitem (Program.instructions (compiled source_sweep)) 0
  = Ok (mkInstruction OpIncVal 0) /\
  getitem (Program.instructions (compiled source_sweep)) 1
  = Ok (mkInstruction OpJmpFwd 4) /\
  getitem (Program.instructions (compiled source_sweep)) 2
  = Ok (mkInstruction OpIncDp 0) /\
  getitem (Program.instructions (compiled source_sweep)) 3
  = Ok (mkInstruction OpIncVal 0) /\
  getitem (Program.instructions (compiled source_sweep)) 4
  = Ok (mkInstruction OpJmpBck 1).
Proof.
  set (l := Program.instructions (compiled source_sweep)).
  vm_compute in l. repeat split; reflexivity.
Qed.



Lemma sweep_compiled :
  exists c,
    Program.compile Program.init source_sweep = Ok c /\
    Program.exit c = Program.Compiled /\
    Program.program c = compiled source_sweep.
Proof.
  unfold compiled.
  destruct (compile_loop_nesting source_sweep) as (p & _ & _ & _ & Hc).
  { apply nesting_check_within. vm_compute. reflexivity. }
  { vm_compute. discriminate. }
  replace (negb (depth_after source_sweep =? 0)
           || (Z.of_nat (length (commands source_sweep)) =? PROGRAM_SIZE))
    with false in Hc by (vm_compute; reflexivity).
  rewrite Hc. eexists. split; [reflexivity|]. split; reflexivity.
Qed.

(** C1 at [+[>+]]: the data pointer walks to position 65535 and [execute]
    returns [Failure]. *)
Lemma C1_tape_end_fails_witness :
  Program.ptr <$>
    Program.after decimal_int (2 + (3 * Z.to_nat (DATA_SIZE - 1) + 1))
                  (Program.start (compiled source_sweep) [])
  = Some DATA_SIZE /\
  Program.outcome
    (Program.execute decimal_int (2 + (3 * Z.to_nat (DATA_SIZE - 1) + 1) + 1)
                     (compiled source_sweep) [])
  = Program.Returned Failure.
Proof.
  destruct sweep_fetch as (F0 & F1 & F2 & F3 & F4).
  pose proof (sweep_reaches_end decimal_int [] _ F0 F1 F2 F3 F4) as Hreach.
  destruct sweep_compiled as (c & Hcomp & Hexit & Hprog).
  rewrite <- Hprog in *. split.
  - rewrite Hreach. reflexivity.
  - exact (proj2 (C1_tape_end_fails decimal_int source_sweep c Hcomp Hexit
                    _ [] _ Hreach) eq_refl 0%nat).
Defined.

(** * Further properties *)

(** ** The jump stack as a bounded list *)

Lemma stack_call_refines (s : Stack.t) (c : StackCall) :
  Stack.wf s ->
  exists s',
    stack_call s c = Ok (s', (list_call (Stack.elems s) c).2) /\
    Stack.elems s' = (list_call (Stack.elems s) c).1 /\
    Stack.wf s'.
Proof.
  intros Hwf. pose proof (Stack_elems_length s Hwf) as Hlen.
  assert (Hwf' := Hwf). destruct Hwf' as [Hp Hl]. unfold STACK_SIZE in *.
  destruct c as [a|]; simpl.
  - destruct (Nat.ltb_spec (length (Stack.elems s)) 512) as [Hlt|Hge].
    + rewrite Stack_push_ok by (assumption || unfold STACK_SIZE; lia). simpl.
      eexists. split; [reflexivity|]. split.
      * apply Stack_push_elems; [assumption | unfold STACK_SIZE; lia].
      * apply Stack_push_wf; [assumption | unfold STACK_SIZE; lia].
    + unfold Stack.push.
      destruct (Z.geb_spec (Stack.ptr s) STACK_SIZE) as [_|Hlt];
        [|unfold STACK_SIZE in Hlt; lia].
      simpl. exists s. auto.
  - destruct (snoc_cases (Stack.elems s)) as [He|(ys & y & He)].
    + rewrite He in *. simpl in *. unfold Stack.pop.
      replace (Stack.ptr s) with 0 by lia. simpl. exists s. auto.
    + destruct (Stack_pop_ok s y ys Hwf He) as (Hpop & Hel & Hw).
      rewrite Hpop, He, rev_unit. simpl. rewrite rev_involutive.
      eexists. split; [reflexivity|]. auto.
Qed.

Lemma stack_calls_refine (cs : list StackCall) :
  forall s,
    Stack.wf s ->
    exists s',
      stack_calls s cs = Ok (s', (list_calls (Stack.elems s) cs).2) /\
      Stack.elems s' = (list_calls (Stack.elems s) cs).1 /\
      Stack.wf s'.
Proof.
  induction cs as [|c cs IH]; intros s Hwf.
  - exists s. auto.
  - destruct (stack_call_refines s c Hwf) as (s1 & H1 & E1 & W1).
    destruct (IH s1 W1) as (s2 & H2 & E2 & W2).
    rewrite E1 in H2, E2.
    cbn [stack_calls list_calls]. rewrite H1. cbn [bind].
    rewrite H2. cbn [bind].
    destruct (list_call (Stack.elems s) c) as [l1 r1]. simpl in *.
    destruct (list_calls l1 cs) as [l2 rs]. simpl in *.
    exists s2. auto.
Qed.

(** X1. Whatever sequence of [push] and [pop] calls is made on a new stack,
    no call raises, the state stays within the array, and the calls return
    what they return on a list that takes at most 512 elements; the elements
    held are those of that list. *)
Theorem stack_is_bounded_list (cs : list StackCall) :
  exists s,
    stack_calls Stack.init cs = Ok (s, (list_calls [] cs).2) /\
    Stack.elems s = (list_calls [] cs).1 /\
    Stack.wf s.
Proof. exact (stack_calls_refine cs Stack.init Stack_init_wf). Qed.

Lemma list_calls_app (cs1 cs2 : list StackCall) (l : list Z) :
  list_calls l (cs1 ++ cs2) =
  ((list_calls (list_calls l cs1).1 cs2).1,
   (list_calls l cs1).2 ++ (list_calls (list_calls l cs1).1 cs2).2).
Proof.
  revert l. induction cs1 as [|c cs1 IH]; intros l; simpl.
  - now destruct (list_calls l cs2).
  - destruct (list_call l c) as [l1 r1]. rewrite IH.
    destruct (list_calls l1 cs1) as [l2 rs]. simpl.
    now destruct (list_calls l2 cs2).
Qed.

Lemma list_calls_pushes (vs : list Z) :
  forall l,
    (length l + length vs <= 512)%nat ->
    list_calls l (CallPush <$> vs) = (l ++ vs, (fun _ => PushReply None) <$> vs).
Proof.
  induction vs as [|v vs IH]; intros l H; simpl.
  - now rewrite app_nil_r.
  - simpl in H. destruct (Nat.ltb_spec (length l) 512); [|lia].
    rewrite IH by (rewrite length_app; simpl; lia).
    now rewrite <- app_assoc.
Qed.

Lemma list_calls_pops (vs : list Z) :
  forall l,
    list_calls (l ++ vs) (replicate (length vs) CallPop)
    = (l, (fun v => PopReply (Some v) None) <$> rev vs).
Proof.
  induction vs as [|v vs IH] using rev_ind; intros l; simpl.
  - now rewrite app_nil_r.
  - rewrite length_app, Nat.add_comm. simpl.
    rewrite app_assoc, rev_unit, rev_involutive, IH, rev_unit. reflexivity.
Qed.

(** X2. Last in, first out: pushing values that fit and then popping as many
    times returns them in reverse order, every call succeeding, and leaves
    the elements held as they were. *)
Theorem stack_push_pop_reverses (s : Stack.t) (vs : list Z) :
  Stack.wf s ->
  Stack.ptr s + Z.of_nat (length vs) <= STACK_SIZE ->
  exists s',
    stack_calls s ((CallPush <$> vs) ++ replicate (length vs) CallPop)
    = Ok (s', ((fun _ => PushReply None) <$> vs)
              ++ ((fun v => PopReply (Some v) None) <$> rev vs)) /\
    Stack.elems s' = Stack.elems s.
Proof.
  intros Hwf Hfit. pose proof (Stack_elems_length s Hwf) as Hlen.
  destruct (stack_calls_refine
              ((CallPush <$> vs) ++ replicate (length vs) CallPop) s Hwf)
    as (s' & Hc & He & _).
  rewrite list_calls_app, list_calls_pushes in Hc, He
    by (unfold STACK_SIZE in *; lia).
  simpl in Hc, He. rewrite list_calls_pops in Hc, He. simpl in Hc, He.
  exists s'. auto.
Qed.

(** X2 at the new stack and three positions. *)
Lemma stack_push_pop_reverses_witness :
  exists s',
    stack_calls Stack.init
      ((CallPush <$> [3; 1; 4]) ++ replicate (length [3; 1; 4]) CallPop)
    = Ok (s', ((fun _ => PushReply None) <$> [3; 1; 4])
              ++ ((fun v => PopReply (Some v) None) <$> rev [3; 1; 4])) /\
    Stack.elems s' = Stack.elems Stack.init.
Proof.
  apply (stack_push_pop_reverses Stack.init [3; 1; 4]).
  - split; [unfold STACK_SIZE; simpl; lia | reflexivity].
  - unfold STACK_SIZE. simpl. lia.
Defined.

(** X3. On the states the methods produce, [is_empty] and [is_full] answer
    for the elements held: [is_empty] exactly when there is none, which is
    when [pop] reports [UnderFlow]; [is_full] exactly when there are 512,
    which is when [push] reports [OverFlow]. *)
Theorem stack_queries_agree (s : Stack.t) (a : Z) :
  Stack.wf s ->
  (Stack.is_empty s = true <-> Stack.elems s = []) /\
  (Stack.is_empty s = true <->
   Stack.pop s = Ok (s, (None, Some UnderFlow))) /\
  (Stack.is_full s = true <-> length (Stack.elems s) = 512%nat) /\
  (Stack.is_full s = true <-> Stack.push s a = Ok (s, Some OverFlow)).
Proof.
  intros Hwf. pose proof (Stack_elems_length s Hwf) as Hlen.
  assert (Hwf' := Hwf). destruct Hwf' as [Hp Hl]. unfold STACK_SIZE in *.
  rewrite is_empty_spec, is_full_spec, Z.eqb_eq, Z.eqb_eq. unfold STACK_SIZE.
  repeat split.
  - intros H. destruct (Stack.elems s); [reflexivity | simpl in Hlen; lia].
  - intros H. rewrite H in Hlen. simpl in Hlen. lia.
  - intros H. unfold Stack.pop. now rewrite H.
  - unfold Stack.pop. destruct (Z.eqb_spec (Stack.ptr s) 0); [trivial|].
    simpl. destruct (getitem _ _); discriminate.
  - lia.
  - lia.
  - intros H. unfold Stack.push. now rewrite H.
  - unfold Stack.push.
    destruct (Z.geb_spec (Stack.ptr s) STACK_SIZE) as [Hge|Hlt];
      unfold STACK_SIZE in *; [lia|].
    rewrite setitem_nonneg by lia. discriminate.
Qed.

(** X3 at the new stack. *)
Lemma stack_queries_agree_witness :
  (Stack.is_empty Stack.init = true <-> Stack.elems Stack.init = []) /\
  (Stack.is_empty Stack.init = true <->
   Stack.pop Stack.init = Ok (Stack.init, (None, Some UnderFlow))) /\
  (Stack.is_full Stack.init = true <-> length (Stack.elems Stack.init) = 512%nat) /\
  (Stack.is_full Stack.init = true <->
   Stack.push Stack.init 7 = Ok (Stack.init, Some OverFlow)).
Proof.
  apply (stack_queries_agree Stack.init 7).
  split; [unfold STACK_SIZE; simpl; lia | reflexivity].
Defined.

(** ** The compiler on any text *)

(** X4. On a new object [compile] raises nothing, whatever the text: it
    returns one of its two statuses, and it prints its message exactly when
    it returns [Success]. *)
Theorem compile_returns (src : pystr) :
  exists c,
    Program.compile Program.init src = Ok c /\
    (Program.status (Program.exit c) = Success \/
     Program.status (Program.exit c) = Failure) /\
    Program.compile_stdout c =
      match Program.status (Program.exit c) with
      | Success => [str "Compilation successful!"]
      | Failure => []
      end.
Proof.
  pose proof (compile_follows_scan src) as H.
  destruct (abstract_scan src 0 0) as [n d| |].
  - destruct H as (ops & p & _ & _ & _ & _ & _ & _ & ->).
    destruct (negb (d =? 0) || (n =? PROGRAM_SIZE)); eexists;
      (split; [reflexivity|]); simpl; auto.
  - destruct H as (p & ->). eexists. split; [reflexivity|]. simpl. auto.
  - destruct H as (p & ->). eexists. split; [reflexivity|]. simpl. auto.
Qed.

Lemma depth_after_take_cons (c : char) (cs : pystr) (k : nat) :
  depth_after (take (S k) (c :: cs)) =
  depth_after [c] + depth_after (take k cs).
Proof. cbn [take depth_after]. lia. Qed.

(** A scan that is left below the capacity met no error on its way. *)
Lemma abstract_scan_through (cs : pystr) :
  forall n d n' d',
    abstract_scan cs n d = Through n' d' ->
    n' < PROGRAM_SIZE ->
    0 <= d <= STACK_SIZE ->
    (forall k : nat, 0 <= d + depth_after (take k cs) <= STACK_SIZE) /\
    n' = n + Z.of_nat (length (commands cs)) /\
    d' = d + depth_after cs.
Proof.
  induction cs as [|c cs IH]; intros n d n' d' H Hn Hd.
  - simpl in H. injection H as <- <-. simpl.
    split; [intros k; rewrite take_nil; simpl; lia | lia].
  - cbn [abstract_scan] in H.
    destruct (Z.ltb_spec n PROGRAM_SIZE); cbn [negb] in H;
      [|injection H as <- <-; lia].
    rewrite commands_cons, depth_after_cons.
    assert (Hcons : forall delta,
               depth_after [c] = delta ->
               0 <= d + delta <= STACK_SIZE ->
               (forall k : nat,
                   0 <= d + delta + depth_after (take k cs) <= STACK_SIZE) ->
               forall k : nat,
                 0 <= d + depth_after (take k (c :: cs)) <= STACK_SIZE).
    { intros delta Hdelta Hb Hk [|k].
      - simpl. lia.
      - rewrite depth_after_take_cons, Hdelta. specialize (Hk k). lia. }
    pose proof (depth_after_cons c []) as Hc. cbn [depth_after] in Hc.
    destruct (op_of_char c) as [o|].
    2:{ destruct (IH _ _ _ _ H Hn Hd) as (Hk & -> & ->).
        split; [|lia]. apply (Hcons 0); [cbn [depth_after]; lia | lia|].
        intros k. specialize (Hk k). lia. }
    destruct o;
      try (destruct (IH _ _ _ _ H Hn Hd) as (Hk & -> & ->);
           split; [|simpl; lia];
           apply (Hcons 0); [cbn [depth_after]; lia | lia|];
           intros k; specialize (Hk k); lia).
    + destruct (Z.eqb_spec d STACK_SIZE); [discriminate|].
      destruct (IH _ _ _ _ H Hn ltac:(lia)) as (Hk & -> & ->).
      split; [|simpl; lia].
      apply (Hcons 1); [cbn [depth_after]; lia | lia | exact Hk].
    + destruct (Z.eqb_spec d 0); [discriminate|].
      destruct (IH _ _ _ _ H Hn ltac:(lia)) as (Hk & -> & ->).
      split; [|simpl; lia].
      apply (Hcons (-1)); [cbn [depth_after]; lia | lia|].
      intros k. specialize (Hk k). lia.
Qed.

(** X5. The texts that [compile] accepts on a new object are exactly those
    in which no prefix closes more brackets than it opens or has more than
    512 brackets open, every bracket is closed at the end, and there are
    fewer than 4096 command characters. *)
Theorem compile_accepts_iff (src : pystr) :
  (exists c, Program.compile Program.init src = Ok c /\
             Program.status (Program.exit c) = Success) <->
  (nesting_within 0 STACK_SIZE src /\ depth_after src = 0 /\
   Z.of_nat (length (commands src)) < PROGRAM_SIZE).
Proof.
  split.
  - intros (c & Hc & Hs). pose proof (compile_follows_scan src) as H.
    destruct (abstract_scan src 0 0) as [n d| |] eqn:E;
      [|destruct H as (p & H); rewrite H in Hc; injection Hc as <-; discriminate..].
    destruct H as (ops & p & _ & Hinv & Hops & _ & _ & _ & H). rewrite H in Hc.
    destruct (negb (d =? 0) || (n =? PROGRAM_SIZE)) eqn:B;
      [injection Hc as <-; discriminate|].
    apply orb_false_elim in B as [B1 B2].
    apply negb_false_iff, Z.eqb_eq in B1. apply Z.eqb_neq in B2.
    pose proof (lay_capacity _ _ (cp_layout _ _ Hinv)) as Hcap.
    assert (Hn : n < PROGRAM_SIZE) by lia.
    destruct (abstract_scan_through src 0 0 n d E Hn
                ltac:(unfold STACK_SIZE; lia)) as (Hk & Hlen & Hdep).
    split; [|split].
    + intros k. specialize (Hk k). lia.
    + lia.
    + lia.
  - intros (Hnest & Hd & Hlen).
    destruct (compile_loop_nesting src Hnest ltac:(lia)) as (p & _ & _ & _ & Hc).
    rewrite Hd in Hc. simpl in Hc.
    destruct (Z.eqb_spec (Z.of_nat (length (commands src))) PROGRAM_SIZE); [lia|].
    eexists. split; [exact Hc | reflexivity].
Qed.

(** X6. After a successful [compile] on a new object the instruction array
    holds, in order, the operators of the command characters of the text,
    then the terminator, then [Unknown] up to its 4096 places; the jump
    stack is empty again and the print buffer is still empty. *)
Theorem compile_emits_commands (src : pystr) (c : Program.Compilation) :
  Program.compile Program.init src = Ok c ->
  Program.exit c = Program.Compiled ->
  operator <$> Program.instructions (Program.program c)
  = commands src
    ++ OpEnd :: replicate (Z.to_nat PROGRAM_SIZE - S (length (commands src))) Unknown /\
  Stack.elems (Program.stack (Program.program c)) = [] /\
  Program.print_buffer (Program.program c) = [].
Proof.
  intros Hc Hexit.
  destruct (compile_success _ _ Hc Hexit) as (p & Hinv & Hroom & Hptr & Hpb & ->).
  simpl. destruct Hinv as [[Hcap Hsize Hops Hrest Hcmd] Hwf _ _ _].
  split; [|split; [|exact Hpb]].
  - apply list_eq. intros k. rewrite list_lookup_fmap.
    destruct (Nat.lt_trichotomy k (length (commands src))) as [Hlt|[->|Hgt]].
    + rewrite list_lookup_insert_ne, lookup_app_l by lia.
      destruct (lookup_lt_is_Some_2 (commands src) k Hlt) as [o Ho].
      destruct (Hops _ _ Ho) as [m Hm]. now rewrite Hm, Ho.
    + rewrite list_lookup_insert_eq, lookup_app_r by lia.
      now rewrite Nat.sub_diag.
    + rewrite list_lookup_insert_ne, lookup_app_r by lia.
      destruct (k - length (commands src))%nat as [|j] eqn:Ej; [lia|].
      cbn [lookup list_lookup].
      destruct (Nat.lt_ge_cases k (Z.to_nat PROGRAM_SIZE)) as [Hin|Hout].
      * rewrite Hrest by lia. cbn [fmap option_fmap option_map operator].
        symmetry. apply lookup_replicate_2. unfold PROGRAM_SIZE in *. lia.
      * rewrite (proj2 (lookup_ge_None _ _)) by lia.
        cbn [fmap option_fmap option_map]. symmetry.
        apply lookup_replicate_None. unfold PROGRAM_SIZE in *. lia.
  - pose proof (Stack_elems_length _ Hwf) as Hlen. rewrite Hptr in Hlen.
    destruct (Stack.elems (Program.stack p)); [reflexivity | simpl in Hlen; lia].
Qed.

(** X6 at the sample program. *)
Lemma compile_emits_commands_witness :
  exists c,
    Program.compile Program.init source_at = Ok c /\
    Program.exit c = Program.Compiled /\
    operator <$> Program.instructions (Program.program c)
    = commands source_at
      ++ OpEnd :: replicate (Z.to_nat PROGRAM_SIZE - S (length (commands source_at)))
                            Unknown /\
    Stack.elems (Program.stack (Program.program c)) = [] /\
    Program.print_buffer (Program.program c) = [].
Proof.
  destruct (compile_loop_nesting source_at) as (p & _ & _ & _ & Hc).
  { apply nesting_check_within. vm_compute. reflexivity. }
  { vm_compute. discriminate. }
  replace (negb (depth_after source_at =? 0)
           || (Z.of_nat (length (commands source_at)) =? PROGRAM_SIZE))
    with false in Hc by (vm_compute; reflexivity).
  eexists. split; [exact Hc|]. split; [reflexivity|].
  exact (compile_emits_commands source_at _ Hc eq_refl).
Defined.

Lemma compile_loop_command_text (cs : pystr) :
  forall pc p,
    Program.compile_loop (command_text cs) pc p = Program.compile_loop cs pc p.
Proof.
  induction cs as [|c cs IH]; intros pc p; [reflexivity|].
  unfold command_text in *. cbn [List.filter Program.compile_loop].
  destruct (op_of_char c) as [o|] eqn:Ec.
  - cbn [Program.compile_loop].
    destruct (negb (pc <? PROGRAM_SIZE)); [reflexivity|].
    destruct (Program.compile_char c pc p) as [[pc' p'|e p']|e]; simpl;
      [apply IH | reflexivity | reflexivity].
  - rewrite IH. destruct (Z.ltb_spec pc PROGRAM_SIZE); cbn [negb].
    + rewrite op_of_char_cases, Ec. cbn [bind].
      now replace (pc - 1 + 1) with pc by lia.
    + now apply compile_loop_full.
Qed.

(** X7. Only the command characters of a text count: [compile] gives the
    same result, and leaves the same object, on a text and on the text with
    all other characters removed. *)
Theorem compile_ignores_comments (src : pystr) :
  Program.compile Program.init src
  = Program.compile Program.init (command_text src).
Proof.
  unfold Program.compile.
  now rewrite !compile_loop_strip, compile_loop_command_text.
Qed.

(** X8. When nothing fails earlier (the text before it nests within the 512
    places of the stack and has fewer than 4096 commands), an opening
    bracket met with 512 brackets open makes [compile] return [Failure] at
    line 109, whatever follows. *)
Theorem compile_nesting_overflow (pre post : pystr) :
  nesting_within 0 STACK_SIZE pre ->
  depth_after pre = STACK_SIZE ->
  Z.of_nat (length (commands pre)) < PROGRAM_SIZE ->
  exists p,
    Program.compile Program.init (pre ++ code "[" :: post)
    = Ok (Program.mkCompilation Program.StackFull p []) /\
    Program.status Program.StackFull = Failure.
Proof.
  intros Hnest Hd Hlen.
  destruct (compile_loop_nesting pre Hnest ltac:(lia))
    as (p & Hloop & Hinv & Hptr & _).
  unfold Program.compile.
  rewrite compile_loop_strip, compile_loop_app, Hloop. cbn [bind].
  cbn [Program.compile_loop].
  destruct (Z.ltb_spec (Z.of_nat (length (commands pre))) PROGRAM_SIZE); [|lia].
  cbn [negb]. rewrite op_of_char_cases.
  change (op_of_char (code "[")) with (Some OpJmpFwd). cbn iota.
  destruct (open_step _ _ Hinv Hlen) as [[_ (p' & ->)]|[Hlt _]].
  - cbn [bind]. eauto.
  - rewrite Hptr, Hd in Hlt. lia.
Qed.

(** X8 at 512 opening brackets followed by one more. *)
Lemma compile_nesting_overflow_witness :
  exists p,
    Program.compile Program.init (source_nest ++ code "[" :: str "+")
    = Ok (Program.mkCompilation Program.StackFull p []) /\
    Program.status Program.StackFull = Failure.
Proof.
  apply (compile_nesting_overflow source_nest (str "+")).
  - apply nesting_check_within. vm_compute. reflexivity.
  - vm_compute. reflexivity.
  - vm_compute. reflexivity.
Defined.

(** ** How the loop of the virtual machine is left *)

Section Leaving.
Variable host_int : pystr -> Res Z.

(** The state the loop gives back was reached by its iterations, and what
    ended the loop happened there. *)
Lemma loop_last (fuel : nat) :
  forall vm b vm',
    Program.loop host_int fuel vm = (b, vm') ->
    exists m,
      Program.after host_int m vm = Some vm' /\
      match b with
      | Program.LoopFuel => True
      | Program.LoopExit => Program.guard vm' = Ok false
      | Program.LoopRaise e =>
          Program.guard vm' = Raise e \/
          (Program.guard vm' = Ok true /\
           Program.iteration host_int vm' = Raise e)
      | Program.LoopReturn st =>
          Program.guard vm' = Ok true /\
          Program.iteration host_int vm' = Ok (Program.Return st)
      end.
Proof.
  induction fuel as [|fuel IH]; intros vm b vm' H; simpl in H.
  - injection H as <- <-. exists 0%nat. split; [reflexivity | trivial].
  - destruct (Program.guard vm) as [[|]|e] eqn:Eg.
    + destruct (Program.iteration host_int vm) as [[vm1|st]|e] eqn:Ei.
      * destruct (IH _ _ _ H) as (m & Hm & Hb). exists (S m).
        split; [|exact Hb]. simpl. now rewrite Eg, Ei.
      * injection H as <- <-. exists 0%nat. split; [reflexivity | auto].
      * injection H as <- <-. exists 0%nat. split; [reflexivity | auto].
    + injection H as <- <-. exists 0%nat. split; [reflexivity | exact Eg].
    + injection H as <- <-. exists 0%nat. split; [reflexivity | auto].
Qed.

(** What the [match] of one iteration does to the object. *)
Lemma exec_op_object (vm vm' : Program.VM) :
  Program.exec_op host_int vm = Ok (Program.Next vm') ->
  Program.stack (Program.prog vm') = Program.stack (Program.prog vm) /\
  exists out,
    Program.print_buffer (Program.prog vm')
    = Program.print_buffer (Program.prog vm) ++ out.
Proof.
  unfold Program.exec_op, Program.input, bind. intros H.
  repeat case_match; simplify_eq; simpl;
    (split; [reflexivity|]);
    solve [exists []; now rewrite app_nil_r | eauto].
Qed.

Lemma after_object (n : nat) (p : Program.t) (input : list pystr) (vm : Program.VM) :
  Program.after host_int n (Program.start p input) = Some vm ->
  Program.stack (Program.prog vm) = Program.stack p /\
  exists out,
    Program.print_buffer (Program.prog vm) = Program.print_buffer p ++ out.
Proof.
  apply (after_invariant host_int
           (fun vm => Program.stack (Program.prog vm) = Program.stack p /\
                      exists out,
                        Program.print_buffer (Program.prog vm)
                        = Program.print_buffer p ++ out)).
  - intros v v' (Hs & out & Hb) _ Hit.
    unfold Program.iteration, bind in Hit.
    destruct (Program.exec_op host_int v) as [[v1|st]|e] eqn:E; simplify_eq.
    apply exec_op_object in E as (Hs' & out' & Hb'). simpl.
    split; [congruence|]. exists (out ++ out'). now rewrite Hb', Hb, app_assoc.
  - split; [reflexivity|]. exists []. now rewrite app_nil_r.
Qed.

(** X9. [execute] only ever appends to the print buffer of the object and
    never empties it, and it leaves the jump stack alone; when it returns
    [Success], what it prints is the whole buffer, what was in it before the
    call included. *)
Theorem execute_appends_output
        (fuel : nat) (p : Program.t) (input : list pystr) :
  exists out,
    Program.print_buffer
      (Program.prog (Program.final (Program.execute host_int fuel p input)))
    = Program.print_buffer p ++ out /\
    Program.stack
      (Program.prog (Program.final (Program.execute host_int fuel p input)))
    = Program.stack p /\
    (Program.outcome (Program.execute host_int fuel p input)
     = Program.Returned Success ->
     Program.execute_stdout (Program.execute host_int fuel p input)
     = [Program.print_buffer p ++ out]).
Proof.
  unfold Program.execute.
  destruct (Program.loop host_int fuel (Program.start p input)) as [b vm] eqn:E.
  destruct (loop_last _ _ _ _ E) as (m & Hm & _).
  destruct (after_object _ _ _ _ Hm) as (Hs & out & Hb).
  exists out. rewrite conclude_final.
  split; [exact Hb|]. split; [exact Hs|].
  unfold Program.conclude. destruct b; simpl; try discriminate.
  - destruct (negb (Program.ptr vm =? DATA_SIZE)); simpl; [|discriminate].
    destruct (print (Program.print_buffer (Program.prog vm))) as [line|e] eqn:P;
      simpl; [|discriminate].
    intros _. apply print_Ok in P. now rewrite P, Hb.
  - intros [= ->].
    exfalso. (* the only status the loop itself returns is [Failure] *)
    destruct (loop_last _ _ _ _ E) as (m' & _ & _ & Hret).
    unfold Program.iteration, Program.exec_op, Program.input, bind in Hret.
    repeat case_match; simplify_eq.
Qed.

End Leaving.

(** ** Compiled programs stay inside their instructions *)

Lemma compiled_program (src : pystr) (c : Program.Compilation) :
  Program.compile Program.init src = Ok c -> compiled src = Program.program c.
Proof. intros H. unfold compiled. now rewrite H. Qed.

(** The instruction at each position up to the terminator. *)
Lemma compiled_fetch (src : pystr) (c : Program.Compilation) (k : Z) :
  Program.compile Program.init src = Ok c ->
  Program.exit c = Program.Compiled ->
  0 <= k <= Z.of_nat (length (commands src)) ->
  exists ins,
    getitem (Program.instructions (Program.program c)) k = Ok ins /\
    Program.instructions (Program.program c) !! Z.to_nat k = Some ins /\
    (k = Z.of_nat (length (commands src)) -> ins = mkInstruction OpEnd 0) /\
    (k < Z.of_nat (length (commands src)) ->
     commands src !! Z.to_nat k = Some (operator ins)).
Proof.
  intros Hc Hexit Hk.
  destruct (compile_success _ _ Hc Hexit) as (p & Hinv & Hroom & _ & _ & ->).
  simpl. destruct Hinv as [[Hcap Hsize Hops Hrest Hcmd] _ _ _ _].
  destruct (Z.eq_dec k (Z.of_nat (length (commands src)))) as [->|Hne].
  - rewrite Nat2Z.id. eexists. split; [|split; [|split; [reflexivity | lia]]].
    + apply getitem_nonneg; [lia|]. rewrite Nat2Z.id.
      apply list_lookup_insert_eq. lia.
    + apply list_lookup_insert_eq. lia.
  - destruct (lookup_lt_is_Some_2 (commands src) (Z.to_nat k) ltac:(lia))
      as [o Ho].
    destruct (Hops _ _ Ho) as [m Hm].
    assert (Hl : <[length (commands src) := mkInstruction OpEnd 0]>
                   (Program.instructions p) !! Z.to_nat k
                 = Some (mkInstruction o m)).
    { rewrite list_lookup_insert_ne by lia. exact Hm. }
    exists (mkInstruction o m).
    split; [apply getitem_nonneg; [lia | exact Hl]|].
    split; [exact Hl|]. split; [lia | intros _; exact Ho].
Qed.


Section Inside.
Variable host_int : pystr -> Res Z.
Variables (src : pystr) (c : Program.Compilation).
Hypothesis Hcompile : Program.compile Program.init src = Ok c.
Hypothesis Hexit : Program.exit c = Program.Compiled.



End Inside.


(** ** Jumps at run time *)

Section Jumps.
Variable host_int : pystr -> Res Z.
Variables (src : pystr) (c : Program.Compilation).
Hypothesis Hcompile : Program.compile Program.init src = Ok c.
Hypothesis Hexit : Program.exit c = Program.Compiled.

(** X11. Brackets are loops.  At a reached state whose instruction is a
    jump-if-zero, the next iteration starts right after the jump-if-nonzero
    linked with it (the one that bracket matching by counting finds for it)
    when the current cell is 0, and at the next instruction otherwise; at a
    jump-if-nonzero it starts right after the jump-if-zero linked with it
    when the current cell is not 0, and at the next instruction otherwise.
    Nothing else changes. *)
Theorem jumps_follow_brackets
        (n : nat) (input : list pystr) (vm : Program.VM) (i : Instruction) (v : Z) :
  Program.after host_int n (Program.start (Program.program c) input) = Some vm ->
  getitem (Program.instructions (Program.program c)) (Program.pc vm) = Ok i ->
  Program.ptr vm < DATA_SIZE ->
  getitem (Program.data vm) (Program.ptr vm) = Ok v ->
  (operator i = OpJmpFwd ->
   exists j,
     linked (operator <$> Program.instructions (Program.program c))
            (Program.instructions (Program.program c))
            (Z.to_nat (Program.pc vm)) j /\
     Program.after host_int (S n) (Program.start (Program.program c) input)
     = Some (Program.with_pc vm
               (if v =? 0 then Z.of_nat j + 1 else Program.pc vm + 1))) /\
  (operator i = OpJmpBck ->
   exists k,
     linked (operator <$> Program.instructions (Program.program c))
            (Program.instructions (Program.program c))
            k (Z.to_nat (Program.pc vm)) /\
     Program.after host_int (S n) (Program.start (Program.program c) input)
     = Some (Program.with_pc vm
               (if v =? 0 then Program.pc vm + 1 else Z.of_nat k + 1))).
Proof.
  intros Hafter Hi Hptr Hv.
  destruct (after_pc host_int _ _ Hcompile Hexit _ _ _ Hafter) as [Hpc Hins].
  destruct (compiled_fetch _ _ (Program.pc vm) Hcompile Hexit Hpc)
    as (ins & Hget & Hl & _ & _).
  rewrite Hi in Hget. injection Hget as <-.
  assert (Hlinks :
            (operator i = OpJmpFwd ->
             exists j, linked (operator <$> Program.instructions (Program.program c))
                              (Program.instructions (Program.program c))
                              (Z.to_nat (Program.pc vm)) j) /\
            (operator i = OpJmpBck ->
             exists k, linked (operator <$> Program.instructions (Program.program c))
                              (Program.instructions (Program.program c))
                              k (Z.to_nat (Program.pc vm)))).
  { destruct (compile_success _ _ Hcompile Hexit)
      as (p & Hinv & Hroom & Hp & _ & Ec).
    rewrite Ec in Hl |- *. simpl in Hl |- *.
    destruct (terminated_links _ p Hinv Hroom Hp) as [Hf Hb].
    split; intros Hop.
    - destruct (Hf _ _ Hl Hop) as (j & _ & H). eauto.
    - destruct (Hb _ _ Hl Hop) as (k & _ & H). eauto. }
  assert (Hstep : forall vm',
             Program.iteration host_int vm = Ok (Program.Next vm') ->
             operator i <> OpEnd ->
             Program.after host_int (S n)
                           (Program.start (Program.program c) input)
             = Some vm').
  { intros vm' Hit Hop. replace (S n) with (n + 1)%nat by lia.
    apply (after_add _ _ _ _ _ _ Hafter). cbn [Program.after].
    rewrite (guard_holds vm i ltac:(now rewrite Hins) Hptr Hop), Hit.
    reflexivity. }
  split; intros Hop.
  - destruct (proj1 Hlinks Hop) as (j & Hlink). exists j.
    split; [exact Hlink|]. destruct Hlink as (Hlj & _ & _).
    apply Hstep; [|rewrite Hop; discriminate].
    rewrite Hl in Hlj. injection Hlj as Hij.
    unfold Program.iteration, Program.exec_op. rewrite Hins, Hi. cbn [bind].
    rewrite Hop, Hv. cbn [bind]. rewrite Hij. cbn [operand].
    now destruct (v =? 0).
  - destruct (proj2 Hlinks Hop) as (k & Hlink). exists k.
    split; [exact Hlink|]. destruct Hlink as (_ & Hlk & _).
    apply Hstep; [|rewrite Hop; discriminate].
    rewrite Hl in Hlk. injection Hlk as Hik.
    unfold Program.iteration, Program.exec_op. rewrite Hins, Hi. cbn [bind].
    rewrite Hop, Hv. cbn [bind]. rewrite Hik. cbn [operand].
    now destruct (v =? 0).
Qed.

End Jumps.

(** X11 at the closing bracket of the sample program, the first time it is
    reached: the cell holds 7 and the loop goes back to position 9. *)
Lemma jumps_follow_brackets_witness :
  exists k,
    linked (operator <$> Program.instructions (compiled source_at))
           (Program.instructions (compiled source_at))
           k (Z.to_nat (Program.pc (state_after 20 source_at []))) /\
    Program.after decimal_int 21 (Program.start (compiled source_at) [])
    = Some (Program.with_pc (state_after 20 source_at [])
              (if 7 =? 0
               then Program.pc (state_after 20 source_at []) + 1
               else Z.of_nat k + 1)).
Proof.
  destruct (compile_loop_nesting source_at) as (p & _ & _ & _ & Hc).
  { apply nesting_check_within. vm_compute. reflexivity. }
  { vm_compute. discriminate. }
  replace (negb (depth_after source_at =? 0)
           || (Z.of_nat (length (commands source_at)) =? PROGRAM_SIZE))
    with false in Hc by (vm_compute; reflexivity).
  assert (H1 : Program.after decimal_int 20 (Program.start (compiled source_at) [])
               = Some (state_after 20 source_at []))
    by (apply state_after_reached; vm_compute; reflexivity).
  assert (H2 : getitem (Program.instructions (compiled source_at))
                       (Program.pc (state_after 20 source_at []))
               = Ok (mkInstruction OpJmpBck 8))
    by (vm_compute; reflexivity).
  assert (H3 : Program.ptr (state_after 20 source_at []) < DATA_SIZE)
    by (vm_compute; reflexivity).
  assert (H4 : getitem (Program.data (state_after 20 source_at []))
                       (Program.ptr (state_after 20 source_at []))
               = Ok 7)
    by (vm_compute; reflexivity).
  rewrite (compiled_program _ _ Hc) in *.
  exact (proj2 (jumps_follow_brackets decimal_int source_at _ Hc eq_refl
                  20 [] _ _ 7 H1 H2 H3 H4) eq_refl).
Defined.

(** ** Programs without brackets *)

Lemma depth_after_flat (cs : pystr) :
  Forall (fun x => op_of_char x <> Some OpJmpFwd /\ op_of_char x <> Some OpJmpBck) cs ->
  depth_after cs = 0.
Proof.
  induction 1 as [|x cs [Hf Hb] _ IH]; [reflexivity|].
  rewrite depth_after_cons, IH.
  destruct (op_of_char x) as [[]|]; try congruence; reflexivity.
Qed.

Lemma nesting_flat (cs : pystr) :
  Forall (fun x => op_of_char x <> Some OpJmpFwd /\ op_of_char x <> Some OpJmpBck) cs ->
  nesting_within 0 STACK_SIZE cs.
Proof.
  intros H k. rewrite depth_after_flat; [unfold STACK_SIZE; lia|].
  now apply Forall_take.
Qed.

Lemma commands_nil_flat (cs : pystr) :
  commands cs = [] ->
  Forall (fun x => op_of_char x <> Some OpJmpFwd /\ op_of_char x <> Some OpJmpBck) cs.
Proof.
  induction cs as [|x cs IH]; [constructor|].
  rewrite commands_cons. destruct (op_of_char x) eqn:E; [discriminate|].
  intros H. constructor; [rewrite E; split; discriminate | now apply IH].
Qed.

(** Compiling a text without brackets that fits. *)
Lemma compile_flat (src : pystr) :
  Forall (fun x => op_of_char x <> Some OpJmpFwd /\ op_of_char x <> Some OpJmpBck) src ->
  Z.of_nat (length (commands src)) < PROGRAM_SIZE ->
  exists c,
    Program.compile Program.init src = Ok c /\
    Program.exit c = Program.Compiled.
Proof.
  intros Hflat Hlen.
  destruct (compile_loop_nesting src (nesting_flat _ Hflat) ltac:(lia))
    as (p & _ & _ & _ & Hc).
  rewrite (depth_after_flat _ Hflat) in Hc. simpl in Hc.
  destruct (Z.eqb_spec (Z.of_nat (length (commands src))) PROGRAM_SIZE); [lia|].
  eexists. split; [exact Hc | reflexivity].
Qed.

(** X12. A text with no command character (the empty text, prose) is a
    program: [compile] returns [Success], and [execute] returns [Success] at
    once, printing the empty buffer and reading no input. *)
Theorem comment_only_program
        (host_int : pystr -> Res Z) (src : pystr) (input : list pystr) (k : nat) :
  commands src = [] ->
  exists c,
    Program.compile Program.init src = Ok c /\
    Program.status (Program.exit c) = Success /\
    Program.outcome (Program.execute host_int (S k) (Program.program c) input)
    = Program.Returned Success /\
    Program.execute_stdout
      (Program.execute host_int (S k) (Program.program c) input)
    = [[]] /\
    Program.stdin
      (Program.final (Program.execute host_int (S k) (Program.program c) input))
    = input.
Proof.
  intros Hnone.
  destruct (compile_flat src (commands_nil_flat _ Hnone)) as (c & Hc & Hexit).
  { rewrite Hnone. unfold PROGRAM_SIZE. simpl. lia. }
  exists c. split; [exact Hc|]. split; [now rewrite Hexit|].
  destruct (compiled_fetch _ _ 0 Hc Hexit ltac:(lia))
    as (ins & Hget & _ & Hend & _).
  rewrite Hnone in Hend. rewrite (Hend eq_refl) in Hget.
  destruct (compile_success _ _ Hc Hexit) as (p & _ & _ & _ & Hpb & Ec).
  assert (Hbuf : Program.print_buffer (Program.program c) = []).
  { rewrite Ec. exact Hpb. }
  assert (Hrun : Program.execute host_int (S k) (Program.program c) input
                 = Program.mkExecution (Program.Returned Success)
                     (Program.start (Program.program c) input) [[]]).
  { unfold Program.execute. cbn [Program.loop]. unfold Program.guard.
    unfold Program.start. cbn [Program.prog Program.pc Program.ptr].
    rewrite Hget. cbn [bind operator Op_eqb negb andb Program.conclude].
    cbn [Program.ptr Program.prog].
    change (negb (0 =? DATA_SIZE)) with true. cbn iota. now rewrite Hbuf. }
  rewrite Hrun. auto.
Qed.

(** X12 at a line of prose. *)
Lemma comment_only_program_witness :
  exists c,
    Program.compile Program.init source_prose = Ok c /\
    Program.status (Program.exit c) = Success /\
    Program.outcome (Program.execute decimal_int 1 (Program.program c) [str "1"])
    = Program.Returned Success /\
    Program.execute_stdout
      (Program.execute decimal_int 1 (Program.program c) [str "1"])
    = [[]] /\
    Program.stdin
      (Program.final (Program.execute decimal_int 1 (Program.program c) [str "1"]))
    = [str "1"].
Proof.
  apply (comment_only_program decimal_int source_prose [str "1"] 0).
  vm_compute. reflexivity.
Defined.

(** ** Counting up and printing *)

(** An iteration on [.]. *)
Lemma after_out (host_int : pystr -> Res Z) (vm : Program.VM)
      (i : Instruction) (v : Z) (ch : char) :
  getitem (Program.instructions (Program.prog vm)) (Program.pc vm) = Ok i ->
  Program.ptr vm < DATA_SIZE ->
  operator i = OpOut ->
  getitem (Program.data vm) (Program.ptr vm) = Ok v ->
  chr v = Ok ch ->
  Program.after host_int 1 vm
  = Some (Program.mkVM
            (Program.with_print_buffer (Program.prog vm)
               (Program.print_buffer (Program.prog vm) ++ [ch]))
            (Program.data vm) (Program.pc vm + 1) (Program.ptr vm)
            (Program.stdin vm)).
Proof.
  intros Hfetch Hptr Hop Hv Hch. cbn [Program.after].
  rewrite (guard_holds vm i Hfetch Hptr) by (rewrite Hop; discriminate).
  unfold Program.iteration, Program.exec_op. rewrite Hfetch. cbn [bind].
  rewrite Hop, Hv. cbn [bind]. rewrite Hch. reflexivity.
Qed.

Lemma commands_count (n : nat) :
  commands (source_count n) = replicate n OpIncVal ++ [OpOut].
Proof.
  unfold source_count. induction n as [|n IH]; [reflexivity|].
  cbn [replicate app]. rewrite commands_cons.
  change (op_of_char (code "+")) with (Some OpIncVal). now rewrite IH.
Qed.

Lemma source_count_flat (n : nat) :
  Forall (fun x => op_of_char x <> Some OpJmpFwd /\ op_of_char x <> Some OpJmpBck)
         (source_count n).
Proof.
  unfold source_count. apply Forall_app. split.
  - apply Forall_replicate. split; discriminate.
  - constructor; [split; discriminate | constructor].
Qed.

Section Counting.
Variable host_int : pystr -> Res Z.
Variable input : list pystr.
Variables (n : nat) (c : Program.Compilation).
Hypothesis Hcompile : Program.compile Program.init (source_count n) = Ok c.
Hypothesis Hexit : Program.exit c = Program.Compiled.

Lemma count_fetch (k : nat) :
  (k <= S n)%nat ->
  exists m,
    getitem (Program.instructions (Program.program c)) (Z.of_nat k)
    = Ok (mkInstruction
            (if (k <? n)%nat then OpIncVal
             else if (k =? n)%nat then OpOut else OpEnd) m).
Proof.
  intros Hk.
  assert (Hlen : length (commands (source_count n)) = S n).
  { rewrite commands_count, length_app, length_replicate. simpl. lia. }
  destruct (compiled_fetch _ _ (Z.of_nat k) Hcompile Hexit ltac:(lia))
    as (ins & Hget & _ & Hend & Hcmd).
  rewrite Hlen in Hend, Hcmd. rewrite Nat2Z.id in Hcmd.
  rewrite Hget. destruct ins as [o m]. exists m. do 2 f_equal.
  destruct (Nat.ltb_spec k n); [|destruct (Nat.eqb_spec k n)].
  - specialize (Hcmd ltac:(lia)). rewrite commands_count in Hcmd.
    rewrite lookup_app_l in Hcmd by (rewrite length_replicate; lia).
    apply lookup_replicate in Hcmd as [Ho _]. exact Ho.
  - specialize (Hcmd ltac:(lia)). rewrite commands_count in Hcmd.
    rewrite lookup_app_r in Hcmd by (rewrite length_replicate; lia).
    rewrite length_replicate in Hcmd.
    replace (k - n)%nat with 0%nat in Hcmd by lia. now injection Hcmd as <-.
  - specialize (Hend ltac:(lia)). now injection Hend as -> _.
Qed.

Lemma count_steps (k : nat) :
  (k <= n)%nat ->
  Program.after host_int k (Program.start (Program.program c) input)
  = Some (count_state (Program.program c) input k).
Proof.
  assert (Hz : (0 < length (replicate (Z.to_nat DATA_SIZE) 0))%nat).
  { rewrite length_replicate. unfold DATA_SIZE. lia. }
  induction k as [|k IH]; intros Hk.
  - cbn [Program.after]. unfold count_state, Program.start.
    rewrite list_insert_id; [reflexivity|]. apply lookup_replicate_2.
    unfold DATA_SIZE. lia.
  - replace (S k) with (k + 1)%nat by lia.
    apply (after_add _ _ _ _ _ _ (IH ltac:(lia))).
    destruct (count_fetch k ltac:(lia)) as (m & Hf).
    destruct (Nat.ltb_spec k n); [|lia].
    unfold count_state at 2.
    replace (Z.of_nat (k + 1)) with (Z.of_nat k + 1) by lia.
    apply (after_inc_val host_int (count_state (Program.program c) input k)
             _ Hf ltac:(reflexivity) (Z.of_nat k)); [reflexivity| |];
      unfold count_state; cbn [Program.data Program.ptr].
    + apply getitem_nonneg; [lia|]. now apply list_lookup_insert_eq.
    + rewrite setitem_nonneg
        by (rewrite length_insert, length_replicate; unfold DATA_SIZE; lia).
      now rewrite list_insert_insert_eq.
Qed.

Lemma chr_of_nat (m : nat) : (m <= 4094)%nat -> chr (Z.of_nat m) = Ok (N.of_nat m).
Proof.
  intros H. unfold chr.
  destruct (Z.ltb_spec (Z.of_nat m) (-2147483648)); [lia|].
  destruct (Z.ltb_spec 2147483647 (Z.of_nat m)); [lia|]. simpl.
  destruct (Z.ltb_spec (Z.of_nat m) 0); [lia|].
  destruct (Z.ltb_spec 1114111 (Z.of_nat m)); [lia|]. simpl.
  f_equal. lia.
Qed.

Lemma count_run (k : nat) :
  (n <= 4094)%nat ->
  Program.outcome
    (Program.execute host_int (n + 1 + S k) (Program.program c) input)
  = Program.Returned Success /\
  Program.execute_stdout
    (Program.execute host_int (n + 1 + S k) (Program.program c) input)
  = [Program.print_buffer (Program.program c) ++ [N.of_nat n]].
Proof.
  intros Hn.
  assert (Hz : (0 < length (replicate (Z.to_nat DATA_SIZE) 0))%nat).
  { rewrite length_replicate. unfold DATA_SIZE. lia. }
  destruct (count_fetch n ltac:(lia)) as (m & Hf).
  destruct (Nat.ltb_spec n n); [lia|]. rewrite Nat.eqb_refl in Hf.
  destruct (count_fetch (S n) ltac:(lia)) as (m' & Hf').
  destruct (Nat.ltb_spec (S n) n); [lia|].
  destruct (Nat.eqb_spec (S n) n); [lia|].
  replace (Z.of_nat (S n)) with (Z.of_nat n + 1) in Hf' by lia.
  assert (Hend : Program.after host_int (n + 1)
                   (Program.start (Program.program c) input)
                 = Some (Program.mkVM
                           (Program.with_print_buffer (Program.program c)
                              (Program.print_buffer (Program.program c)
                               ++ [N.of_nat n]))
                           (<[0%nat := Z.of_nat n]>
                              (replicate (Z.to_nat DATA_SIZE) 0))
                           (Z.of_nat n + 1) 0 input)).
  { apply (after_add _ _ _ _ _ _ (count_steps n (Nat.le_refl _))).
    apply (after_out host_int (count_state (Program.program c) input n)
             _ (Z.of_nat n) _ Hf ltac:(reflexivity) eq_refl).
    - unfold count_state. cbn [Program.data Program.ptr].
      apply getitem_nonneg; [lia|]. now apply list_lookup_insert_eq.
    - now apply chr_of_nat. }
  rewrite (execute_after _ _ _ _ _ _ Hend).
  cbn [Program.loop]. unfold Program.guard.
  cbn [Program.prog Program.pc Program.ptr Program.instructions
       Program.with_print_buffer].
  rewrite Hf'. cbn [bind operator Op_eqb negb andb Program.conclude].
  cbn [Program.ptr]. change (negb (0 =? DATA_SIZE)) with true. cbn iota.
  assert (Hbuf : Program.print_buffer (Program.program c) = []).
  { destruct (compile_success _ _ Hcompile Hexit) as (p & _ & _ & _ & Hpb & ->).
    exact Hpb. }
  assert (Hpr : print (Program.print_buffer (Program.program c) ++ [N.of_nat n])
                = Ok (Program.print_buffer (Program.program c) ++ [N.of_nat n])).
  { rewrite Hbuf. unfold print, is_surrogate. cbn [app existsb].
    destruct (N.leb_spec 55296 (N.of_nat n)); [lia | reflexivity]. }
  cbn [Program.prog Program.print_buffer Program.with_print_buffer].
  rewrite Hpr. split; reflexivity.
Qed.

End Counting.

(** X13. Counting: the text of [n] increments followed by an output, for
    [n] up to 4094, compiles, and executing it returns [Success] and prints
    the one character of code point [n]. *)
Theorem increments_then_output
        (host_int : pystr -> Res Z) (input : list pystr) (n k : nat) :
  (n <= 4094)%nat ->
  exists c,
    Program.compile Program.init (source_count n) = Ok c /\
    Program.status (Program.exit c) = Success /\
    Program.outcome
      (Program.execute host_int (n + 1 + S k) (Program.program c) input)
    = Program.Returned Success /\
    Program.execute_stdout
      (Program.execute host_int (n + 1 + S k) (Program.program c) input)
    = [[N.of_nat n]].
Proof.
  intros Hn.
  destruct (compile_flat (source_count n) (source_count_flat n)) as (c & Hc & Hexit).
  { rewrite commands_count, length_app, length_replicate.
    unfold PROGRAM_SIZE. simpl. lia. }
  exists c. split; [exact Hc|]. split; [now rewrite Hexit|].
  destruct (count_run host_int input n c Hc Hexit k Hn) as [H1 H2].
  split; [exact H1|]. rewrite H2.
  destruct (compile_success _ _ Hc Hexit) as (p & _ & _ & _ & Hpb & ->).
  simpl. now rewrite Hpb.
Qed.

(** X13 at three increments. *)
Lemma increments_then_output_witness :
  exists c,
    Program.compile Program.init (source_count 3) = Ok c /\
    Program.status (Program.exit c) = Success /\
    Program.outcome
      (Program.execute decimal_int (3 + 1 + 1) (Program.program c) [])
    = Program.Returned Success /\
    Program.execute_stdout
      (Program.execute decimal_int (3 + 1 + 1) (Program.program c) [])
    = [[N.of_nat 3]].
Proof.
  apply (increments_then_output decimal_int [] 3 0). lia.
Defined.

(** ** Below the tape *)

(** An iteration on [<]. *)
Lemma after_dec_dp (host_int : pystr -> Res Z) (vm : Program.VM) (i : Instruction) :
  getitem (Program.instructions (Program.prog vm)) (Program.pc vm) = Ok i ->
  Program.ptr vm < DATA_SIZE ->
  operator i = OpDecDp ->
  Program.after host_int 1 vm
  = Some (Program.mkVM (Program.prog vm) (Program.data vm) (Program.pc vm + 1)
                       (Program.ptr vm - 1) (Program.stdin vm)).
Proof.
  intros Hfetch Hptr Hop. cbn [Program.after].
  rewrite (guard_holds vm i Hfetch Hptr) by (rewrite Hop; discriminate).
  unfold Program.iteration, Program.exec_op. rewrite Hfetch. cbn [bind].
  rewrite Hop. reflexivity.
Qed.

Lemma getitem_below {A} (l : list A) (i : Z) :
  i < - Z.of_nat (length l) -> getitem l i = Raise IndexError.
Proof.
  intros H. unfold getitem, resolve_index.
  destruct (Z.leb_spec 0 i); [lia|]. simpl.
  destruct (Z.leb_spec (- Z.of_nat (length l)) i); [lia|]. reflexivity.
Qed.

Lemma setitem_below {A} (l : list A) (i : Z) (x : A) :
  i < - Z.of_nat (length l) -> setitem l i x = Raise IndexError.
Proof.
  intros H. unfold setitem, resolve_index.
  destruct (Z.leb_spec 0 i); [lia|]. simpl.
  destruct (Z.leb_spec (- Z.of_nat (length l)) i); [lia|]. reflexivity.
Qed.

(** X14. More than 65535 places below zero the data pointer resolves to no
    cell: when an execution gets there, an instruction that reads the
    current cell (increment, decrement, output, either jump) ends [execute]
    by [IndexError], and so does an input instruction once its line is read
    and parsed; [execute] does not return [Failure]. *)
Theorem below_tape_raises
        (host_int : pystr -> Res Z) (p : Program.t) (input : list pystr)
        (n : nat) (vm : Program.VM) (i : Instruction) :
  Program.after host_int n (Program.start p input) = Some vm ->
  getitem (Program.instructions (Program.prog vm)) (Program.pc vm) = Ok i ->
  Program.ptr vm < - DATA_SIZE ->
  (operator i = OpIncVal \/ operator i = OpDecVal \/ operator i = OpOut \/
   operator i = OpJmpFwd \/ operator i = OpJmpBck ->
   forall k,
     Program.outcome (Program.execute host_int (n + S k) p input)
     = Program.Raised IndexError) /\
  (operator i = OpIn ->
   forall line rest v,
     Program.stdin vm = line :: rest -> host_int line = Ok v ->
     forall k,
       Program.outcome (Program.execute host_int (n + S k) p input)
       = Program.Raised IndexError).
Proof.
  intros Hafter Hi Hptr.
  destruct (after_tape _ _ _ _ _ Hafter) as (Hlen & _ & _).
  assert (Hlow : Program.ptr vm < DATA_SIZE) by (unfold DATA_SIZE in *; lia).
  assert (Hget : getitem (Program.data vm) (Program.ptr vm) = Raise IndexError)
    by (apply getitem_below; lia).
  split.
  - intros Hop k. rewrite (execute_after _ _ _ _ _ _ Hafter).
    cbn [Program.loop].
    rewrite (guard_holds vm i Hi Hlow)
      by (destruct Hop as [H|[H|[H|[H|H]]]]; rewrite H; discriminate).
    unfold Program.iteration, Program.exec_op. rewrite Hi. cbn [bind].
    destruct Hop as [H|[H|[H|[H|H]]]]; rewrite H, Hget; reflexivity.
  - intros Hop line rest v Hin Hline k.
    rewrite (execute_after _ _ _ _ _ _ Hafter). cbn [Program.loop].
    rewrite (guard_holds vm i Hi Hlow) by (rewrite Hop; discriminate).
    unfold Program.iteration, Program.exec_op, Program.input.
    rewrite Hi. cbn [bind]. rewrite Hop, Hin. cbn [bind]. rewrite Hline.
    cbn [bind]. cbn [Program.with_stdin Program.data Program.ptr].
    rewrite setitem_below by lia. reflexivity.
Qed.

Section Back.
Variable host_int : pystr -> Res Z.
Variable input : list pystr.
Variable p : Program.t.
Hypothesis F0 : getitem (Program.instructions p) 0 = Ok (mkInstruction OpIncVal 0).
Hypothesis F1 : getitem (Program.instructions p) 1 = Ok (mkInstruction OpJmpFwd 4).
Hypothesis F2 : getitem (Program.instructions p) 2 = Ok (mkInstruction OpDecDp 0).
Hypothesis F3 : getitem (Program.instructions p) 3 = Ok (mkInstruction OpIncVal 0).
Hypothesis F4 : getitem (Program.instructions p) 4 = Ok (mkInstruction OpJmpBck 1).

Lemma back_tape_length (k : nat) :
  (k <= Z.to_nat (DATA_SIZE - 1))%nat ->
  Z.of_nat (length (back_tape k)) = DATA_SIZE.
Proof.
  intros H. unfold back_tape. rewrite !length_app, !length_replicate.
  cbn [length]. unfold DATA_SIZE in *. lia.
Qed.

Lemma back_tape_split (k : nat) :
  (k < Z.to_nat (DATA_SIZE - 1))%nat ->
  back_tape k
  = ([1] ++ replicate (Z.to_nat (DATA_SIZE - 1) - S k) 0) ++ 0 :: replicate k 1.
Proof.
  intros H. unfold back_tape.
  replace (Z.to_nat (DATA_SIZE - 1) - k)%nat
    with (S (Z.to_nat (DATA_SIZE - 1) - S k)) by lia.
  rewrite replicate_S_end, <- !app_assoc. reflexivity.
Qed.

Lemma back_tape_prefix (k : nat) :
  length ([1] ++ replicate (Z.to_nat (DATA_SIZE - 1) - S k) 0)
  = S (Z.to_nat (DATA_SIZE - 1) - S k).
Proof. rewrite length_app, length_replicate. reflexivity. Qed.

Lemma back_tape_next (k : nat) :
  (k < Z.to_nat (DATA_SIZE - 1))%nat ->
  back_tape k !! (Z.to_nat (DATA_SIZE - 1) - k)%nat = Some 0.
Proof.
  intros H. rewrite back_tape_split by assumption.
  rewrite lookup_app_r by (rewrite back_tape_prefix; lia).
  rewrite back_tape_prefix.
  now replace (Z.to_nat (DATA_SIZE - 1) - k
               - S (Z.to_nat (DATA_SIZE - 1) - S k))%nat with 0%nat by lia.
Qed.

Lemma back_tape_set (k : nat) :
  (k < Z.to_nat (DATA_SIZE - 1))%nat ->
  <[(Z.to_nat (DATA_SIZE - 1) - k)%nat := 0 + 1]> (back_tape k) = back_tape (S k).
Proof.
  intros H. rewrite back_tape_split by assumption.
  rewrite insert_app_r_alt by (rewrite back_tape_prefix; lia).
  rewrite back_tape_prefix.
  replace (Z.to_nat (DATA_SIZE - 1) - k
           - S (Z.to_nat (DATA_SIZE - 1) - S k))%nat with 0%nat by lia.
  unfold back_tape. cbn [insert list_insert replicate].
  now rewrite <- app_assoc.
Qed.

Lemma back_tape_here (k : nat) :
  (k < Z.to_nat (DATA_SIZE - 1))%nat ->
  back_tape (S k) !! (Z.to_nat (DATA_SIZE - 1) - k)%nat = Some 1.
Proof.
  intros H. rewrite <- back_tape_set by assumption.
  apply list_lookup_insert_eq.
  pose proof (back_tape_length k ltac:(lia)). unfold DATA_SIZE in *. lia.
Qed.

(** One turn of the loop of [source_back]: from [-k] to [-(k + 1)]. *)
Lemma back_turn (k : nat) :
  (k < Z.to_nat (DATA_SIZE - 1))%nat ->
  Program.after host_int 3 (back_state p input k) = Some (back_state p input (S k)).
Proof.
  intros H.
  pose proof (back_tape_length k ltac:(lia)) as Hlen.
  pose proof (back_tape_length (S k) ltac:(lia)) as Hlen'.
  assert (Hk : - Z.of_nat k - 1 = - Z.of_nat (S k)) by lia.
  assert (Hidx : Z.to_nat (DATA_SIZE + - Z.of_nat (S k))
                 = (Z.to_nat (DATA_SIZE - 1) - k)%nat)
    by (unfold DATA_SIZE in *; lia).
  apply (after_add host_int 1 2 _
           (Program.mkVM p (back_tape k) 3 (- Z.of_nat (S k)) input)).
  { rewrite <- Hk.
    apply (after_dec_dp host_int (back_state p input k) _ F2); [|reflexivity].
    unfold back_state. cbn [Program.ptr]. unfold DATA_SIZE in *. lia. }
  apply (after_add host_int 1 1 _
           (Program.mkVM p (back_tape (S k)) 4 (- Z.of_nat (S k)) input)).
  { apply (after_inc_val host_int
             (Program.mkVM p (back_tape k) 3 (- Z.of_nat (S k)) input)
             _ F3 ltac:(cbn [Program.ptr]; unfold DATA_SIZE in *; lia) 0);
      [reflexivity| |]; cbn [Program.data Program.ptr].
    - apply getitem_neg; [unfold DATA_SIZE in *; lia|].
      rewrite Hlen, Hidx. now apply back_tape_next.
    - rewrite setitem_neg by (unfold DATA_SIZE in *; lia).
      rewrite Hlen, Hidx. now rewrite back_tape_set. }
  apply (after_jmp_bck_taken host_int
           (Program.mkVM p (back_tape (S k)) 4 (- Z.of_nat (S k)) input)
           _ F4 ltac:(cbn [Program.ptr]; unfold DATA_SIZE in *; lia) 1);
    [reflexivity| |lia]; cbn [Program.data Program.ptr].
  apply getitem_neg; [unfold DATA_SIZE in *; lia|].
  rewrite Hlen', Hidx. now apply back_tape_here.
Qed.

Lemma back_turns (k : nat) :
  (k <= Z.to_nat (DATA_SIZE - 1))%nat ->
  Program.after host_int (3 * k) (back_state p input 0) = Some (back_state p input k).
Proof.
  induction k as [|k IH]; intros H; [reflexivity|].
  replace (3 * S k)%nat with (3 * k + 3)%nat by lia.
  apply (after_add host_int _ _ _ _ _ (IH ltac:(lia))). apply back_turn. lia.
Qed.

(** [source_back] walks the data pointer to 65536 places below zero. *)
Lemma back_reaches_below :
  Program.after host_int (2 + (3 * Z.to_nat (DATA_SIZE - 1) + 4))
                (Program.start p input)
  = Some (Program.mkVM p
            (<[0%nat := 1 + 1]> (back_tape (Z.to_nat (DATA_SIZE - 1))))
            3 (- DATA_SIZE - 1) input).
Proof.
  pose proof (back_tape_length (Z.to_nat (DATA_SIZE - 1)) (Nat.le_refl _)) as Hlen.
  assert (Hone : back_tape 0 = <[0%nat := 0 + 1]> (replicate (Z.to_nat DATA_SIZE) 0)).
  { unfold back_tape.
    replace (Z.to_nat DATA_SIZE) with (S (Z.to_nat (DATA_SIZE - 1)))
      by (unfold DATA_SIZE; lia).
    rewrite Nat.sub_0_r, app_nil_r. reflexivity. }
  assert (Hfirst : back_tape (Z.to_nat (DATA_SIZE - 1)) !! 0%nat = Some 1).
  { unfold back_tape. now rewrite lookup_app_l by (cbn [length]; lia). }
  apply (after_add host_int 2 _ _ (back_state p input 0)).
  { apply (after_add host_int 1 1 _ (Program.mkVM p (back_tape 0) 1 0 input)).
    - apply (after_inc_val host_int (Program.start p input)
               _ F0 ltac:(reflexivity) 0); [reflexivity| |];
        unfold Program.start; cbn [Program.data Program.ptr].
      + apply getitem_nonneg; [lia|]. apply lookup_replicate_2.
        unfold DATA_SIZE. lia.
      + rewrite setitem_nonneg, Hone; [reflexivity|].
        rewrite length_replicate. unfold DATA_SIZE. lia.
    - apply (after_jmp_fwd_skip host_int
               (Program.mkVM p (back_tape 0) 1 0 input)
               _ F1 ltac:(reflexivity) 1);
        [reflexivity| |lia]; cbn [Program.data Program.ptr].
      apply getitem_nonneg; [lia|]. reflexivity. }
  apply (after_add host_int _ 4 _ _ _ (back_turns _ (Nat.le_refl _))).
  apply (after_add host_int 1 3 _
           (Program.mkVM p (back_tape (Z.to_nat (DATA_SIZE - 1))) 3
                         (- DATA_SIZE) input)).
  { replace (- DATA_SIZE) with (- Z.of_nat (Z.to_nat (DATA_SIZE - 1)) - 1)
      by (unfold DATA_SIZE; lia).
    apply (after_dec_dp host_int
             (back_state p input (Z.to_nat (DATA_SIZE - 1))) _ F2); [|reflexivity].
    unfold back_state. cbn [Program.ptr]. unfold DATA_SIZE. lia. }
  apply (after_add host_int 1 2 _
           (Program.mkVM p
              (<[0%nat := 1 + 1]> (back_tape (Z.to_nat (DATA_SIZE - 1))))
              4 (- DATA_SIZE) input)).
  { apply (after_inc_val host_int
             (Program.mkVM p (back_tape (Z.to_nat (DATA_SIZE - 1))) 3
                           (- DATA_SIZE) input)
             _ F3 ltac:(cbn [Program.ptr]; unfold DATA_SIZE; lia) 1);
      [reflexivity| |]; cbn [Program.data Program.ptr].
    - apply getitem_neg; [unfold DATA_SIZE in *; lia|].
      rewrite Hlen. now replace (Z.to_nat (DATA_SIZE + - DATA_SIZE)) with 0%nat by lia.
    - rewrite setitem_neg by (unfold DATA_SIZE in *; lia).
      rewrite Hlen. now replace (Z.to_nat (DATA_SIZE + - DATA_SIZE)) with 0%nat by lia. }
  apply (after_add host_int 1 1 _
           (Program.mkVM p
              (<[0%nat := 1 + 1]> (back_tape (Z.to_nat (DATA_SIZE - 1))))
              2 (- DATA_SIZE) input)).
  { apply (after_jmp_bck_taken host_int
             (Program.mkVM p
                (<[0%nat := 1 + 1]> (back_tape (Z.to_nat (DATA_SIZE - 1))))
                4 (- DATA_SIZE) input)
             _ F4 ltac:(cbn [Program.ptr]; unfold DATA_SIZE; lia) (1 + 1));
      [reflexivity| |lia]; cbn [Program.data Program.ptr].
    apply getitem_neg; [rewrite length_insert; unfold DATA_SIZE in *; lia|].
    rewrite length_insert, Hlen.
    replace (Z.to_nat (DATA_SIZE + - DATA_SIZE)) with 0%nat by lia.
    apply list_lookup_insert_eq. unfold DATA_SIZE in *. lia. }
  apply (after_dec_dp host_int
           (Program.mkVM p
              (<[0%nat := 1 + 1]> (back_tape (Z.to_nat (DATA_SIZE - 1))))
              2 (- DATA_SIZE) input) _ F2); [|reflexivity].
  cbn [Program.ptr]. unfold DATA_SIZE. lia.
Qed.

End Back.

Lemma back_fetch :
  getitem (Program.instructions (compiled source_back)) 0
  = Ok (mkInstruction OpIncVal 0) /\
  getitem (Program.instructions (compiled source_back)) 1
  = Ok (mkInstruction OpJmpFwd 4) /\
  getitem (Program.instructions (compiled source_back)) 2
  = Ok (mkInstruction OpDecDp 0) /\
  getitem (Program.instructions (compiled source_back)) 3
  = Ok (mkInstruction OpIncVal 0) /\
  getitem (Program.instructions (compiled source_back)) 4
  = Ok (mkInstruction OpJmpBck 1).
Proof.
  set (l := Program.instructions (compiled source_back)).
  vm_compute in l. repeat split; reflexivity.
Qed.

(** X14 at [+[<+]]: the data pointer walks down to -65536, where the
    increment raises. *)
Lemma below_tape_raises_witness :
  Program.ptr <$>
    Program.after decimal_int (2 + (3 * Z.to_nat (DATA_SIZE - 1) + 4))
                  (Program.start (compiled source_back) [])
  = Some (- DATA_SIZE - 1) /\
  Program.outcome
    (Program.execute decimal_int (2 + (3 * Z.to_nat (DATA_SIZE - 1) + 4) + 1)
                     (compiled source_back) [])
  = Program.Raised IndexError.
Proof.
  destruct back_fetch as (F0 & F1 & F2 & F3 & F4).
  pose proof (back_reaches_below decimal_int [] _ F0 F1 F2 F3 F4) as Hreach.
  split.
  - rewrite Hreach. reflexivity.
  - exact (proj1 (below_tape_raises decimal_int (compiled source_back) []
                    _ _ _ Hreach F3
                    ltac:(cbn [Program.ptr]; unfold DATA_SIZE; lia))
             (or_introl eq_refl) 0%nat).
Defined.

(** ** The input instruction below the tape *)

(** Writing a cell that exists, and reading it back. *)
Lemma setitem_getitem (l : list Z) (i v : Z) :
  - Z.of_nat (length l) <= i < Z.of_nat (length l) ->
  exists d, setitem l i v = Ok d /\ getitem d i = Ok v /\ length d = length l.
Proof.
  intros H. destruct (Z.lt_ge_cases i 0).
  - rewrite setitem_neg by lia. eexists. split; [reflexivity|].
    rewrite length_insert. split; [|reflexivity].
    apply getitem_neg; rewrite length_insert; [lia|].
    apply list_lookup_insert_eq. lia.
  - rewrite setitem_nonneg by lia. eexists. split; [reflexivity|].
    rewrite length_insert. split; [|reflexivity].
    apply getitem_nonneg; [lia|]. apply list_lookup_insert_eq. lia.
Qed.

(** Iterations from a state reached. *)
Lemma after_split (host_int : pystr -> Res Z) (n m : nat) :
  forall vm vm',
    Program.after host_int n vm = Some vm' ->
    Program.after host_int (n + m) vm = Program.after host_int m vm'.
Proof.
  induction n as [|n IH]; intros vm vm' H; simpl in *.
  - now injection H as <-.
  - destruct (Program.guard vm) as [[|]|e]; try discriminate.
    destruct (Program.iteration host_int vm) as [[vm1|st]|e]; try discriminate.
    now apply IH.
Qed.

(** An iteration on [,] that stores the integer read. *)
Lemma after_in (host_int : pystr -> Res Z) (vm : Program.VM) (i : Instruction)
      (line : pystr) (rest : list pystr) (v : Z) (d : list Z) :
  getitem (Program.instructions (Program.prog vm)) (Program.pc vm) = Ok i ->
  Program.ptr vm < DATA_SIZE ->
  operator i = OpIn ->
  Program.stdin vm = line :: rest ->
  host_int line = Ok v ->
  setitem (Program.data vm) (Program.ptr vm) v = Ok d ->
  Program.after host_int 1 vm
  = Some (Program.mkVM (Program.prog vm) d (Program.pc vm + 1)
                       (Program.ptr vm) rest).
Proof.
  intros Hfetch Hptr Hop Hin Hline Hd. cbn [Program.after].
  rewrite (guard_holds vm i Hfetch Hptr) by (rewrite Hop; discriminate).
  unfold Program.iteration, Program.exec_op, Program.input.
  rewrite Hfetch. cbn [bind]. rewrite Hop, Hin. cbn [bind]. rewrite Hline.
  cbn [bind Program.with_stdin Program.data Program.ptr]. rewrite Hd.
  reflexivity.
Qed.

Section Reading.
Variable host_int : pystr -> Res Z.
Variable p : Program.t.
Variables (line : pystr) (v : Z).
Hypothesis Hline : host_int line = Ok v.
Hypothesis Hv : v <> 0.
Hypothesis F0 : getitem (Program.instructions p) 0 = Ok (mkInstruction OpIncVal 0).
Hypothesis F1 : getitem (Program.instructions p) 1 = Ok (mkInstruction OpJmpFwd 4).
Hypothesis F2 : getitem (Program.instructions p) 2 = Ok (mkInstruction OpDecDp 0).
Hypothesis F3 : getitem (Program.instructions p) 3 = Ok (mkInstruction OpIn 0).
Hypothesis F4 : getitem (Program.instructions p) 4 = Ok (mkInstruction OpJmpBck 1).

(** One turn of the loop of [source_read]: a step to the left, a line read
    into the cell there. *)
Lemma read_turn (j : Z) (d : list Z) (rest : list pystr) :
  Z.of_nat (length d) = DATA_SIZE ->
  0 <= j < DATA_SIZE ->
  exists d',
    Z.of_nat (length d') = DATA_SIZE /\
    Program.after host_int 3 (Program.mkVM p d 2 (- j) (line :: rest))
    = Some (Program.mkVM p d' 2 (- j - 1) rest).
Proof.
  intros Hlen Hj.
  destruct (setitem_getitem d (- j - 1) v ltac:(lia)) as (d' & Hset & Hget & Hlen').
  exists d'. split; [lia|].
  apply (after_add host_int 1 2 _
           (Program.mkVM p d 3 (- j - 1) (line :: rest))).
  { apply (after_dec_dp host_int (Program.mkVM p d 2 (- j) (line :: rest)) _ F2);
      [|reflexivity].
    cbn [Program.ptr]. lia. }
  apply (after_add host_int 1 1 _ (Program.mkVM p d' 4 (- j - 1) rest)).
  { apply (after_in host_int (Program.mkVM p d 3 (- j - 1) (line :: rest))
             _ line rest v d' F3); try reflexivity; try assumption.
    cbn [Program.ptr]. lia. }
  apply (after_jmp_bck_taken host_int (Program.mkVM p d' 4 (- j - 1) rest)
           _ F4 ltac:(cbn [Program.ptr]; lia) v); [reflexivity| |assumption].
  exact Hget.
Qed.

Lemma read_turns (k : nat) :
  forall (j : Z) (d : list Z) (rest : list pystr),
    Z.of_nat (length d) = DATA_SIZE ->
    0 <= j -> j + Z.of_nat k <= DATA_SIZE ->
    exists d',
      Z.of_nat (length d') = DATA_SIZE /\
      Program.after host_int (3 * k)
        (Program.mkVM p d 2 (- j) (replicate k line ++ rest))
      = Some (Program.mkVM p d' 2 (- j - Z.of_nat k) rest).
Proof.
  induction k as [|k IH]; intros j d rest Hlen Hj Hk.
  - exists d. split; [assumption|]. cbn [Nat.mul Program.after replicate app].
    now replace (- j - Z.of_nat 0) with (- j) by lia.
  - destruct (read_turn j d (replicate k line ++ rest) Hlen ltac:(lia))
      as (d1 & Hlen1 & H1).
    destruct (IH (j + 1) d1 rest Hlen1 ltac:(lia) ltac:(lia)) as (d' & Hlen' & H2).
    exists d'. split; [assumption|].
    replace (3 * S k)%nat with (3 + 3 * k)%nat by lia.
    replace (- j - Z.of_nat (S k)) with (- (j + 1) - Z.of_nat k) by lia.
    replace (- j - 1) with (- (j + 1)) in H1 by lia.
    exact (after_add host_int _ _ _ _ _ H1 H2).
Qed.

(** [source_read] gets to its input instruction 65536 places below zero,
    with a line left to read. *)
Lemma read_reaches_below :
  exists d,
    Z.of_nat (length d) = DATA_SIZE /\
    Program.after host_int (2 + (3 * Z.to_nat DATA_SIZE + 1))
      (Program.start p (replicate (Z.to_nat (DATA_SIZE + 1)) line))
    = Some (Program.mkVM p d 3 (- DATA_SIZE - 1) [line]).
Proof.
  set (d0 := <[0%nat := 0 + 1]> (replicate (Z.to_nat DATA_SIZE) 0)).
  assert (Hlen0 : Z.of_nat (length d0) = DATA_SIZE).
  { unfold d0. rewrite length_insert, length_replicate. unfold DATA_SIZE. lia. }
  assert (Hin : replicate (Z.to_nat (DATA_SIZE + 1)) line
                = replicate (Z.to_nat DATA_SIZE) line ++ [line]).
  { replace (Z.to_nat (DATA_SIZE + 1)) with (S (Z.to_nat DATA_SIZE))
      by (unfold DATA_SIZE; lia).
    apply replicate_S_end. }
  destruct (read_turns (Z.to_nat DATA_SIZE) 0 d0 [line] Hlen0 ltac:(lia)
              ltac:(unfold DATA_SIZE; lia)) as (d & Hlen & Hturns).
  exists d. split; [assumption|]. rewrite Hin.
  apply (after_add host_int 2 _ _
           (Program.mkVM p d0 2 0 (replicate (Z.to_nat DATA_SIZE) line ++ [line]))).
  { apply (after_add host_int 1 1 _
             (Program.mkVM p d0 1 0
                (replicate (Z.to_nat DATA_SIZE) line ++ [line]))).
    - apply (after_inc_val host_int
               (Program.start p (replicate (Z.to_nat DATA_SIZE) line ++ [line]))
               _ F0 ltac:(reflexivity) 0); [reflexivity| |];
        unfold Program.start; cbn [Program.data Program.ptr].
      + apply getitem_nonneg; [lia|]. apply lookup_replicate_2.
        unfold DATA_SIZE. lia.
      + rewrite setitem_nonneg; [reflexivity|].
        rewrite length_replicate. unfold DATA_SIZE. lia.
    - apply (after_jmp_fwd_skip host_int
               (Program.mkVM p d0 1 0
                  (replicate (Z.to_nat DATA_SIZE) line ++ [line]))
               _ F1 ltac:(reflexivity) 1);
        [reflexivity| |lia]; cbn [Program.data Program.ptr].
      apply getitem_nonneg; [lia|]. unfold d0.
      apply list_lookup_insert_eq. rewrite length_replicate.
      unfold DATA_SIZE. lia. }
  apply (after_add host_int _ 1 _ _ _ Hturns).
  replace (- DATA_SIZE - 1) with (- 0 - Z.of_nat (Z.to_nat DATA_SIZE) - 1)
    by (unfold DATA_SIZE; lia).
  apply (after_dec_dp host_int
           (Program.mkVM p d 2 (- 0 - Z.of_nat (Z.to_nat DATA_SIZE)) [line]) _ F2);
    [|reflexivity].
  cbn [Program.ptr]. unfold DATA_SIZE. lia.
Qed.

End Reading.

Lemma read_fetch :
  getitem (Program.instructions (compiled source_read)) 0
  = Ok (mkInstruction OpIncVal 0) /\
  getitem (Program.instructions (compiled source_read)) 1
  = Ok (mkInstruction OpJmpFwd 4) /\
  getitem (Program.instructions (compiled source_read)) 2
  = Ok (mkInstruction OpDecDp 0) /\
  getitem (Program.instructions (compiled source_read)) 3
  = Ok (mkInstruction OpIn 0) /\
  getitem (Program.instructions (compiled source_read)) 4
  = Ok (mkInstruction OpJmpBck 1).
Proof.
  set (l := Program.instructions (compiled source_read)).
  vm_compute in l. repeat split; reflexivity.
Qed.

Lemma read_compiled :
  exists c,
    Program.compile Program.init source_read = Ok c /\
    Program.exit c = Program.Compiled /\
    Program.program c = compiled source_read.
Proof.
  unfold compiled.
  destruct (compile_loop_nesting source_read) as (p & _ & _ & _ & Hc).
  { apply nesting_check_within. vm_compute. reflexivity. }
  { vm_compute. discriminate. }
  replace (negb (depth_after source_read =? 0)
           || (Z.of_nat (length (commands source_read)) =? PROGRAM_SIZE))
    with false in Hc by (vm_compute; reflexivity).
  rewrite Hc. eexists. split; [reflexivity|]. split; reflexivity.
Qed.

(** C10 as stated fails: compiled from [+[<,]] and given 65536 lines [1],
    the machine reads 65535 of them into the cells to the left, the last of
    these into cell 0 again, and gets to the input instruction once more with
    the data pointer at -65536 and a line left that is an integer literal.
    The integer is not stored: the assignment raises [IndexError] and
    [execute] ends by it. *)
Lemma C10_counterexample :
  exists c vm,
    Program.compile Program.init source_read = Ok c /\
    Program.exit c = Program.Compiled /\
    Program.after decimal_int read_steps
      (Program.start (Program.program c) read_input) = Some vm /\
    getitem (Program.instructions (Program.prog vm)) (Program.pc vm)
    = Ok (mkInstruction OpIn 0) /\
    Program.ptr vm = - DATA_SIZE - 1 /\
    Program.stdin vm = [str "1"] /\
    decimal_int (str "1") = Ok 1 /\
    setitem (Program.data vm) (Program.ptr vm) 1 = Raise IndexError /\
    Program.after decimal_int (S read_steps)
      (Program.start (Program.program c) read_input) = None /\
    Program.outcome
      (Program.execute decimal_int (read_steps + 1) (Program.program c) read_input)
    = Program.Raised IndexError.
Proof.
  destruct read_fetch as (F0 & F1 & F2 & F3 & F4).
  destruct (read_reaches_below decimal_int (compiled source_read) (str "1") 1
              eq_refl ltac:(lia) F0 F1 F2 F3 F4) as (d & Hlen & Hreach).
  destruct read_compiled as (c & Hc & Hexit & Hprog).
  assert (Hset : setitem d (- DATA_SIZE - 1) 1 = Raise IndexError)
    by (apply setitem_below; lia).
  assert (Hstep : Program.iteration decimal_int
                    (Program.mkVM (compiled source_read) d 3 (- DATA_SIZE - 1)
                                  [str "1"])
                  = Raise IndexError).
  { unfold Program.iteration, Program.exec_op, Program.input.
    cbn [Program.prog Program.pc Program.stdin]. rewrite F3.
    cbn [bind operator Program.with_stdin Program.data Program.ptr].
    change (decimal_int (str "1")) with (Ok 1). cbn [bind].
    rewrite Hset. reflexivity. }
  assert (Hguard : Program.guard
                     (Program.mkVM (compiled source_read) d 3 (- DATA_SIZE - 1)
                                   [str "1"])
                   = Ok true).
  { apply (guard_holds
             (Program.mkVM (compiled source_read) d 3 (- DATA_SIZE - 1) [str "1"])
             _ F3); [reflexivity | discriminate]. }
  exists c, (Program.mkVM (compiled source_read) d 3 (- DATA_SIZE - 1) [str "1"]).
  rewrite Hprog. unfold read_steps, read_input.
  split; [exact Hc|]. split; [exact Hexit|]. split; [exact Hreach|].
  split; [exact F3|]. split; [reflexivity|]. split; [reflexivity|].
  split; [reflexivity|]. split; [exact Hset|]. split.
  - replace (S (2 + (3 * Z.to_nat DATA_SIZE + 1)))
      with (2 + (3 * Z.to_nat DATA_SIZE + 1) + 1)%nat by lia.
    destruct (Program.after decimal_int (2 + (3 * Z.to_nat DATA_SIZE + 1) + 1)
                (Program.start (compiled source_read)
                   (replicate (Z.to_nat (DATA_SIZE + 1)) (str "1"))))
      as [vm'|] eqn:E; [|reflexivity].
    exfalso. revert E.
    rewrite (after_split decimal_int _ 1 _ _ Hreach).
    cbn [Program.after]. rewrite Hguard, Hstep. discriminate.
  - rewrite (execute_after decimal_int _ 1 _ _ _ Hreach).
    cbn [Program.loop]. rewrite Hguard, Hstep. reflexivity.
Qed.

(** ** The script *)

Lemma compile_char_exit_fails (ch : char) (pc : Z) (p p' : Program.t) (e : Program.Exit) :
  Program.compile_char ch pc p = Ok (Program.Exited e p') ->
  Program.status e = Failure.
Proof.
  unfold Program.compile_char, Program.emit, Program.case_open,
    Program.case_close, bind.
  intros H. repeat case_match; simplify_eq; reflexivity.
Qed.

Lemma compile_loop_exit_fails (cs : pystr) :
  forall (pc : Z) (p p' : Program.t) (e : Program.Exit),
    Program.compile_loop cs pc p = Ok (Program.Exited e p') ->
    Program.status e = Failure.
Proof.
  induction cs as [|ch cs IH]; intros pc p p' e H; cbn [Program.compile_loop] in H.
  - discriminate.
  - destruct (negb (pc <? PROGRAM_SIZE)); [discriminate|].
    destruct (Program.compile_char ch pc p) as [[pc1 p1|e1 p1]|x] eqn:E;
      cbn [bind] in H.
    + exact (IH _ _ _ _ H).
    + injection H as -> ->. exact (compile_char_exit_fails _ _ _ _ _ E).
    + discriminate.
Qed.

Lemma compile_stdout_status (p : Program.t) (src : pystr) (c : Program.Compilation) :
  Program.compile p src = Ok c ->
  Program.compile_stdout c =
    match Program.status (Program.exit c) with
    | Success => [str "Compilation successful!"]
    | Failure => []
    end.
Proof.
  unfold Program.compile, bind. intros H.
  destruct (Program.compile_loop (strip src) 0 p) as [[pc1 p1|e1 p1]|x] eqn:E;
    [| |discriminate].
  - repeat case_match; simplify_eq; reflexivity.
  - injection H as <-. simpl. now rewrite (compile_loop_exit_fails _ _ _ _ _ E).
Qed.

Lemma execute_stdout_outcome
      (host_int : pystr -> Res Z) (fuel : nat) (p : Program.t) (input : list pystr) :
  Program.execute_stdout (Program.execute host_int fuel p input) =
    match Program.outcome (Program.execute host_int fuel p input) with
    | Program.Returned Success =>
        [Program.print_buffer
           (Program.prog (Program.final (Program.execute host_int fuel p input)))]
    | _ => []
    end.
Proof.
  unfold Program.execute, Program.conclude.
  destruct (Program.loop host_int fuel (Program.start p input)) as [b vm] eqn:E.
  destruct b; simpl; try reflexivity.
  - destruct (negb (Program.ptr vm =? DATA_SIZE)); [|reflexivity].
    destruct (print (Program.print_buffer (Program.prog vm))) as [line|x] eqn:P;
      [|reflexivity].
    simpl. now rewrite (print_Ok _ _ P).
  - destruct s; [|reflexivity]. exfalso.
    destruct (loop_last _ _ _ _ _ E) as (m & _ & _ & Hret).
    unfold Program.iteration, Program.exec_op, Program.input, bind in Hret.
    repeat case_match; simplify_eq.
Qed.

(** X15. The test of the arguments prints the usage line and goes on.
    Without a file argument [main] prints it and ends by [IndexError]; with
    one argument that names no file it prints it and ends by the exception of
    [open]; with more than one argument, the first naming a file, it prints
    it and compiles and runs that file all the same. *)
Theorem usage_does_not_stop
        (host_int : pystr -> Res Z) (fuel : nat) (env : Main.Env) :
  (forall a0,
     Main.argv env = [a0] ->
     Main.main host_int fuel env
     = Main.mkRun (Main.Uncaught (Main.Core IndexError)) [Main.usage a0]) /\
  (forall a0 path,
     Main.argv env = [a0; path] -> Main.files env path = None ->
     Main.main host_int fuel env
     = Main.mkRun (Main.Uncaught Main.FileNotFoundError) [Main.usage a0]) /\
  (forall a0 path more rest text,
     Main.argv env = a0 :: path :: more :: rest ->
     Main.files env path = Some text ->
     Main.main host_int fuel env
     = Main.stages host_int fuel text (Main.lines env) [Main.usage a0]) /\
  (forall a0 path text,
     Main.argv env = [a0; path] -> Main.files env path = Some text ->
     Main.main host_int fuel env
     = Main.stages host_int fuel text (Main.lines env) []).
Proof.
  unfold Main.main, Main.bad_arguments.
  split; [|split; [|split]].
  - intros a0 ->. reflexivity.
  - intros a0 path -> Hf. simpl. rewrite Hf. reflexivity.
  - intros a0 path more rest text -> Hf.
    assert (Hlen : negb (Z.of_nat (length (a0 :: path :: more :: rest)) =? 2) = true).
    { apply negb_true_iff, Z.eqb_neq. simpl length. lia. }
    rewrite Hlen.
    assert (H0 : getitem (a0 :: path :: more :: rest) 0 = Ok a0)
      by now apply getitem_nonneg.
    assert (H1 : getitem (a0 :: path :: more :: rest) 1 = Ok path)
      by now apply getitem_nonneg.
    rewrite H0, H1. cbn [bind]. now rewrite Hf.
  - intros a0 path text -> Hf. simpl. rewrite Hf. reflexivity.
Qed.

(** X15 with no file argument, a missing file, two file arguments. *)
Lemma usage_does_not_stop_witness :
  Main.main decimal_int 10 (Main.mkEnv [str "whynot.py"] (one_file (str "a.bf") (str "+.")) [])
  = Main.mkRun (Main.Uncaught (Main.Core IndexError)) [Main.usage (str "whynot.py")] /\
  Main.main decimal_int 10
    (Main.mkEnv [str "whynot.py"; str "b.bf"] (one_file (str "a.bf") (str "+.")) [])
  = Main.mkRun (Main.Uncaught Main.FileNotFoundError) [Main.usage (str "whynot.py")] /\
  Main.main decimal_int 10
    (Main.mkEnv [str "whynot.py"; str "a.bf"; str "b.bf"]
                (one_file (str "a.bf") (str "+.")) [])
  = Main.stages decimal_int 10 (str "+.") [] [Main.usage (str "whynot.py")].
Proof.
  split; [|split].
  - exact (proj1 (usage_does_not_stop decimal_int 10
                    (Main.mkEnv [str "whynot.py"] (one_file (str "a.bf") (str "+.")) []))
             (str "whynot.py") eq_refl).
  - exact (proj1 (proj2 (usage_does_not_stop decimal_int 10
                    (Main.mkEnv [str "whynot.py"; str "b.bf"]
                                (one_file (str "a.bf") (str "+.")) [])))
             (str "whynot.py") (str "b.bf") eq_refl eq_refl).
  - exact (proj1 (proj2 (proj2 (usage_does_not_stop decimal_int 10
                    (Main.mkEnv [str "whynot.py"; str "a.bf"; str "b.bf"]
                                (one_file (str "a.bf") (str "+.")) []))))
             (str "whynot.py") (str "a.bf") (str "b.bf") [] (str "+.")
             eq_refl eq_refl).
Defined.

(** X16. What the process reports, called with one argument that names a
    file.  If [compile] returns [Failure], [execute] is not called: the
    process prints the one line [Error: Error.FailedToExecute!] and exits
    with 1.  If [execute] returns [Failure] it prints that same line, after
    the message of [compile], and exits with 1: the line does not tell the
    two stages apart.  If both return [Success] it prints the message of
    [compile], the print buffer and its closing line, and exits with 0. *)
Theorem script_reports
        (host_int : pystr -> Res Z) (fuel : nat) (env : Main.Env)
        (a0 path text : pystr) (c : Program.Compilation) :
  Main.argv env = [a0; path] ->
  Main.files env path = Some text ->
  Program.compile Program.init text = Ok c ->
  (Program.status (Program.exit c) = Failure ->
   Main.script host_int fuel env
   = Main.mkProcess (Main.ExitCode 1) [str "Error: Error.FailedToExecute!"]) /\
  (Program.status (Program.exit c) = Success ->
   Program.outcome
     (Program.execute host_int fuel (Program.program c) (Main.lines env))
   = Program.Returned Failure ->
   Main.script host_int fuel env
   = Main.mkProcess (Main.ExitCode 1)
       [str "Compilation successful!"; str "Error: Error.FailedToExecute!"]) /\
  (Program.status (Program.exit c) = Success ->
   Program.outcome
     (Program.execute host_int fuel (Program.program c) (Main.lines env))
   = Program.Returned Success ->
   Main.script host_int fuel env
   = Main.mkProcess (Main.ExitCode 0)
       [str "Compilation successful!";
        Program.print_buffer
          (Program.prog
             (Program.final
                (Program.execute host_int fuel (Program.program c) (Main.lines env))));
        str "Program executed successfully!"]).
Proof.
  intros Hargs Hfile Hc.
  assert (Hmain : Main.main host_int fuel env
                  = Main.stages host_int fuel text (Main.lines env) []).
  { unfold Main.main, Main.bad_arguments. rewrite Hargs. simpl.
    rewrite Hfile. reflexivity. }
  pose proof (compile_stdout_status _ _ _ Hc) as Hout.
  pose proof (execute_stdout_outcome host_int fuel (Program.program c)
                (Main.lines env)) as Hex.
  unfold Main.script. rewrite Hmain. unfold Main.stages. rewrite Hc.
  split; [|split].
  - intros Hs. rewrite Hs in *. rewrite Hout. reflexivity.
  - intros Hs Ho. rewrite Hs in *. rewrite Hout, Hex, Ho. reflexivity.
  - intros Hs Ho. rewrite Hs in *. rewrite Hout, Hex, Ho. reflexivity.
Qed.

Lemma sweep_returns_failure :
  Program.outcome (Program.execute decimal_int sweep_fuel (compiled source_sweep) [])
  = Program.Returned Failure.
Proof.
  destruct sweep_fetch as (F0 & F1 & F2 & F3 & F4).
  pose proof (sweep_reaches_end decimal_int [] _ F0 F1 F2 F3 F4) as Hreach.
  unfold sweep_fuel. rewrite (execute_after decimal_int _ 1 _ _ _ Hreach).
  cbn [Program.loop]. unfold Program.guard.
  cbn [Program.prog Program.pc Program.ptr]. rewrite F3. cbn [bind].
  rewrite Z.ltb_irrefl, andb_false_r. cbn [Program.conclude Program.ptr].
  rewrite Z.eqb_refl. reflexivity.
Qed.

(** X16 at [+] followed by an unmatched bracket, at [+[>+]], which runs off
    the tape, and at the sample program that prints an at sign. *)
Lemma script_reports_witness :
  Main.script decimal_int 1 (called_on (str "+]") [])
  = Main.mkProcess (Main.ExitCode 1) [str "Error: Error.FailedToExecute!"] /\
  Main.script decimal_int sweep_fuel (called_on source_sweep [])
  = Main.mkProcess (Main.ExitCode 1)
      [str "Compilation successful!"; str "Error: Error.FailedToExecute!"] /\
  Main.script decimal_int 150 (called_on source_at [])
  = Main.mkProcess (Main.ExitCode 0)
      [str "Compilation successful!"; str "@"; str "Program executed successfully!"].
Proof.
  split; [|split].
  - assert (Hc : exists c, Program.compile Program.init (str "+]") = Ok c /\
                           Program.status (Program.exit c) = Failure).
    { eexists. split; [vm_compute; reflexivity | reflexivity]. }
    destruct Hc as (c & Hc & Hs).
    exact (proj1 (script_reports decimal_int 1 (called_on (str "+]") [])
                    _ _ _ c eq_refl eq_refl Hc) Hs).
  - destruct sweep_compiled as (c & Hc & Hexit & Hprog).
    assert (Hs : Program.status (Program.exit c) = Success) by now rewrite Hexit.
    apply (proj1 (proj2 (script_reports decimal_int sweep_fuel
                           (called_on source_sweep [])
                           _ _ _ c eq_refl eq_refl Hc)) Hs).
    rewrite Hprog. exact sweep_returns_failure.
  - assert (Hc : exists c, Program.compile Program.init source_at = Ok c /\
                           Program.status (Program.exit c) = Success /\
                           Program.program c = compiled source_at).
    { eexists. split; [vm_compute; reflexivity|]. split; [reflexivity|].
      vm_compute. reflexivity. }
    destruct Hc as (c & Hc & Hs & Hprog).
    assert (Ho : Program.outcome
                   (Program.execute decimal_int 150 (Program.program c) [])
                 = Program.Returned Success).
    { rewrite Hprog. vm_compute. reflexivity. }
    rewrite (proj2 (proj2 (script_reports decimal_int 150 (called_on source_at [])
                             _ _ _ c eq_refl eq_refl Hc)) Hs Ho).
    cbn [called_on Main.lines]. rewrite Hprog.
    assert (Hb : Program.print_buffer
                   (Program.prog
                      (Program.final
                         (Program.execute decimal_int 150 (compiled source_at) [])))
                 = str "@") by (vm_compute; reflexivity).
    rewrite Hb. reflexivity.
Defined.

(** ** Writing the buffer *)

(** X17. When the loop is left with the data pointer off the end of the
    tape, what [execute] does depends on the print buffer alone: if it holds
    a surrogate (which [chr] returns for the values 55296 to 57343), [print]
    raises, [execute] ends by [UnicodeEncodeError] with nothing written and
    returns neither status; otherwise it writes the buffer and returns
    [Success]. *)
Theorem execute_print_outcome
        (host_int : pystr -> Res Z) (p : Program.t) (input : list pystr)
        (n : nat) (vm : Program.VM) :
  Program.after host_int n (Program.start p input) = Some vm ->
  Program.guard vm = Ok false ->
  Program.ptr vm <> DATA_SIZE ->
  (existsb is_surrogate (Program.print_buffer (Program.prog vm)) = true ->
   forall k,
     Program.outcome (Program.execute host_int (n + S k) p input)
     = Program.Raised UnicodeEncodeError /\
     Program.execute_stdout (Program.execute host_int (n + S k) p input) = []) /\
  (existsb is_surrogate (Program.print_buffer (Program.prog vm)) = false ->
   forall k,
     Program.outcome (Program.execute host_int (n + S k) p input)
     = Program.Returned Success /\
     Program.execute_stdout (Program.execute host_int (n + S k) p input)
     = [Program.print_buffer (Program.prog vm)]).
Proof.
  intros Hafter Hguard Hptr.
  assert (Hrun : forall k,
             Program.execute host_int (n + S k) p input
             = Program.conclude (Program.LoopExit, vm)).
  { intros k. rewrite (execute_after host_int n (S k) _ _ _ Hafter).
    cbn [Program.loop]. now rewrite Hguard. }
  split; intros Hs k; rewrite Hrun; unfold Program.conclude, print;
    destruct (Z.eqb_spec (Program.ptr vm) DATA_SIZE); try contradiction;
    cbn [negb]; rewrite Hs; split; reflexivity.
Qed.

(** X17 at [,.]: on the line [55296] the buffer holds a surrogate, on the
    line [64] an at sign. *)
Lemma execute_print_outcome_witness :
  (Program.outcome
     (Program.execute decimal_int (2 + 1) (compiled source_echo) [str "55296"])
   = Program.Raised UnicodeEncodeError /\
   Program.execute_stdout
     (Program.execute decimal_int (2 + 1) (compiled source_echo) [str "55296"])
   = []) /\
  (Program.outcome
     (Program.execute decimal_int (2 + 1) (compiled source_echo) [str "64"])
   = Program.Returned Success /\
   Program.execute_stdout
     (Program.execute decimal_int (2 + 1) (compiled source_echo) [str "64"])
   = [str "@"]).
Proof.
  assert (R1 : Program.after decimal_int 2
                 (Program.start (compiled source_echo) [str "55296"])
               = Some (state_after 2 source_echo [str "55296"]))
    by (apply state_after_reached; vm_compute; reflexivity).
  assert (G1 : Program.guard (state_after 2 source_echo [str "55296"]) = Ok false)
    by (vm_compute; reflexivity).
  assert (P1 : Program.ptr (state_after 2 source_echo [str "55296"]) <> DATA_SIZE)
    by (vm_compute; discriminate).
  assert (Hs1 : existsb is_surrogate
                 (Program.print_buffer
                    (Program.prog (state_after 2 source_echo [str "55296"])))
               = true)
    by (vm_compute; reflexivity).
  assert (R2 : Program.after decimal_int 2
                 (Program.start (compiled source_echo) [str "64"])
               = Some (state_after 2 source_echo [str "64"]))
    by (apply state_after_reached; vm_compute; reflexivity).
  assert (G2 : Program.guard (state_after 2 source_echo [str "64"]) = Ok false)
    by (vm_compute; reflexivity).
  assert (P2 : Program.ptr (state_after 2 source_echo [str "64"]) <> DATA_SIZE)
    by (vm_compute; discriminate).
  assert (Hs2 : existsb is_surrogate
                 (Program.print_buffer
                    (Program.prog (state_after 2 source_echo [str "64"])))
               = false)
    by (vm_compute; reflexivity).
  split.
  - exact (proj1 (execute_print_outcome decimal_int (compiled source_echo)
                    [str "55296"] 2 _ R1 G1 P1) Hs1 0%nat).
  - assert (B : Program.print_buffer
                  (Program.prog (state_after 2 source_echo [str "64"]))
                = str "@")
      by (vm_compute; reflexivity).
    rewrite <- B.
    exact (proj2 (execute_print_outcome decimal_int (compiled source_echo)
                    [str "64"] 2 _ R2 G2 P2) Hs2 0%nat).
Defined.
